(** * api-explorer: the GitHub URL parser, the fetch routine, the stored doc
    list and the stale-response guard, embedded from the JavaScript sources.

    Strings.  A JavaScript string is held as the bytes of its UTF-8 encoding
    (Rocq's [string]); every character the sources inspect ('/', the ASCII
    letters of the two host names, hex digits, line terminators, white space)
    is recognised on that encoding, so a well-formed string and its bytes are
    treated alike.

    Platform.  [new URL], [JSON.parse], [JSON.stringify], [fetch] and
    [localStorage] belong to the browser, not to the repository.  They enter
    the functions below as parameters; [Whatwg.newURL] is a concrete instance
    of the URL constructor for the two GitHub hosts. *)

From Stdlib Require Import ZArith NArith String Ascii List Bool Lia DecimalString.
From Stdlib Require Import DecimalN DecimalPos.
From stdpp Require Import base option list strings gmap.

#[local] Set Warnings "-register-all".

Local Open Scope string_scope.

(* ===================================================================== *)
(** ** JavaScript strings *)
(* ===================================================================== *)

Module Js.

Definition code (c : ascii) : nat := nat_of_ascii c.

Definition in_range (lo hi : nat) (c : ascii) : bool :=
  (Nat.leb lo (code c)) && (Nat.leb (code c) hi).

Definition is_char (n : nat) (c : ascii) : bool := Nat.eqb (code c) n.

Definition slash : ascii := ascii_of_nat 47.
Definition is_slash (c : ascii) : bool := is_char 47 c.

(** The quotation mark, for the messages that quote a word. *)
Definition dquote : string := String (ascii_of_nat 34) EmptyString.

(** Case folding of a regular expression with the [i] flag and without the
    [u] flag: a character is compared through [toUpperCase], and a character
    outside ASCII is never folded onto an ASCII one. *)
Definition to_upper (c : ascii) : ascii :=
  if in_range 97 122 c then ascii_of_nat (code c - 32) else c.

Definition char_eq_ci (p c : ascii) : bool :=
  Ascii.eqb (to_upper p) (to_upper c).

(** *** [String.prototype.trim]: WhiteSpace and LineTerminator code points *)

(** TAB, LF, VT, FF, CR, SP. *)
Definition is_ws1 (c : ascii) : bool := in_range 9 13 c || is_char 32 c.

(** U+00A0 is C2 A0. *)
Definition is_ws2 (b1 b2 : ascii) : bool := is_char 194 b1 && is_char 160 b2.

(** U+1680; U+2000..U+200A, U+2028, U+2029, U+202F; U+205F; U+3000; U+FEFF. *)
Definition is_ws3 (b1 b2 b3 : ascii) : bool :=
  (is_char 225 b1 && is_char 154 b2 && is_char 128 b3)
  || (is_char 226 b1 && is_char 128 b2
      && (in_range 128 138 b3 || in_range 168 169 b3 || is_char 175 b3))
  || (is_char 226 b1 && is_char 129 b2 && is_char 159 b3)
  || (is_char 227 b1 && is_char 128 b2 && is_char 128 b3)
  || (is_char 239 b1 && is_char 187 b2 && is_char 191 b3).

Fixpoint trimStart (s : string) : string :=
  match s with
  | EmptyString => EmptyString
  | String c1 r1 =>
      if is_ws1 c1 then trimStart r1
      else
        match r1 with
        | EmptyString => s
        | String c2 r2 =>
            if is_ws2 c1 c2 then trimStart r2
            else
              match r2 with
              | EmptyString => s
              | String c3 r3 => if is_ws3 c1 c2 c3 then trimStart r3 else s
              end
        end
  end.

(** The same scan from the end, on the reversed bytes. *)
Fixpoint drop_ws_rev (l : list ascii) : list ascii :=
  match l with
  | [] => []
  | c1 :: r1 =>
      if is_ws1 c1 then drop_ws_rev r1
      else
        match r1 with
        | [] => l
        | c2 :: r2 =>
            if is_ws2 c2 c1 then drop_ws_rev r2
            else
              match r2 with
              | [] => l
              | c3 :: r3 => if is_ws3 c3 c2 c1 then drop_ws_rev r3 else l
              end
        end
  end.

Definition trimEnd (s : string) : string :=
  string_of_list_ascii (rev (drop_ws_rev (rev (list_ascii_of_string s)))).

Definition trim (s : string) : string := trimEnd (trimStart s).

(** *** [split('/')], [join('/')], [pop()] *)

(** [s.split('/')]: the pieces between slashes; never the empty array. *)
Fixpoint split_slash (s : string) : list string :=
  match s with
  | EmptyString => [EmptyString]
  | String c r =>
      if is_slash c then EmptyString :: split_slash r
      else
        match split_slash r with
        | [] => [String c EmptyString]
        | seg :: segs => String c seg :: segs
        end
  end.

Fixpoint join_slash (l : list string) : string :=
  match l with
  | [] => EmptyString
  | [x] => x
  | x :: r => x ++ String slash (join_slash r)
  end.

(** [a.pop()] on a fresh array: its last element, [undefined] when empty. *)
Definition pop (l : list string) : option string := last l.

(** [x || d] for a string [x] that may be [undefined]. *)
Definition or_else (x : option string) (d : string) : string :=
  match x with
  | Some (String c r) => String c r
  | _ => d
  end.

(** [x || undefined]. *)
Definition or_undefined (x : string) : option string :=
  match x with
  | EmptyString => None
  | _ => Some x
  end.

(** *** The two [replace] calls of the parser *)

(** [s.replace(/^\//, '')]: one leading slash is removed. *)
Definition strip_leading_slash (s : string) : string :=
  match s with
  | String c r => if is_slash c then r else s
  | EmptyString => EmptyString
  end.

(** [s.replace(/\/+/g, '/')]: every run of slashes becomes one slash. *)
Fixpoint collapse_slashes (s : string) : string :=
  match s with
  | EmptyString => EmptyString
  | String c r =>
      if is_slash c then
        match r with
        | String c' _ =>
            if is_slash c' then collapse_slashes r
            else String c (collapse_slashes r)
        | EmptyString => String c EmptyString
        end
      else String c (collapse_slashes r)
  end.

(** *** Percent-encoding *)

Definition hex_digit (n : nat) : ascii :=
  if Nat.ltb n 10 then ascii_of_nat (48 + n) else ascii_of_nat (55 + n).

(** [%XX] with upper-case digits. *)
Definition percent_byte (c : ascii) : string :=
  String (ascii_of_nat 37)
    (String (hex_digit (code c / 16)) (String (hex_digit (code c mod 16)) EmptyString)).

Definition is_alnum (c : ascii) : bool :=
  in_range 48 57 c || in_range 65 90 c || in_range 97 122 c.

(** [encodeURIComponent] keeps [A-Z a-z 0-9 - _ . ! ~ * ' ( )] and writes
    every other byte of the UTF-8 encoding as [%XX]. *)
Definition uri_unreserved (c : ascii) : bool :=
  is_alnum c
  || is_char 45 c || is_char 95 c || is_char 46 c || is_char 33 c
  || is_char 126 c || is_char 42 c || is_char 39 c || is_char 40 c
  || is_char 41 c.

Fixpoint encodeURIComponent (s : string) : string :=
  match s with
  | EmptyString => EmptyString
  | String c r =>
      (if uri_unreserved c then String c EmptyString else percent_byte c)
      ++ encodeURIComponent r
  end.

(** *** Pieces of the regular expressions *)

(** A literal of the pattern, matched at the start of [s] under the [i]
    flag; the result is what follows it. *)
Fixpoint strip_ci (p s : string) : option string :=
  match p, s with
  | EmptyString, _ => Some s
  | String _ _, EmptyString => None
  | String pc p', String c s' => if char_eq_ci pc c then strip_ci p' s' else None
  end.

(** [(?:p)?] followed by the rest [k] of the pattern: the literal is tried
    first, and skipped when the rest does not match after it. *)
Definition optional_ci {A} (p : string) (k : string → option A) (s : string)
  : option A :=
  match strip_ci p s ≫= k with
  | Some r => Some r
  | None => k s
  end.

(** The longest prefix without a slash, and what follows it. *)
Fixpoint until_slash (s : string) : string * string :=
  match s with
  | EmptyString => (EmptyString, EmptyString)
  | String c r =>
      if is_slash c then (EmptyString, s)
      else let '(a, b) := until_slash r in (String c a, b)
  end.

(** [([^/]+)\/]: a non-empty group that stops at the next slash, which is
    consumed.  The group cannot give back characters: what follows it must be
    a slash, and it holds none. *)
Definition segment (s : string) : option (string * string) :=
  match until_slash s with
  | (String c a, String _ rest) => Some (String c a, rest)
  | _ => None
  end.

(** LF, CR, U+2028 (E2 80 A8) and U+2029 (E2 80 A9): what [.] refuses. *)
Fixpoint has_line_terminator (s : string) : bool :=
  match s with
  | EmptyString => false
  | String c1 r1 =>
      is_char 10 c1 || is_char 13 c1
      || match r1 with
         | String c2 (String c3 _) =>
             is_char 226 c1 && is_char 128 c2 && in_range 168 169 c3
         | _ => false
         end
      || has_line_terminator r1
  end.

(** [(.+)$]: the whole remainder, non-empty and free of line terminators. *)
Definition dot_plus_end (s : string) : option string :=
  match s with
  | EmptyString => None
  | String _ _ => if has_line_terminator s then None else Some s
  end.

(** [/rate limit/i.test(s)]. *)
Fixpoint contains_ci (p s : string) : bool :=
  match strip_ci p s with
  | Some _ => true
  | None =>
      match s with
      | EmptyString => false
      | String _ r => contains_ci p r
      end
  end.

(** [String(n)] for a status code. *)
Definition number_to_string (n : N) : string :=
  NilZero.string_of_uint (N.to_uint n).

(** [s.slice(from, to)] for indices that are not negative: the characters
    from [from] up to, not including, [to], as far as the string goes. *)
Definition slice (from to : nat) (s : string) : string :=
  substring from (to - from) s.

End Js.

(* ===================================================================== *)
(** ** JavaScript values *)
(* ===================================================================== *)

(** What [JSON.parse] and [Response.json()] produce, and [undefined] for a
    property that is not there.  Numbers are kept as integers: the sources
    only test them for truth and write them into a URL.  A number with a
    fraction, or one of 10^21 and more, which JavaScript writes with an
    exponent, is not covered: where the text of a SHA matters, the
    statements take the SHA to be a text.  The fields of an object are
    listed once each. *)
Inductive JsValue : Type :=
| JUndefined
| JNull
| JBool (b : bool)
| JNum (n : Z)
| JStr (s : string)
| JArr (items : list JsValue)
| JObj (fields : list (string * JsValue)).

Module Value.

(** [ToBoolean]. *)
Definition truthy (v : JsValue) : bool :=
  match v with
  | JUndefined | JNull => false
  | JBool b => b
  | JNum n => negb (Z.eqb n 0)
  | JStr EmptyString => false
  | JStr (String _ _) => true
  | JArr _ | JObj _ => true
  end.

Fixpoint assoc (k : string) (fields : list (string * JsValue)) : JsValue :=
  match fields with
  | [] => JUndefined
  | (k', v) :: rest => if String.eqb k k' then v else assoc k rest
  end.

(** [v.k] for one of the property names the sources read ([tree], [sha],
    [truncated], [path], [type], [message]): none of them is defined on a
    prototype, so it is an own property of a parsed object or [undefined].
    [None] is the [TypeError] of reading a property of [null] or
    [undefined]. *)
Definition prop (v : JsValue) (k : string) : option JsValue :=
  match v with
  | JUndefined | JNull => None
  | JObj fields => Some (assoc k fields)
  | _ => Some JUndefined
  end.

(** [v?.k]. *)
Definition opt_prop (v : JsValue) (k : string) : JsValue :=
  match v with
  | JObj fields => assoc k fields
  | _ => JUndefined
  end.

(** [v === s] for a string [s]. *)
Definition is_string (s : string) (v : JsValue) : bool :=
  match v with
  | JStr s' => String.eqb s' s
  | _ => false
  end.

(** [String(v)], as a template literal and [RegExp.prototype.test] apply
    it: an array joins the texts of its elements with commas, [null] and
    [undefined] elements giving the empty text; an integer below 10^21 is
    written with all its digits. *)
Fixpoint to_string (v : JsValue) : string :=
  match v with
  | JUndefined => "undefined"
  | JNull => "null"
  | JBool true => "true"
  | JBool false => "false"
  | JNum n => NilZero.string_of_int (Z.to_int n)
  | JStr s => s
  | JArr items =>
      (fix join (l : list JsValue) : string :=
         match l with
         | [] => EmptyString
         | x :: r =>
             let e := match x with
                      | JUndefined | JNull => EmptyString
                      | _ => to_string x
                      end in
             match r with
             | [] => e
             | _ :: _ => e ++ "," ++ join r
             end
         end) items
  | JObj _ => "[object Object]"
  end.

End Value.

(* ===================================================================== *)
(** ** The URL constructor *)
(* ===================================================================== *)

Module Whatwg.
Import Js.

(** The two properties of a parsed URL that the parser reads. *)
Record URL := { origin : string; pathname : string }.

(** *** Preparation of the input (URL Standard, basic URL parser, steps 1-3) *)

Definition is_c0_or_space (c : ascii) : bool := Nat.leb (code c) 32.

Fixpoint drop_c0_space (l : list ascii) : list ascii :=
  match l with
  | c :: r => if is_c0_or_space c then drop_c0_space r else l
  | [] => []
  end.

Definition strip_c0_space (s : string) : string :=
  string_of_list_ascii
    (rev (drop_c0_space (rev (drop_c0_space (list_ascii_of_string s))))).

Definition is_tab_or_newline (c : ascii) : bool :=
  is_char 9 c || is_char 10 c || is_char 13 c.

Fixpoint remove_tab_newline (s : string) : string :=
  match s with
  | EmptyString => EmptyString
  | String c r =>
      if is_tab_or_newline c then remove_tab_newline r
      else String c (remove_tab_newline r)
  end.

(** *** Path state *)

(** The path percent-encode set: C0 controls and everything above [~];
    space, the quotation mark, [#], [<], [>]; [?], the grave accent, the
    two braces.  Engines differ on the circumflex; the model follows
    Node.js 22, which writes it as it is.  Only the statements about the
    second encoding by [buildContentsUrl] depend on the set. *)
Definition in_path_percent_encode_set (c : ascii) : bool :=
  Nat.leb (code c) 31 || Nat.ltb 126 (code c)
  || is_char 32 c || is_char 34 c || is_char 35 c || is_char 60 c
  || is_char 62 c
  || is_char 63 c || is_char 96 c || is_char 123 c
  || is_char 125 c.

Definition path_encode (c : ascii) : string :=
  if in_path_percent_encode_set c then percent_byte c
  else String c EmptyString.

(** [buf] is [p], ASCII case folded. *)
Definition eq_ci (p buf : string) : bool :=
  match strip_ci p buf with
  | Some EmptyString => true
  | _ => false
  end.

Definition is_single_dot (buf : string) : bool :=
  eq_ci "." buf || eq_ci "%2e" buf.

Definition is_double_dot (buf : string) : bool :=
  eq_ci ".." buf || eq_ci ".%2e" buf || eq_ci "%2e." buf || eq_ci "%2e%2e" buf.

(** A path is kept with its last segment first.  Shortening a path of a
    scheme other than [file] removes the last segment, if there is one. *)
Definition shorten (path : list string) : list string := tail path.

(** What the path state does with the buffer at a separator:
    [slash_follows] tells whether the separator is a slash or a backslash
    (then the path goes on) or the end, [?] or [#]. *)
Definition close_segment (slash_follows : bool) (path : list string)
  (buf : string) : list string :=
  if is_double_dot buf then
    if slash_follows then shorten path else EmptyString :: shorten path
  else if is_single_dot buf then
    if slash_follows then path else EmptyString :: path
  else buf :: path.

(** The path state of a special scheme, from the character after the slash
    that opens the path. *)
Fixpoint path_state (path : list string) (buf input : string) : list string :=
  match input with
  | EmptyString => close_segment false path buf
  | String c rest =>
      if is_slash c || is_char 92 c then
        path_state (close_segment true path buf) EmptyString rest
      else if is_char 63 c || is_char 35 c then
        close_segment false path buf
      else path_state path (buf ++ path_encode c) rest
  end.

(** The path serializer: a slash before every segment. *)
Fixpoint serialize (path : list string) : string :=
  match path with
  | [] => EmptyString
  | seg :: before => serialize before ++ String slash seg
  end.

(** Path start state: a slash or backslash after the host opens the path;
    the end, [?] or [#] leave it to the path state with nothing read.  Any
    other character continues the authority (a longer host, a port,
    credentials), which this model does not cover. *)
Definition after_host (org : string) (tail : string) : option URL :=
  match tail with
  | EmptyString =>
      Some {| origin := org; pathname := serialize (path_state [] EmptyString tail) |}
  | String c rest =>
      if is_slash c || is_char 92 c then
        Some {| origin := org; pathname := serialize (path_state [] EmptyString rest) |}
      else if is_char 63 c || is_char 35 c then
        Some {| origin := org; pathname := serialize (path_state [] EmptyString tail) |}
      else None
  end.

Definition hosts : list string :=
  ["github.com"; "www.github.com"; "raw.githubusercontent.com"].

Fixpoint try_hosts (scheme : string) (hs : list string) (s : string)
  : option URL :=
  match hs with
  | [] => None
  | h :: hs' =>
      match strip_ci h s ≫= after_host (scheme ++ "://" ++ h) with
      | Some u => Some u
      | None => try_hosts scheme hs' s
      end
  end.

(** [new URL(input)] on an absolute [http] or [https] URL whose authority
    is one of GitHub's three host names, bare (no credentials, no port),
    written [scheme://host]; scheme and host are lower-cased in the origin.
    [None] is the constructor throwing.  The model answers [None] on every
    other input as well (credentials, a port, more or fewer slashes after
    the scheme, another host), where the real constructor may succeed: the
    statements apply it to URLs of the form above only. *)
Definition newURL (input : string) : option URL :=
  let s := remove_tab_newline (strip_c0_space input) in
  match strip_ci "https://" s with
  | Some r => try_hosts "https" hosts r
  | None =>
      match strip_ci "http://" s with
      | Some r => try_hosts "http" hosts r
      | None => None
      end
  end.

End Whatwg.

(* ===================================================================== *)
(** ** src/lib/github.js: parseGitHubUrl *)
(* ===================================================================== *)

Record Normalized := {
  owner : string;
  repo : string;
  branch : string;
  path : string;
  key : string
}.

Module GitHub.
Import Js.

(** The four groups of a match. *)
Definition Groups : Type := string * string * string * string.

(** [/^https?:\/\/raw\.githubusercontent\.com\/([^/]+)\/([^/]+)\/([^/]+)\/(.+)$/i] *)
Definition rawMatch (s : string) : option Groups :=
  strip_ci "http" s ≫= optional_ci "s" (λ s1,
    s2 ← strip_ci "://raw.githubusercontent.com/" s1;
    '(o, s3) ← segment s2;
    '(r, s4) ← segment s3;
    '(b, s5) ← segment s4;
    p ← dot_plus_end s5;
    Some (o, r, b, p)).

(** [/^https?:\/\/(?:www\.)?github\.com\/([^/]+)\/([^/]+)\/blob\/([^/]+)\/(.+)$/i] *)
Definition blobMatch (s : string) : option Groups :=
  strip_ci "http" s ≫= optional_ci "s" (λ s1,
    strip_ci "://" s1 ≫= optional_ci "www." (λ s2,
      s3 ← strip_ci "github.com/" s2;
      '(o, s4) ← segment s3;
      '(r, s5) ← segment s4;
      s6 ← strip_ci "blob/" s5;
      '(b, s7) ← segment s6;
      p ← dot_plus_end s7;
      Some (o, r, b, p))).

(** The object literal both branches return. *)
Definition normalized_of (g : Groups) : Normalized :=
  let '(o, r, b, p) := g in
  {| owner := o;
     repo := r;
     branch := b;
     path := strip_leading_slash p;
     key := collapse_slashes
              (o ++ String slash (r ++ String slash (b ++ String slash p))) |}.

Section Parse.

(** [new URL]: [None] when it throws. *)
Variable newURL : string → option Whatwg.URL.

(** The [try] block: [u.origin + u.pathname], or the trimmed text itself
    when the constructor throws. *)
Definition strip_query_and_hash (trimmed : string) : string :=
  match newURL trimmed with
  | Some u => Whatwg.origin u ++ Whatwg.pathname u
  | None => trimmed
  end.

(** [None] is [null]. *)
Definition parseGitHubUrl (url : JsValue) : option Normalized :=
  match url with
  | JStr (String c r) =>
      let trimmed := strip_query_and_hash (trim (String c r)) in
      match rawMatch trimmed with
      | Some g => Some (normalized_of g)
      | None =>
          match blobMatch trimmed with
          | Some g => Some (normalized_of g)
          | None => None
          end
      end
  | _ => None
  end.

End Parse.

(** [/^[0-9a-f]{40}$/i.test(ref)] *)
Definition is_hex (c : ascii) : bool :=
  in_range 48 57 c || in_range 97 102 c || in_range 65 70 c.

Definition isCommitSha (ref : string) : bool :=
  Nat.eqb (String.length ref) 40 && forallb is_hex (list_ascii_of_string ref).

Definition GITHUB_API_BASE : string := "https://api.github.com".

(** [`${GITHUB_API_BASE}/repos/${owner}/${repo}`], the start of the four
    URLs the routine builds. *)
Definition repo_url (n : Normalized) : string :=
  GITHUB_API_BASE ++ "/repos/" ++ owner n ++ "/" ++ repo n.

(** [path.split('/').map(encodeURIComponent).join('/')] and the template. *)
Definition buildContentsUrl (n : Normalized) : string :=
  let encodedPath := join_slash (map encodeURIComponent (split_slash (path n))) in
  repo_url n ++ ("/contents/" ++ encodedPath ++ "?ref=" ++ encodeURIComponent (branch n)).

(** The three Git Data URLs of [fetchBlobByCommit]. *)
Definition commit_url (n : Normalized) (commitSha : string) : string :=
  repo_url n ++ ("/git/commits/" ++ commitSha).

Definition tree_url (n : Normalized) (treeSha : JsValue) : string :=
  repo_url n ++ ("/git/trees/" ++ Value.to_string treeSha ++ "?recursive=1").

Definition blob_url (n : Normalized) (sha : JsValue) : string :=
  repo_url n ++ ("/git/blobs/" ++ Value.to_string sha).

End GitHub.

(* ===================================================================== *)
(** ** Exceptions, HTTP and the request log *)
(* ===================================================================== *)

(** A thrown value: an [Error] instance with its name and message, or any
    other value. *)
Inductive Thrown : Type :=
| ErrorObj (name message : string)
| ThrownValue (v : JsValue).

Inductive Result (A : Type) : Type :=
| Ok (a : A)
| Throw (e : Thrown).
Arguments Ok {A} a.
Arguments Throw {A} e.

(** [new Error(message)]. *)
Definition Error (message : string) : Thrown := ErrorObj "Error" message.

Module Http.

Record Headers := {
  Accept : string;
  Authorization : option string
}.

Record Request := {
  url : string;
  headers : Headers
}.

(** A response: its status line, and what [text()] and [json()] settle to. *)
Record Response := {
  status : N;
  statusText : string;
  text : Result string;
  json : Result JsValue
}.

(** [Response.ok]: the status is in the range 200-299. *)
Definition ok (r : Response) : bool :=
  N.leb 200 (status r) && N.leb (status r) 299.

(** What [await fetch(...)] gives: a rejection (network failure) or a
    response. *)
Inductive FetchOutcome : Type :=
| Rejected (e : Thrown)
| Responded (r : Response).

(** A computation that issues requests: it extends the log of the requests
    made so far and returns or throws. *)
Definition Fetch (A : Type) : Type := list Request → list Request * Result A.

Definition ret {A} (a : A) : Fetch A := λ log, (log, Ok a).

Definition throw {A} (e : Thrown) : Fetch A := λ log, (log, Throw e).

Definition bind {A B} (m : Fetch A) (k : A → Fetch B) : Fetch B :=
  λ log,
    match m log with
    | (log', Ok a) => k a log'
    | (log', Throw e) => (log', Throw e)
    end.

(** A promise that is awaited: nothing is requested. *)
Definition await {A} (r : Result A) : Fetch A := λ log, (log, r).

(** [p.catch(() => d)]. *)
Definition catch_with {A} (r : Result A) (d : A) : A :=
  match r with
  | Ok a => a
  | Throw _ => d
  end.

End Http.

#[export] Instance fetch_ret : MRet Http.Fetch := @Http.ret.
#[export] Instance fetch_bind : MBind Http.Fetch := λ A B k m, Http.bind m k.

(* ===================================================================== *)
(** ** src/lib/github.js: the fetch routine *)
(* ===================================================================== *)

Module Fetching.
Import Js Http GitHub.

Section WithPlatform.

(** The network, as the answer to each request. *)
Variable server : Request → FetchOutcome.

(** The [TypeError] the engine raises for the expression named. *)
Variable typeError : string → Thrown.

Definition fetch (u : string) (h : Headers) : Fetch Response :=
  λ log,
    let req := {| url := u; headers := h |} in
    ((log ++ [req])%list,
     match server req with
     | Rejected e => Throw e
     | Responded r => Ok r
     end).

(** [if (token)]: a token that is a non-empty string. *)
Definition has_token (token : option string) : bool :=
  match token with
  | Some (String _ _) => true
  | _ => false
  end.

(** [{ Accept: a }], with [Authorization: `Bearer ${token}`] when a token
    is given. *)
Definition make_headers (a : string) (token : option string) : Headers :=
  {| Accept := a;
     Authorization :=
       match token with
       | Some (String c r) => Some ("Bearer " ++ String c r)
       | _ => None
       end |}.

(** [v.k], throwing the engine's [TypeError] on [null]. *)
Definition get (what : string) (v : JsValue) (k : string) : Fetch JsValue :=
  match Value.prop v k with
  | Some x => ret x
  | None => throw (typeError what)
  end.

(** [(e) => e.path === path && e.type === 'blob'] *)
Definition is_blob_at (p : string) (e : JsValue) : option bool :=
  x ← Value.prop e "path";
  if Value.is_string p x then
    t ← Value.prop e "type"; Some (Value.is_string "blob" t)
  else Some false.

(** [items.find(cb)]: the first element the callback accepts, [undefined]
    when there is none; [None] when the callback throws. *)
Fixpoint find_blob (p : string) (items : list JsValue) : option JsValue :=
  match items with
  | [] => Some JUndefined
  | e :: rest =>
      match is_blob_at p e with
      | None => None
      | Some true => Some e
      | Some false => find_blob p rest
      end
  end.

(** [tree.tree?.find(...)]: [undefined] when [tree.tree] is [null] or
    [undefined]; a [TypeError] when it is a value without [find]. *)
Definition find_entry (p : string) (entries : JsValue) : Fetch JsValue :=
  match entries with
  | JUndefined | JNull => ret JUndefined
  | JArr items =>
      match find_blob p items with
      | Some e => ret e
      | None => throw (typeError "e.path")
      end
  | _ => throw (typeError "tree.tree?.find")
  end.

Definition api_error (r : Response) : Thrown :=
  Error ("GitHub API error: " ++ number_to_string (status r)).

(** [fetchBlobByCommit(normalized, commitSha, token)] *)
Definition fetchBlobByCommit (n : Normalized) (commitSha : string)
  (token : option string) : Fetch string :=
  let headers := make_headers "application/vnd.github.v3+json" token in
  commitRes ← fetch (commit_url n commitSha) headers;
  if N.eqb (status commitRes) 401 then
    throw (Error ("Invalid or expired GitHub token. Set a valid token in Settings (sidebar) with the "
                    ++ dquote ++ "repo" ++ dquote ++ " scope."))
  else if N.eqb (status commitRes) 403 then
    throw (Error ("Access denied. Ensure your token is set in Settings and has the "
                    ++ dquote ++ "repo" ++ dquote ++ " scope for private repos."))
  else if N.eqb (status commitRes) 404 then
    throw (Error ("Commit not found or no access. Set your token in Settings (sidebar). Classic tokens need "
                    ++ dquote ++ "repo" ++ dquote
                    ++ " scope; fine-grained tokens need Contents: Read for this repository."))
  else if negb (ok commitRes) then throw (api_error commitRes)
  else
    commit ← await (json commitRes);
    commitTree ← get "commit.tree" commit "tree";
    let treeSha := Value.opt_prop commitTree "sha" in
    if negb (Value.truthy treeSha) then throw (Error "Commit has no tree.")
    else
      treeRes ← fetch (tree_url n treeSha) headers;
      if N.eqb (status treeRes) 404 then throw (Error "Tree not found.")
      else if negb (ok treeRes) then throw (api_error treeRes)
      else
        tree ← await (json treeRes);
        truncated ← get "tree.truncated" tree "truncated";
        if Value.truthy truncated then
          throw (Error "Repository tree is too large. Try using a branch name in the URL instead of a commit SHA.")
        else
          entries ← get "tree.tree" tree "tree";
          entry ← find_entry (path n) entries;
          let sha := Value.opt_prop entry "sha" in
          if negb (Value.truthy sha) then
            throw (Error ("Path " ++ dquote ++ path n ++ dquote
                            ++ " not found in this commit. Check the file path."))
          else
            let blobHeaders := make_headers "application/vnd.github.raw" token in
            blobRes ← fetch (blob_url n sha) blobHeaders;
            if negb (ok blobRes) then throw (api_error blobRes)
            else await (text blobRes).

(** [data.message && /rate limit/i.test(data.message)] *)
Definition mentions_rate_limit (message : JsValue) : bool :=
  Value.truthy message && contains_ci "rate limit" (Value.to_string message).

(** [fetchYamlFromGitHub(normalized, token)].  The fallback returns a
    string, so [content !== null] holds whenever it returns. *)
Definition fetchYamlFromGitHub (n : Normalized) (token : option string)
  : Fetch string :=
  let url := buildContentsUrl n in
  let headers := make_headers "application/vnd.github.raw" token in
  res ← fetch url headers;
  if ok res then await (text res)
  else if N.eqb (status res) 404 && isCommitSha (branch n) then
    fetchBlobByCommit n (branch n) token
  else if N.eqb (status res) 404 then
    let detail := "Requested: " ++ owner n ++ "/" ++ repo n ++ " @ " ++ branch n
                    ++ " → " ++ path n in
    let hint :=
      if has_token token then
        "Check that the URL is correct and your token has the " ++ dquote ++ "repo"
          ++ dquote ++ " scope (for private repos)."
      else
        "If this is a private repo, add a GitHub token in Settings (with " ++ dquote
          ++ "repo" ++ dquote ++ " scope)." in
    throw (Error ("File not found. " ++ detail ++ " — " ++ hint))
  else if N.eqb (status res) 403 then
    let data := catch_with (json res) (JObj []) in
    message ← get "data.message" data "message";
    if mentions_rate_limit message then
      throw (Error "GitHub rate limit exceeded. Try again later or add a token.")
    else
      throw (Error
        (if has_token token then
           "Access denied (403). Ensure your token has the " ++ dquote ++ "repo"
             ++ dquote ++ " scope."
         else "Access denied. Add a GitHub token in Settings."))
  else if N.eqb (status res) 401 then
    throw (Error
      (if has_token token then
         "Invalid or expired GitHub token. Create a new token and update Settings."
       else "Unauthorized. For private repos, add a GitHub token in Settings."))
  else
    throw (Error ("GitHub API error: " ++ number_to_string (status res) ++ " "
                    ++ statusText res)).

End WithPlatform.

End Fetching.

(* ===================================================================== *)
(** ** src/lib/storage.js *)
(* ===================================================================== *)

(** A stored entry ([DocEntry] of the JSDoc). *)
Record DocEntry := {
  id : string;
  name : option string;
  label : option string;
  githubUrl : string;
  normalized : Normalized
}.

Module Storage.

(** [localStorage]: its items; [denied] when reading it throws (storage
    disabled), [full] when writing throws (quota exceeded).  The two flags
    tell what the browser answers to the calls of one handler or effect;
    whether a later, longer text still fits is not followed, and the
    statements conclude nothing about the flags after a write. *)
Record LocalStorage := {
  items : gmap string string;
  denied : bool;
  full : bool
}.

(** [localStorage.getItem(k)]: [None] when it throws, [Some None] for
    [null]. *)
Definition getItem (ls : LocalStorage) (k : string) : option (option string) :=
  if denied ls then None else Some (items ls !! k).

(** [localStorage.setItem(k, v)]: [None] when it throws. *)
Definition setItem (ls : LocalStorage) (k v : string) : option LocalStorage :=
  if denied ls || full ls then None
  else Some {| items := <[k := v]> (items ls); denied := denied ls; full := full ls |}.

Definition STORAGE_KEY : string := "api-explorer-docs".
Definition STORAGE_KEY_TOKEN : string := "api-explorer-github-token".

(** The object [JSON.stringify] is given for an entry. *)
Definition normalized_value (n : Normalized) : JsValue :=
  JObj [("owner", JStr (owner n)); ("repo", JStr (repo n));
        ("branch", JStr (branch n)); ("path", JStr (path n));
        ("key", JStr (key n))].

Definition optional_value (x : option string) : JsValue :=
  match x with
  | Some s => JStr s
  | None => JUndefined
  end.

Definition doc_value (d : DocEntry) : JsValue :=
  JObj [("id", JStr (id d)); ("name", optional_value (name d));
        ("label", optional_value (label d)); ("githubUrl", JStr (githubUrl d));
        ("normalized", normalized_value (normalized d))].

Section WithJSON.

(** [JSON.parse]: [None] when it throws. *)
Variable JSON_parse : string → option JsValue.

(** [JSON.stringify] of a list of entries. *)
Variable JSON_stringify : JsValue → string.

(** [loadDocs()]: the [try] block returns [[]] for a missing or empty item
    and for a value that is no array; the [catch] returns [[]]. *)
Definition loadDocs (ls : LocalStorage) : list JsValue :=
  match getItem ls STORAGE_KEY with
  | None => []
  | Some None => []
  | Some (Some EmptyString) => []
  | Some (Some raw) =>
      match JSON_parse raw with
      | Some (JArr parsed) => parsed
      | Some _ => []
      | None => []
      end
  end.

(** [saveDocs(docs)]: a failed write is logged and dropped. *)
Definition saveDocs (docs : list DocEntry) (ls : LocalStorage) : LocalStorage :=
  match setItem ls STORAGE_KEY (JSON_stringify (JArr (map doc_value docs))) with
  | Some ls' => ls'
  | None => ls
  end.

End WithJSON.

(** [loadToken()] *)
Definition loadToken (ls : LocalStorage) : string :=
  match getItem ls STORAGE_KEY_TOKEN with
  | Some (Some s) => s
  | Some None => EmptyString
  | None => EmptyString
  end.

(** [saveToken(token)] *)
Definition saveToken (token : string) (ls : LocalStorage) : LocalStorage :=
  match setItem ls STORAGE_KEY_TOKEN token with
  | Some ls' => ls'
  | None => ls
  end.

(** [generateId()]: [`doc-${Date.now()}-${Math.random().toString(36).slice(2, 9)}`].
    The clock and the random number belong to the platform: [now] is what
    [Date.now()] returns (milliseconds, after 1970), [random36] the text
    [Math.random().toString(36)] returns. *)
Definition generateId (now : N) (random36 : string) : string :=
  "doc-" ++ Js.number_to_string now ++ "-" ++ Js.slice 2 9 random36.

(** *** A stored value read as a [DocEntry]

    The components read [id], [name], [label], [githubUrl] and [normalized]
    off the values [loadDocs] returns.  [None] when a value has not the
    fields of the typedef. *)
Definition string_field (v : JsValue) (k : string) : option string :=
  match Value.opt_prop v k with
  | JStr s => Some s
  | _ => None
  end.

Definition optional_field (v : JsValue) (k : string) : option (option string) :=
  match Value.opt_prop v k with
  | JStr s => Some (Some s)
  | JUndefined => Some None
  | _ => None
  end.

Definition normalized_of_value (v : JsValue) : option Normalized :=
  o ← string_field v "owner";
  r ← string_field v "repo";
  b ← string_field v "branch";
  p ← string_field v "path";
  k ← string_field v "key";
  Some {| owner := o; repo := r; branch := b; path := p; key := k |}.

Definition entry_of_value (v : JsValue) : option DocEntry :=
  i ← string_field v "id";
  n ← optional_field v "name";
  l ← optional_field v "label";
  u ← string_field v "githubUrl";
  norm ← normalized_of_value (Value.opt_prop v "normalized");
  Some {| id := i; name := n; label := l; githubUrl := u; normalized := norm |}.

End Storage.

(* ===================================================================== *)
(** ** The state of the application *)
(* ===================================================================== *)

(** The state hooks of [App] and of [DocList], the ref that mirrors the
    selection, and the browser's storage. *)
Record State := {
  docs : list DocEntry;
  selectedId : option string;
  selectedIdRef : option string;
  fetchedYaml : option string;
  loading : bool;
  error : option string;
  token : string;
  storage : Storage.LocalStorage;
  inputUrl : string;
  inputName : string;
  addError : string;
  editingId : option string;
  editingName : string
}.

Module Hooks.

Definition setDocs (v : list DocEntry) (s : State) : State :=
  {| docs := v; selectedId := selectedId s; selectedIdRef := selectedIdRef s;
     fetchedYaml := fetchedYaml s; loading := loading s; error := error s;
     token := token s; storage := storage s; inputUrl := inputUrl s;
     inputName := inputName s; addError := addError s;
     editingId := editingId s; editingName := editingName s |}.

Definition setSelectedId (v : option string) (s : State) : State :=
  {| docs := docs s; selectedId := v; selectedIdRef := selectedIdRef s;
     fetchedYaml := fetchedYaml s; loading := loading s; error := error s;
     token := token s; storage := storage s; inputUrl := inputUrl s;
     inputName := inputName s; addError := addError s;
     editingId := editingId s; editingName := editingName s |}.

Definition setSelectedIdRef (v : option string) (s : State) : State :=
  {| docs := docs s; selectedId := selectedId s; selectedIdRef := v;
     fetchedYaml := fetchedYaml s; loading := loading s; error := error s;
     token := token s; storage := storage s; inputUrl := inputUrl s;
     inputName := inputName s; addError := addError s;
     editingId := editingId s; editingName := editingName s |}.

Definition setFetchedYaml (v : option string) (s : State) : State :=
  {| docs := docs s; selectedId := selectedId s; selectedIdRef := selectedIdRef s;
     fetchedYaml := v; loading := loading s; error := error s;
     token := token s; storage := storage s; inputUrl := inputUrl s;
     inputName := inputName s; addError := addError s;
     editingId := editingId s; editingName := editingName s |}.

Definition setLoading (v : bool) (s : State) : State :=
  {| docs := docs s; selectedId := selectedId s; selectedIdRef := selectedIdRef s;
     fetchedYaml := fetchedYaml s; loading := v; error := error s;
     token := token s; storage := storage s; inputUrl := inputUrl s;
     inputName := inputName s; addError := addError s;
     editingId := editingId s; editingName := editingName s |}.

Definition setError (v : option string) (s : State) : State :=
  {| docs := docs s; selectedId := selectedId s; selectedIdRef := selectedIdRef s;
     fetchedYaml := fetchedYaml s; loading := loading s; error := v;
     token := token s; storage := storage s; inputUrl := inputUrl s;
     inputName := inputName s; addError := addError s;
     editingId := editingId s; editingName := editingName s |}.

Definition setStorage (v : Storage.LocalStorage) (s : State) : State :=
  {| docs := docs s; selectedId := selectedId s; selectedIdRef := selectedIdRef s;
     fetchedYaml := fetchedYaml s; loading := loading s; error := error s;
     token := token s; storage := v; inputUrl := inputUrl s;
     inputName := inputName s; addError := addError s;
     editingId := editingId s; editingName := editingName s |}.

Definition setInputUrl (v : string) (s : State) : State :=
  {| docs := docs s; selectedId := selectedId s; selectedIdRef := selectedIdRef s;
     fetchedYaml := fetchedYaml s; loading := loading s; error := error s;
     token := token s; storage := storage s; inputUrl := v;
     inputName := inputName s; addError := addError s;
     editingId := editingId s; editingName := editingName s |}.

Definition setInputName (v : string) (s : State) : State :=
  {| docs := docs s; selectedId := selectedId s; selectedIdRef := selectedIdRef s;
     fetchedYaml := fetchedYaml s; loading := loading s; error := error s;
     token := token s; storage := storage s; inputUrl := inputUrl s;
     inputName := v; addError := addError s;
     editingId := editingId s; editingName := editingName s |}.

Definition setAddError (v : string) (s : State) : State :=
  {| docs := docs s; selectedId := selectedId s; selectedIdRef := selectedIdRef s;
     fetchedYaml := fetchedYaml s; loading := loading s; error := error s;
     token := token s; storage := storage s; inputUrl := inputUrl s;
     inputName := inputName s; addError := v;
     editingId := editingId s; editingName := editingName s |}.

Definition setEditingId (v : option string) (s : State) : State :=
  {| docs := docs s; selectedId := selectedId s; selectedIdRef := selectedIdRef s;
     fetchedYaml := fetchedYaml s; loading := loading s; error := error s;
     token := token s; storage := storage s; inputUrl := inputUrl s;
     inputName := inputName s; addError := addError s;
     editingId := v; editingName := editingName s |}.

Definition setEditingName (v : string) (s : State) : State :=
  {| docs := docs s; selectedId := selectedId s; selectedIdRef := selectedIdRef s;
     fetchedYaml := fetchedYaml s; loading := loading s; error := error s;
     token := token s; storage := storage s; inputUrl := inputUrl s;
     inputName := inputName s; addError := addError s;
     editingId := editingId s; editingName := v |}.

Definition setToken (v : string) (s : State) : State :=
  {| docs := docs s; selectedId := selectedId s; selectedIdRef := selectedIdRef s;
     fetchedYaml := fetchedYaml s; loading := loading s; error := error s;
     token := v; storage := storage s; inputUrl := inputUrl s;
     inputName := inputName s; addError := addError s;
     editingId := editingId s; editingName := editingName s |}.

End Hooks.

(* ===================================================================== *)
(** ** src/App.jsx *)
(* ===================================================================== *)

Module App.
Import Js Hooks.

(** The render of [App]: [selectedIdRef.current = selectedId]. *)
Definition render (s : State) : State := setSelectedIdRef (selectedId s) s.

Section WithJSON.

Variable JSON_stringify : JsValue → string.

(** [handleSetDocs(nextDocs)]: [setDocs(nextDocs); saveDocs(nextDocs)]. *)
Definition handleSetDocs (nextDocs : list DocEntry) (s : State) : State :=
  setStorage (Storage.saveDocs JSON_stringify nextDocs (storage s)) (setDocs nextDocs s).

End WithJSON.

(** [docs.find((d) => d.id === id)] *)
Definition find_doc (target : string) (l : list DocEntry) : option DocEntry :=
  List.find (λ d, String.eqb (id d) target) l.

(** [loadDoc(id)] up to its [await]: the state it leaves, and the fetch it
    starts (the normalized tuple and the token passed on), if any.
    [captured] is the [selectedId] the callback closed over. *)
Definition loadDoc_start (captured : option string) (target : string) (s : State)
  : State * option (Normalized * option string) :=
  match find_doc target (docs s) with
  | None =>
      (if bool_decide (captured = Some target)
       then setError None (setFetchedYaml None s)
       else s,
       None)
  | Some doc =>
      (setError None (setLoading true s),
       Some (normalized doc, or_undefined (trim (token s))))
  end.

(** [e instanceof Error ? e.message : 'Failed to fetch'] *)
Definition message_of (e : Thrown) : string :=
  match e with
  | ErrorObj _ m => m
  | ThrownValue _ => "Failed to fetch"
  end.

(** [selectedIdRef.current === id] *)
Definition still_selected (target : string) (s : State) : bool :=
  bool_decide (selectedIdRef s = Some target).

(** [loadDoc(id)] from the moment its fetch settles, run on the state of
    that moment: the [try] or the [catch] branch, then [finally]. *)
Definition loadDoc_settle (target : string) (outcome : Result string) (s : State)
  : State :=
  let s1 :=
    match outcome with
    | Ok text =>
        if still_selected target s then setFetchedYaml (Some text) s else s
    | Throw e =>
        if still_selected target s
        then setFetchedYaml None (setError (Some (message_of e)) s)
        else s
    end in
  if still_selected target s1 then setLoading false s1 else s1.

(** [handleRefresh(id)]: [loadDoc(id)]. *)
Definition handleRefresh := loadDoc_start.

(** [!x] for an id that may be [null]. *)
Definition no_id (x : option string) : bool :=
  match x with
  | Some (String _ _) => false
  | _ => true
  end.

(** The effect on [selectedId], [docs] and [loadDoc]: it loads the selected
    doc when there is a selection and the list is not empty, and clears the
    YAML and the error otherwise. *)
Definition selection_effect (captured : option string) (s : State)
  : State * option (Normalized * option string) :=
  match selectedId s, docs s with
  | Some (String c r), _ :: _ => loadDoc_start captured (String c r) s
  | _, _ => (setError None (setFetchedYaml None s), None)
  end.

(** [useState(() => loadToken() || ENV_TOKEN)] *)
Definition initial_token (ENV_TOKEN : string) (ls : Storage.LocalStorage) : string :=
  or_else (Some (Storage.loadToken ls)) ENV_TOKEN.

Section Mount.

Variable JSON_parse : string → option JsValue.
Variable ENV_TOKEN : string.

(** The first half of the effect that runs once, on mount:
    [setDocs(saved)], and [setSelectedId(saved[0].id)] when the list is not
    empty and nothing is selected.  [None] when a stored value is not a
    [DocEntry]. *)
Definition restore_docs (s : State) : option State :=
  saved ← mapM Storage.entry_of_value (Storage.loadDocs JSON_parse (storage s));
  let s1 := setDocs saved s in
  Some match saved with
       | d :: _ => if no_id (selectedId s) then setSelectedId (Some (id d)) s1 else s1
       | [] => s1
       end.

(** Its second half: [if (ENV_TOKEN && !loadToken())], the token of the
    environment is saved and becomes the token of the state. *)
Definition restore_token (s : State) : State :=
  match ENV_TOKEN, Storage.loadToken (storage s) with
  | String _ _, EmptyString =>
      setToken ENV_TOKEN (setStorage (Storage.saveToken ENV_TOKEN (storage s)) s)
  | _, _ => s
  end.

Definition mount_effect (s : State) : option State :=
  restore_token <$> restore_docs s.

End Mount.

(** The [onChange] of the token field: [setToken(v); saveToken(v)]. *)
Definition handleTokenChange (v : string) (s : State) : State :=
  setStorage (Storage.saveToken v (storage s)) (setToken v s).

(** *** What the main pane shows *)

Inductive Pane := LoadingPane | ErrorPane | ViewerPane | AddHint | SelectHint.

(** [x] in a condition, for a text that may be [null]. *)
Definition shown (x : option string) : bool :=
  match x with
  | Some (String _ _) => true
  | _ => false
  end.

Definition is_nil {A} (l : list A) : bool :=
  match l with
  | [] => true
  | _ :: _ => false
  end.

(** The five conditional blocks of [<main>], in their order. *)
Definition panes (s : State) : list Pane :=
  (if loading s then [LoadingPane] else [])
  ++ (if shown (error s) && negb (loading s) then [ErrorPane] else [])
  ++ (if negb (loading s) && negb (shown (error s)) && shown (fetchedYaml s)
      then [ViewerPane] else [])
  ++ (if negb (loading s) && negb (shown (error s)) && negb (shown (fetchedYaml s))
         && is_nil (docs s)
      then [AddHint] else [])
  ++ (if negb (loading s) && negb (shown (error s)) && negb (shown (fetchedYaml s))
         && negb (is_nil (docs s)) && no_id (selectedId s)
      then [SelectHint] else []).

End App.

(* ===================================================================== *)
(** ** src/components/DocList.jsx *)
(* ===================================================================== *)

Module DocList.
Import Js Hooks.

(** [displayName(doc)]:
    [doc.name?.trim() || doc.label || doc.normalized.path.split('/').pop() || doc.id] *)
Definition displayName (d : DocEntry) : string :=
  or_else (trim <$> name d)
    (or_else (label d)
       (or_else (pop (split_slash (path (normalized d)))) (id d))).

Section Handlers.

Variable newURL : string → option Whatwg.URL.
Variable JSON_stringify : JsValue → string.

(** The [setDocs] prop is [App]'s [handleSetDocs]; [onSelect] is
    [setSelectedId]. *)
Definition setDocs_prop := App.handleSetDocs JSON_stringify.
Definition saveDocs (next : list DocEntry) (s : State) : State :=
  setStorage (Storage.saveDocs JSON_stringify next (storage s)) s.
Definition onSelect := setSelectedId.

(** [docs.some((d) => d.normalized.key === key)] *)
Definition has_key (k : string) (l : list DocEntry) : bool :=
  existsb (λ d, String.eqb (key (normalized d)) k) l.

(** [handleAdd()]; [newId] is what [generateId()] returns. *)
Definition handleAdd (newId : string) (s : State) : State :=
  let s1 := setAddError EmptyString s in
  match GitHub.parseGitHubUrl newURL (JStr (inputUrl s)) with
  | None =>
      setAddError "Invalid GitHub URL. Use a blob or raw URL to a YAML file." s1
  | Some n =>
      if has_key (key n) (docs s) then
        setAddError "This doc is already in the list." s1
      else
        let newDoc :=
          {| id := newId;
             name := or_undefined (trim (inputName s));
             label := Some (or_else (pop (split_slash (path n))) "API Doc");
             githubUrl := trim (inputUrl s);
             normalized := n |} in
        let next := (docs s ++ [newDoc])%list in
        onSelect (Some (id newDoc))
          (setInputName EmptyString
             (setInputUrl EmptyString
                (saveDocs next (setDocs_prop next s1))))
  end.

(** [{ ...d, name: newName.trim() || undefined }] *)
Definition with_name (d : DocEntry) (newName : string) : DocEntry :=
  {| id := id d;
     name := or_undefined (trim newName);
     label := label d;
     githubUrl := githubUrl d;
     normalized := normalized d |}.

Definition renamed (target newName : string) (l : list DocEntry) : list DocEntry :=
  map (λ d, if String.eqb (id d) target then with_name d newName else d) l.

(** [handleRename(id, newName)] *)
Definition handleRename (target newName : string) (s : State) : State :=
  let next := renamed target newName (docs s) in
  setEditingName EmptyString
    (setEditingId None (saveDocs next (setDocs_prop next s))).

(** [docs.filter((d) => d.id !== id)] *)
Definition removed (target : string) (l : list DocEntry) : list DocEntry :=
  filter (λ d, id d ≠ target) l.

(** [next[0]?.id ?? null] *)
Definition first_id (l : list DocEntry) : option string :=
  match l with
  | d :: _ => Some (id d)
  | [] => None
  end.

(** [handleRemove(id)] *)
Definition handleRemove (target : string) (s : State) : State :=
  let next := removed target (docs s) in
  let s1 := saveDocs next (setDocs_prop next s) in
  if bool_decide (selectedId s = Some target)
  then onSelect (first_id next) s1
  else s1.

(** The Rename button: [setEditingId(doc.id); setEditingName(doc.name ?? '')]. *)
Definition startRename (d : DocEntry) (s : State) : State :=
  setEditingName (default EmptyString (name d)) (setEditingId (Some (id d)) s).

(** Cancel and Escape: [setEditingId(null); setEditingName('')]. *)
Definition cancelRename (s : State) : State :=
  setEditingName EmptyString (setEditingId None s).

End Handlers.

End DocList.

(* ===================================================================== *)
(** ** App.jsx: extractTagsFromSpec *)
(* ===================================================================== *)

(** The function reads the document [js-yaml] parsed.  The document is
    taken to be a tree: no alias makes two of its places one object. *)
Module Tags.

(** [typeof v === 'object'] for a value that is not [null]. *)
Definition is_object (v : JsValue) : bool :=
  match v with
  | JObj _ | JArr _ => true
  | _ => false
  end.

(** [Object.values(v)]: the values of the properties of an object, in the
    order the engine lists them ([JObj] holds them in that order), and
    the elements of an array.  The values of
    a text are its characters, each a text, which both loops skip: they
    are left out.  A number or a boolean has none. *)
Definition values (v : JsValue) : list JsValue :=
  match v with
  | JObj fields => map snd fields
  | JArr items => items
  | _ => []
  end.

(** SameValueZero of the values at two places of the document: texts,
    numbers and booleans are compared by value; the object or array at one
    place is not the one at another place. *)
Definition same_value (x y : JsValue) : bool :=
  match x, y with
  | JUndefined, JUndefined => true
  | JNull, JNull => true
  | JBool a, JBool b => Bool.eqb a b
  | JNum a, JNum b => Z.eqb a b
  | JStr a, JStr b => String.eqb a b
  | _, _ => false
  end.

(** [l.includes(t)], [set.has(t)]. *)
Definition includes (t : JsValue) (l : list JsValue) : bool :=
  existsb (same_value t) l.

(** [set.add(t)], and [if (!order.includes(t)) order.push(t)]. *)
Definition add (l : list JsValue) (t : JsValue) : list JsValue :=
  if includes t l then l else (l ++ [t])%list.

(** [typeof t === 'string' ? t : t?.name] *)
Definition tag_name (t : JsValue) : JsValue :=
  match t with
  | JStr _ => t
  | _ => Value.opt_prop t "name"
  end.

(** [fromTop] *)
Definition fromTop (spec : JsValue) : list JsValue :=
  match Value.opt_prop spec "tags" with
  | JArr items => List.filter Value.truthy (map tag_name items)
  | _ => []
  end.

(** [spec.paths || {}] *)
Definition paths_of (spec : JsValue) : JsValue :=
  let paths := Value.opt_prop spec "paths" in
  if Value.truthy paths then paths else JObj [].

(** What one operation adds: [op.tags], when [op] is truthy and [op.tags]
    an array. *)
Definition op_tags (op : JsValue) : list JsValue :=
  if Value.truthy op then
    match Value.opt_prop op "tags" with
    | JArr ts => ts
    | _ => []
    end
  else [].

(** What one path item adds: nothing unless it is an object. *)
Definition item_tags (ops : JsValue) : list JsValue :=
  if is_object ops then flat_map op_tags (values ops) else [].

(** The tags the two loops visit, in their order. *)
Definition visited (spec : JsValue) : list JsValue :=
  flat_map item_tags (values (paths_of spec)).

(** [fromPaths], in the order of insertion. *)
Definition fromPaths (spec : JsValue) : list JsValue :=
  fold_left add (visited spec) [].

(** [extractTagsFromSpec(spec)].  When there are no top-level tags,
    [order] is a copy of the set, which includes every element of the
    set: nothing is pushed. *)
Definition extractTagsFromSpec (spec : JsValue) : list JsValue :=
  if is_object spec then
    match fromTop spec with
    | [] => fromPaths spec
    | top => fold_left add (fromPaths spec) top
    end
  else [].

End Tags.

(* ===================================================================== *)
(** ** Vocabulary of the statements *)
(* ===================================================================== *)

Module Spec.
Import Js Http GitHub Fetching.

(** *** Requests *)

(** The endpoint a request to the repository of [n] addresses. *)
Inductive Api := ContentsApi | GitCommits | GitTrees | GitBlobs | OtherApi.

Fixpoint strip_prefix (p s : string) : option string :=
  match p, s with
  | EmptyString, _ => Some s
  | String _ _, EmptyString => None
  | String a p', String b s' => if Ascii.eqb a b then strip_prefix p' s' else None
  end.

Definition starts_with (p s : string) : bool :=
  match strip_prefix p s with
  | Some _ => true
  | None => false
  end.

Definition api_of (n : Normalized) (r : Request) : Api :=
  match strip_prefix (repo_url n) (url r) with
  | Some tail =>
      if starts_with "/contents/" tail then ContentsApi
      else if starts_with "/git/commits/" tail then GitCommits
      else if starts_with "/git/trees/" tail then GitTrees
      else if starts_with "/git/blobs/" tail then GitBlobs
      else OtherApi
  | None => OtherApi
  end.

(** The one request [fetchYamlFromGitHub] makes to the Contents API. *)
Definition contents_request (n : Normalized) (token : option string) : Request :=
  {| url := buildContentsUrl n;
     headers := make_headers "application/vnd.github.raw" token |}.

(** [m], started on any log, appends [calls] to it and ends in [res], with
    [Q calls res]. *)
Definition performs {A} (m : Fetch A) (Q : list Request → Result A → Prop) : Prop :=
  ∀ log, ∃ calls res, m log = ((log ++ calls)%list, res) ∧ Q calls res.

(** An [Error] instance that carries a message. *)
Definition has_message (e : Thrown) : Prop :=
  match e with
  | ErrorObj _ m => m ≠ EmptyString
  | ThrownValue _ => False
  end.

(** Everything the platform itself throws satisfies [G]: the engine's
    [TypeError]s, a rejected [fetch], a body that cannot be read or is not
    JSON. *)
Definition platform_errors (server : Request → FetchOutcome)
  (typeError : string → Thrown) (G : Thrown → Prop) : Prop :=
  (∀ what, G (typeError what))
  ∧ ∀ req,
      match server req with
      | Rejected e => G e
      | Responded r =>
          (∀ e, text r = Throw e → G e) ∧ (∀ e, json r = Throw e → G e)
      end.

(** What the fallback does: a non-empty start of commit, tree, blob; and
    what it throws satisfies [G]. *)
Definition fallback_post (n : Normalized) (G : Thrown → Prop)
  (calls : list Request) (res : Result string) : Prop :=
  map (api_of n) calls `prefix_of` [GitCommits; GitTrees; GitBlobs]
  ∧ calls ≠ []
  ∧ match res with
    | Ok _ => True
    | Throw e => G e
    end.

(** *** The stored list *)

(** The dedup keys of a list, in order. *)
Definition keys (l : list DocEntry) : list string :=
  map (λ d, key (normalized d)) l.

(** *** The two URL shapes of the JSDoc of [parseGitHubUrl] *)

(** [https://github.com/owner/repo/blob/branch/path] *)
Definition blob_form (o r b p : string) : string :=
  "https://github.com/" ++ o ++ "/" ++ r ++ "/blob/" ++ b ++ "/" ++ p.

(** [https://raw.githubusercontent.com/owner/repo/branch/path] *)
Definition raw_form (o r b p : string) : string :=
  "https://raw.githubusercontent.com/" ++ o ++ "/" ++ r ++ "/" ++ b ++ "/" ++ p.

(** The characters that change the shape of a URL after the host, the
    slash apart: the backslash, which the parser reads as a slash; [?] and
    [#], which end the path; tab, LF and CR, which the parser drops. *)
Definition url_separator (c : ascii) : bool :=
  is_char 92 c || is_char 63 c || is_char 35 c || Whatwg.is_tab_or_newline c.

(** A character of a path, and of a name (a path character but the slash). *)
Definition path_char (c : ascii) : bool := negb (url_separator c).

Definition name_char (c : ascii) : bool := path_char c && negb (is_slash c).

(** The path as the URL parser writes it: every character but the slash
    through the path percent-encode set. *)
Fixpoint url_encode (s : string) : string :=
  match s with
  | EmptyString => EmptyString
  | String c r =>
      (if is_slash c then String c EmptyString else Whatwg.path_encode c)
      ++ url_encode r
  end.

(** The bytes a line terminator is made of start with none of these. *)
Definition line_safe (c : ascii) : bool :=
  negb (is_char 10 c) && negb (is_char 13 c) && negb (is_char 226 c).

Definition all_chars (P : ascii → bool) (s : string) : bool :=
  forallb P (list_ascii_of_string s).

Definition not_dot_segment (s : string) : bool :=
  negb (Whatwg.is_single_dot s) && negb (Whatwg.is_double_dot s).

Definition non_empty (s : string) : bool :=
  match s with
  | EmptyString => false
  | String _ _ => true
  end.

(** The text does not end in white space or in a control character:
    neither [trim] nor the URL parser shortens it. *)
Definition ends_visible (s : string) : bool :=
  match rev (list_ascii_of_string s) with
  | c :: _ => negb (Whatwg.is_c0_or_space c)
  | [] => false
  end.

Definition clean_end (s : string) : bool :=
  String.eqb (trimEnd s) s && ends_visible s.

(** An owner, repository or branch name that stays one segment of the
    URL: non-empty, without separator or slash, and not a dot segment. *)
Definition url_name (s : string) : bool :=
  non_empty s && all_chars name_char s && not_dot_segment (url_encode s).

(** A file path that stays as it is segmented: non-empty, without
    separator, with no dot segment between its slashes, and with a clean
    end. *)
Definition url_path (p : string) : bool :=
  non_empty p && all_chars path_char p
  && forallb not_dot_segment (split_slash (url_encode p)) && clean_end p.

Definition head_is_slash (s : string) : bool :=
  match s with
  | String c _ => is_slash c
  | EmptyString => false
  end.

Definition no_slash (s : string) : bool := all_chars (λ c, negb (is_slash c)) s.

(** What the two patterns promise of their groups: three non-empty names
    without a slash, and a non-empty remainder. *)
Definition shaped (g : Groups) : Prop :=
  let '(o, r, b, p) := g in
  (non_empty o = true ∧ no_slash o = true)
  ∧ (non_empty r = true ∧ no_slash r = true)
  ∧ (non_empty b = true ∧ no_slash b = true)
  ∧ non_empty p = true.

(** What follows the host in a URL built from such names. *)
Definition url_tail (t : string) : Prop :=
  non_empty t = true ∧ all_chars path_char t = true
  ∧ forallb not_dot_segment (split_slash (url_encode t)) = true
  ∧ clean_end t = true.

(** *** The end of a URL, as the constructor reads it *)

(** An owner or repository name that stays one segment of the URL: a
    [url_name] once the constructor has dropped its tabs and line
    breaks. *)
Definition plain_name (x : string) : bool :=
  url_name (Whatwg.remove_tab_newline x).

(** The end of a URL as the path state gets it: [trim] has taken the
    white space off it, and the constructor the C0 controls and spaces. *)
Definition drop_end (t : string) : string :=
  string_of_list_ascii
    (rev (Whatwg.drop_c0_space (rev (list_ascii_of_string (trimEnd t))))).

(** [close_segment] on a text that follows a directory: [None] when a
    double-dot segment finds no segment of the text to remove, and would
    remove one of the directory. *)
Definition step_below (slash_follows : bool) (path : list string) (buf : string)
  : option (list string) :=
  match path with
  | [] =>
      if Whatwg.is_double_dot buf then None
      else Some (Whatwg.close_segment slash_follows path buf)
  | _ :: _ => Some (Whatwg.close_segment slash_follows path buf)
  end.

(** The path state on a text that follows a directory. *)
Fixpoint read_below (path : list string) (buf input : string)
  : option (list string) :=
  match input with
  | EmptyString => step_below false path buf
  | String c rest =>
      if is_slash c || is_char 92 c then
        path' ← step_below true path buf; read_below path' EmptyString rest
      else if is_char 63 c || is_char 35 c then step_below false path buf
      else read_below path (buf ++ Whatwg.path_encode c) rest
  end.

(** The segments the URL constructor leaves of the end of a URL, the first
    one first: tabs and line breaks are dropped, a backslash is read as a
    slash, the text ends at [?] or [#], a single-dot segment is dropped and
    a double-dot segment drops the segment before it.  [None] when a
    double-dot segment has no segment of the text before it. *)
Definition remainder (t : string) : option (list string) :=
  match read_below [] EmptyString (Whatwg.remove_tab_newline (drop_end t)) with
  | Some path => Some (rev path)
  | None => None
  end.

(** A non-empty first segment, and segments after it that are not one
    empty segment alone: a branch and the path of a file. *)
Definition names_a_file (segs : list string) : bool :=
  match segs with
  | b :: f :: rest => non_empty b && non_empty (join_slash (f :: rest))
  | _ => false
  end.

(** A segment the path state wrote: no slash in it, and no byte that
    starts a line terminator. *)
Definition seg_ok (s : string) : Prop :=
  no_slash s = true ∧ all_chars line_safe s = true.

(** The last two groups of either pattern, read from the text after the
    first two. *)
Definition last_groups (o r : string) (t : string) : option Groups :=
  '(b, s) ← segment t; p ← dot_plus_end s; Some (o, r, b, p).

(** *** Requests, one by one *)

(** The [Authorization] header of a run with [token]. *)
Definition expected_authorization (token : option string) : option string :=
  match token with
  | Some (String c r) => Some ("Bearer " ++ String c r)
  | _ => None
  end.

(** A request addressed to the repository of [n] at the API, with the
    token of the run and one of the two media types. *)
Definition well_addressed (n : Normalized) (token : option string) (r : Request) : Prop :=
  starts_with (repo_url n) (url r) = true
  ∧ Authorization (headers r) = expected_authorization token
  ∧ (Accept (headers r) = "application/vnd.github.raw"
     ∨ Accept (headers r) = "application/vnd.github.v3+json").

(** The three requests of the fallback, for SHAs that are texts. *)
Definition commit_request (n : Normalized) (sha : string) (token : option string)
  : Request :=
  {| url := commit_url n sha;
     headers := make_headers "application/vnd.github.v3+json" token |}.

Definition tree_request (n : Normalized) (treeSha : string) (token : option string)
  : Request :=
  {| url := tree_url n (JStr treeSha);
     headers := make_headers "application/vnd.github.v3+json" token |}.

Definition blob_request (n : Normalized) (blobSha : string) (token : option string)
  : Request :=
  {| url := blob_url n (JStr blobSha);
     headers := make_headers "application/vnd.github.raw" token |}.

(** The commit object names its tree by a SHA. *)
Definition names_tree (commit : JsValue) (treeSha : string) : Prop :=
  (∃ fields, commit = JObj fields)
  ∧ Value.opt_prop (Value.opt_prop commit "tree") "sha" = JStr treeSha
  ∧ treeSha ≠ EmptyString.

(** The tree object is complete and the first of its entries that is a
    blob at [p] has the SHA [blobSha]; the entries before it are objects
    that are no blob at [p]. *)
Definition lists_blob (tree : JsValue) (p blobSha : string) : Prop :=
  ∃ fields before entry after,
    tree = JObj fields
    ∧ Value.truthy (Value.assoc "truncated" fields) = false
    ∧ Value.assoc "tree" fields = JArr (before ++ entry :: after)
    ∧ Forall (λ e, is_blob_at p e = Some false) before
    ∧ is_blob_at p entry = Some true
    ∧ Value.opt_prop entry "sha" = JStr blobSha
    ∧ blobSha ≠ EmptyString.

(** The error of a 403 that is no rate limit. *)
Definition access_denied (token : option string) : Thrown :=
  Error (if has_token token
         then "Access denied (403). Ensure your token has the " ++ dquote ++ "repo"
                ++ dquote ++ " scope."
         else "Access denied. Add a GitHub token in Settings.").

(** *** Texts *)

(** White space at the head of a text, as [trimStart] looks for it. *)
Definition head_ws (s : string) : bool :=
  match s with
  | EmptyString => false
  | String c1 r1 =>
      is_ws1 c1
      || match r1 with
         | EmptyString => false
         | String c2 r2 =>
             is_ws2 c1 c2
             || match r2 with
                | EmptyString => false
                | String c3 _ => is_ws3 c1 c2 c3
                end
         end
  end.

Definition is_digit (c : ascii) : bool := in_range 48 57 c.

Definition no_char (n : nat) (s : string) : bool :=
  all_chars (λ c, negb (is_char n c)) s.

(** No two slashes in a row. *)
Fixpoint no_double_slash (s : string) : bool :=
  match s with
  | EmptyString => true
  | String c r => negb (is_slash c && head_is_slash r) && no_double_slash r
  end.

(** [?] or [#]: what ends the path of a URL. *)
Definition ends_path (c : ascii) : bool := is_char 63 c || is_char 35 c.

(** The origins the pattern for blob URLs accepts, and those the pattern
    for raw URLs accepts. *)
Definition blob_origins : list string :=
  ["https://github.com"; "http://github.com";
   "https://www.github.com"; "http://www.github.com"].

Definition raw_origins : list string :=
  ["https://raw.githubusercontent.com"; "http://raw.githubusercontent.com"].

(** *** Percent-encoding *)

(** One character as [encodeURIComponent] writes it. *)
Definition encode_char (c : ascii) : string :=
  if uri_unreserved c then String c EmptyString else percent_byte c.

(** A path with every character but the slash encoded. *)
Fixpoint encode_keeping_slash (s : string) : string :=
  match s with
  | EmptyString => EmptyString
  | String c r =>
      (if is_slash c then String c EmptyString else encode_char c)
      ++ encode_keeping_slash r
  end.

(** The value of a hexadecimal digit. *)
Definition hex_value (c : ascii) : nat :=
  if in_range 48 57 c then code c - 48
  else if in_range 65 70 c then code c - 55
  else code c - 87.

(** The inverse of [encodeURIComponent] on what it writes: [%XX] is read
    as one byte, any other character as itself. *)
Fixpoint decode_percent (s : string) : string :=
  match s with
  | EmptyString => EmptyString
  | String a r =>
      if is_char 37 a then
        match r with
        | String x (String y r') =>
            String (ascii_of_nat (16 * hex_value x + hex_value y)) (decode_percent r')
        | _ => String a (decode_percent r)
        end
      else String a (decode_percent r)
  end.

Definition unreserved_or_slash (c : ascii) : bool := uri_unreserved c || is_slash c.

(** A character the URL constructor copies into a path as it is. *)
Definition copied (c : ascii) : bool :=
  is_slash c || negb (Whatwg.in_path_percent_encode_set c).

(** *** The list and the storage *)

Definition ids (l : list DocEntry) : list string := map (λ d, id d) l.

(** Storage that can be read and written. *)
Definition writable (ls : Storage.LocalStorage) : Prop :=
  Storage.denied ls = false ∧ Storage.full ls = false.

(** The browser accepts the write of the list [l]: [setItem] does not
    throw. *)
Definition accepts (JSON_stringify : JsValue → string) (ls : Storage.LocalStorage)
  (l : list DocEntry) : Prop :=
  is_Some (Storage.setItem ls Storage.STORAGE_KEY
             (JSON_stringify (JArr (map Storage.doc_value l)))).

(** The stored list is the list of the state. *)
Definition in_sync (JSON_stringify : JsValue → string) (s : State) : Prop :=
  Storage.items (storage s) !! Storage.STORAGE_KEY
  = Some (JSON_stringify (JArr (map Storage.doc_value (docs s)))).

(** An entry's name is absent or a trimmed, non-empty text. *)
Definition well_named (d : DocEntry) : Prop :=
  match name d with
  | None => True
  | Some x => trim x = x ∧ x ≠ EmptyString
  end.

(** The properties [JSON.stringify] writes: those whose value is not
    [undefined]. *)
Definition defined_fields (fields : list (string * JsValue)) : list (string * JsValue) :=
  List.filter (λ kv, match snd kv with JUndefined => false | _ => true end) fields.

(** An entry as [JSON.parse] returns it from the text [JSON.stringify]
    wrote of it. *)
Definition stored_value (d : DocEntry) : JsValue :=
  match Storage.doc_value d with
  | JObj fields => JObj (defined_fields fields)
  | v => v
  end.

(** *** Tags *)

(** No two elements of the list are the same value. *)
Fixpoint distinct (l : list JsValue) : bool :=
  match l with
  | [] => true
  | x :: r => negb (Tags.includes x r) && distinct r
  end.

End Spec.

(** *** Sample data, for running the statements *)

Module Sample.
Import Http.

Definition normalized0 : Normalized :=
  {| owner := "octo"; repo := "specs"; branch := "main"; path := "api.yaml";
     key := "octo/specs/main/api.yaml" |}.

Definition doc0 : DocEntry :=
  {| id := "doc-1"; name := None; label := Some "api.yaml";
     githubUrl := "https://github.com/octo/specs/blob/main/api.yaml";
     normalized := normalized0 |}.

Definition storage0 : Storage.LocalStorage :=
  {| Storage.items := {[ Storage.STORAGE_KEY := "[]" ]};
     Storage.denied := false; Storage.full := false |}.

(** One stored doc, selected, and its raw URL typed into the form. *)
Definition state0 : State :=
  {| docs := [doc0]; selectedId := Some "doc-1"; selectedIdRef := Some "doc-1";
     fetchedYaml := None; loading := false; error := None;
     token := EmptyString; storage := storage0;
     inputUrl := "https://raw.githubusercontent.com/octo/specs/main/api.yaml";
     inputName := EmptyString; addError := EmptyString;
     editingId := None; editingName := EmptyString |}.

(** A parser that knows the empty array only. *)
Definition parse0 (s : string) : option JsValue :=
  if String.eqb s "[]" then Some (JArr []) else None.

(** A serializer that writes every list as the empty array. *)
Definition stringify0 (v : JsValue) : string := "[]".

(** A server that answers every request with a rate-limit refusal. *)
Definition rate_limited : Response :=
  {| status := 403; statusText := "Forbidden";
     text := Ok "{}";
     json := Ok (JObj [("message", JStr "API rate limit exceeded for 203.0.113.7.")]) |}.

Definition server0 (req : Request) : FetchOutcome := Responded rate_limited.

Definition typeError0 (what : string) : Thrown :=
  ErrorObj "TypeError" ("Cannot read " ++ what).

(** A commit SHA, and the doc of [doc0] pinned to it. *)
Definition sha0 : string := "0123456789abcdef0123456789abcdef01234567".

Definition pinned : Normalized :=
  {| owner := "octo"; repo := "specs"; branch := sha0; path := "api.yaml";
     key := "octo/specs/0123456789abcdef0123456789abcdef01234567/api.yaml" |}.

Definition answer (st : N) (body : string) (parsed : Result JsValue) : Response :=
  {| status := st; statusText := EmptyString; text := Ok body; json := parsed |}.

Definition not_json : Result JsValue :=
  Throw (ErrorObj "SyntaxError" "Unexpected token").

Definition not_found : Response := answer 404 "Not Found" not_json.

Definition commit0 : JsValue := JObj [("tree", JObj [("sha", JStr "7ee")])].

Definition readme_entry : JsValue :=
  JObj [("path", JStr "README.md"); ("type", JStr "blob"); ("sha", JStr "b0")].

Definition api_entry : JsValue :=
  JObj [("path", JStr "api.yaml"); ("type", JStr "blob"); ("sha", JStr "b1")].

Definition entries0 : list JsValue := [readme_entry; api_entry].

Definition tree0 : JsValue :=
  JObj [("truncated", JBool false); ("tree", JArr entries0)].

(** The Git Data API of a repository whose Contents API does not know the
    SHA: commit, tree and blob are served, everything else is not found. *)
Definition git_server (req : Request) : FetchOutcome :=
  if String.eqb (url req) (GitHub.commit_url pinned sha0) then
    Responded (answer 200 "{}" (Ok commit0))
  else if String.eqb (url req) (GitHub.tree_url pinned (JStr "7ee")) then
    Responded (answer 200 "{}" (Ok tree0))
  else if String.eqb (url req) (GitHub.blob_url pinned (JStr "b1")) then
    Responded (answer 200 "openapi: 3.0.0" not_json)
  else Responded not_found.

(** A server that knows the commit and nothing else. *)
Definition orphan_server (req : Request) : FetchOutcome :=
  if String.eqb (url req) (GitHub.commit_url pinned sha0) then
    Responded (answer 200 "{}" (Ok commit0))
  else Responded not_found.

(** A server that refuses with a page that is no JSON. *)
Definition forbidden : Response := answer 403 "Forbidden" not_json.

Definition gateway (req : Request) : FetchOutcome := Responded forbidden.

(** A second doc, and a state with both, the first selected and loading. *)
Definition doc1 : DocEntry :=
  {| id := "doc-2"; name := Some "Pets"; label := Some "pets.yaml";
     githubUrl := "https://github.com/octo/specs/blob/main/pets.yaml";
     normalized := {| owner := "octo"; repo := "specs"; branch := "main";
                      path := "pets.yaml"; key := "octo/specs/main/pets.yaml" |} |}.

Definition state1 : State :=
  {| docs := [doc0; doc1]; selectedId := Some "doc-1"; selectedIdRef := Some "doc-1";
     fetchedYaml := None; loading := true; error := None;
     token := EmptyString; storage := storage0;
     inputUrl := "https://github.com/octo/specs/blob/main/store.yaml";
     inputName := " Store "; addError := EmptyString;
     editingId := None; editingName := EmptyString |}.

(** A serializer and a parser that know the list of [doc0] only. *)
Definition text0 : string := "[doc0]".

Definition stringify1 (v : JsValue) : string := text0.

Definition parse1 (s : string) : option JsValue :=
  if String.eqb s text0 then Some (JArr [Spec.stored_value doc0]) else None.

End Sample.

(* ===================================================================== *)
(** * Properties *)
(* ===================================================================== *)

#[local] Arguments String.append !_ _ / : simpl nomatch.

(** ** Strings and characters *)

Module StringFacts.
Import Js Spec.

Lemma append_assoc (a b c : string) : (a ++ b) ++ c = a ++ (b ++ c).
Proof. induction a as [|x a IH]; simpl; [done|]. by rewrite IH. Qed.

Lemma append_nil_r (a : string) : a ++ EmptyString = a.
Proof. induction a as [|x a IH]; simpl; [done|]. by rewrite IH. Qed.

Lemma list_of_append (a b : string) :
  list_ascii_of_string (a ++ b)
  = (list_ascii_of_string a ++ list_ascii_of_string b)%list.
Proof. induction a as [|x a IH]; simpl; [done|]. by rewrite IH. Qed.

Lemma all_chars_append P a b :
  all_chars P (a ++ b) = all_chars P a && all_chars P b.
Proof. unfold all_chars. by rewrite list_of_append, forallb_app. Qed.

Lemma all_chars_cons P c s : all_chars P (String c s) = P c && all_chars P s.
Proof. reflexivity. Qed.

Lemma all_chars_weaken (P Q : ascii → bool) s :
  (∀ c, P c = true → Q c = true) → all_chars P s = true → all_chars Q s = true.
Proof.
  intros HPQ. induction s as [|c s IH]; [done|]. rewrite !all_chars_cons.
  intros [Hc Hs]%andb_true_iff. by rewrite (HPQ c Hc), (IH Hs).
Qed.

Lemma is_slash_eq c : is_slash c = true → c = slash.
Proof.
  unfold is_slash, is_char, code. intros H%Nat.eqb_eq.
  rewrite <- (ascii_nat_embedding c). by rewrite H.
Qed.

Lemma strip_prefix_app p x : strip_prefix p (p ++ x) = Some x.
Proof. induction p as [|a p IH]; simpl; [done|]. by rewrite Ascii.eqb_refl. Qed.

(** The last character of a non-empty string satisfies what all of them do. *)
Lemma last_char s :
  non_empty s = true →
  ∃ l c, list_ascii_of_string s = (l ++ [c])%list
         ∧ ∀ P, all_chars P s = true → P c = true.
Proof.
  induction s as [|x s IH]; [done|]. intros _. destruct s as [|y s].
  - exists [], x. split; [done|]. intros P. rewrite all_chars_cons.
    by intros [? _]%andb_true_iff.
  - destruct IH as (l & c & Hl & Hc); [done|]. exists (x :: l), c. split.
    + simpl in *. by rewrite Hl.
    + intros P. rewrite all_chars_cons. intros [_ ?]%andb_true_iff. by apply Hc.
Qed.

(** A scan from the end that stops at once gives the list back. *)
Lemma rev_drop_last {A} (f : list A → list A) (l : list A) (c : A) :
  (∀ r, f (c :: r) = c :: r) → rev (f (rev (l ++ [c])%list)) = (l ++ [c])%list.
Proof.
  intros Hf. rewrite rev_app_distr. simpl. rewrite Hf.
  change (c :: rev l) with (rev [c] ++ rev l)%list.
  by rewrite <- rev_app_distr, rev_involutive.
Qed.

Lemma list_of_string_inj a b :
  list_ascii_of_string a = list_ascii_of_string b → a = b.
Proof.
  intros H. by rewrite <- (string_of_list_ascii_of_string a), H,
    string_of_list_ascii_of_string.
Qed.

Lemma non_empty_append_l a b : non_empty a = true → non_empty (a ++ b) = true.
Proof. by destruct a. Qed.

Lemma no_slash_cons c s : no_slash (String c s) = negb (is_slash c) && no_slash s.
Proof. reflexivity. Qed.

Lemma no_slash_append a b : no_slash (a ++ b) = no_slash a && no_slash b.
Proof. apply all_chars_append. Qed.

(** A property of every character, checked on the 256 of them. *)
Lemma all_ascii (P : ascii → bool) :
  forallb (λ n, P (ascii_of_nat n)) (seq 0 256) = true → ∀ c, P c = true.
Proof.
  intros H c. rewrite forallb_forall in H.
  rewrite <- (ascii_nat_embedding c). apply H, in_seq.
  pose proof (nat_ascii_bounded c). lia.
Qed.

End StringFacts.

(** ** parseGitHubUrl *)

Module UrlFacts.
Import Js GitHub Spec StringFacts.

(** *** Facts about one character, checked on all of them *)

Lemma path_encode_facts c :
  is_slash c = false →
  non_empty (Whatwg.path_encode c) = true
  ∧ no_slash (Whatwg.path_encode c) = true
  ∧ all_chars line_safe (Whatwg.path_encode c) = true.
Proof.
  intros H.
  assert (implb (negb (is_slash c))
            (non_empty (Whatwg.path_encode c) && no_slash (Whatwg.path_encode c)
             && all_chars line_safe (Whatwg.path_encode c)) = true) as Hall.
  { revert c H. intros c _. revert c. apply all_ascii. vm_compute. reflexivity. }
  rewrite H in Hall. simpl in Hall.
  by apply andb_true_iff in Hall as [[? ?]%andb_true_iff ?].
Qed.

Lemma path_char_facts c :
  path_char c = true →
  Whatwg.is_tab_or_newline c = false
  ∧ is_char 92 c = false ∧ is_char 63 c = false ∧ is_char 35 c = false.
Proof.
  unfold path_char, url_separator. intros H%negb_true_iff.
  apply orb_false_iff in H as [H ?]. apply orb_false_iff in H as [H ?].
  by apply orb_false_iff in H as [? ?].
Qed.

(** *** The percent-encoded form *)

Lemma url_encode_append a b : url_encode (a ++ b) = url_encode a ++ url_encode b.
Proof. induction a as [|c a IH]; simpl; [done|]. by rewrite IH, append_assoc. Qed.

Lemma url_encode_slash r : url_encode (String slash r) = String slash (url_encode r).
Proof. reflexivity. Qed.

Lemma url_encode_non_empty s : non_empty s = true → non_empty (url_encode s) = true.
Proof.
  destruct s as [|c s]; [done|]. intros _. simpl. apply non_empty_append_l.
  destruct (is_slash c) eqn:E; [done|]. by apply path_encode_facts.
Qed.

Lemma url_encode_line_safe s : all_chars line_safe (url_encode s) = true.
Proof.
  induction s as [|c s IH]; [done|]. simpl. rewrite all_chars_append, IH, andb_true_r.
  destruct (is_slash c) eqn:E; [|by apply path_encode_facts].
  apply is_slash_eq in E as ->. reflexivity.
Qed.

Lemma url_encode_no_slash s :
  all_chars name_char s = true → no_slash (url_encode s) = true.
Proof.
  induction s as [|c s IH]; [done|]. rewrite all_chars_cons.
  intros [[_ Hc%negb_true_iff]%andb_true_iff Hs]%andb_true_iff.
  simpl. rewrite Hc, no_slash_append, (IH Hs), andb_true_r. by apply path_encode_facts.
Qed.

Lemma no_line_terminator s :
  all_chars line_safe s = true → has_line_terminator s = false.
Proof.
  induction s as [|c s IH]; [done|]. rewrite all_chars_cons.
  intros [Hc Hs]%andb_true_iff. simpl. rewrite (IH Hs).
  unfold line_safe in Hc.
  apply andb_true_iff in Hc as [[->%negb_true_iff ->%negb_true_iff]%andb_true_iff
                                  ->%negb_true_iff].
  simpl. by destruct s as [|? [|? ?]].
Qed.

(** *** Splitting at slashes *)

Lemma split_slash_nonempty s : split_slash s ≠ [].
Proof.
  destruct s as [|c s]; simpl; [done|].
  destruct (is_slash c); [done|]. by destruct (split_slash s).
Qed.

Lemma split_slash_prepend a s :
  no_slash a = true →
  split_slash (a ++ s)
  = match split_slash s with
    | seg :: rest => (a ++ seg) :: rest
    | [] => [a]
    end.
Proof.
  pose proof (split_slash_nonempty s) as Hne.
  induction a as [|c a IH]; simpl.
  - intros _. by destruct (split_slash s).
  - rewrite no_slash_cons. intros [Hc%negb_true_iff Ha]%andb_true_iff.
    rewrite Hc, (IH Ha). by destruct (split_slash s).
Qed.

Lemma split_slash_name a s :
  no_slash a = true → split_slash (a ++ String slash s) = a :: split_slash s.
Proof.
  intros Ha. rewrite split_slash_prepend by done. simpl. by rewrite append_nil_r.
Qed.

(** *** The path state writes the percent-encoded form *)

Lemma close_segment_kept sf path buf :
  not_dot_segment buf = true → Whatwg.close_segment sf path buf = buf :: path.
Proof.
  unfold not_dot_segment, Whatwg.close_segment.
  intros [H1%negb_true_iff H2%negb_true_iff]%andb_true_iff. by rewrite H1, H2.
Qed.

Lemma path_state_encodes input : ∀ path buf,
  all_chars path_char input = true →
  match split_slash (url_encode input) with
  | seg :: rest => not_dot_segment (buf ++ seg) && forallb not_dot_segment rest
  | [] => false
  end = true →
  Whatwg.serialize (Whatwg.path_state path buf input)
  = Whatwg.serialize path ++ String slash (buf ++ url_encode input).
Proof.
  induction input as [|c input IH]; intros path buf Hall Hseg.
  - simpl in *. rewrite append_nil_r in *. rewrite andb_true_r in Hseg.
    by rewrite close_segment_kept.
  - rewrite all_chars_cons in Hall. apply andb_true_iff in Hall as [Hc Hall].
    pose proof (path_char_facts c Hc) as (_ & Hbs & Hq & Hh).
    cbn [Whatwg.path_state]. rewrite Hbs, Hq, Hh, orb_false_r. cbn [orb].
    cbn [url_encode] in Hseg |- *.
    destruct (is_slash c) eqn:Hsl.
    + apply is_slash_eq in Hsl as ->. simpl in Hseg. rewrite append_nil_r in Hseg.
      apply andb_true_iff in Hseg as [Hbuf Hrest].
      rewrite close_segment_kept by done. rewrite IH; [|done|].
      * simpl. by rewrite append_assoc.
      * destruct (split_slash (url_encode input)) as [|seg rest] eqn:Hsp;
          [by apply split_slash_nonempty in Hsp|].
        done.
    + pose proof (path_encode_facts c Hsl) as (_ & Hns & _).
      rewrite split_slash_prepend in Hseg by done.
      destruct (split_slash (url_encode input)) as [|seg rest] eqn:Hsp;
        [by apply split_slash_nonempty in Hsp|].
      rewrite IH; [|done|].
      * by rewrite append_assoc.
      * by rewrite append_assoc.
Qed.

(** *** [trim] and the preparation leave the URL alone *)

Lemma drop_ws_rev_cons c1 r1 :
  drop_ws_rev (c1 :: r1)
  = if is_ws1 c1 then drop_ws_rev r1
    else match r1 with
         | [] => c1 :: r1
         | c2 :: r2 =>
             if is_ws2 c2 c1 then drop_ws_rev r2
             else match r2 with
                  | [] => c1 :: r1
                  | c3 :: r3 => if is_ws3 c3 c2 c1 then drop_ws_rev r3 else c1 :: r1
                  end
         end.
Proof. reflexivity. Qed.

Lemma drop_ws_rev_length l : (length (drop_ws_rev l) ≤ length l)%nat.
Proof.
  assert (∀ n l, (length l ≤ n)%nat → (length (drop_ws_rev l) ≤ length l)%nat) as H;
    [|by apply (H (length l))].
  clear l. induction n as [|n IH]; intros l Hn.
  { destruct l; simpl in *; lia. }
  destruct l as [|c1 r1]; [simpl; lia|]. rewrite drop_ws_rev_cons.
  cbn [length] in *.
  destruct (is_ws1 c1); [specialize (IH r1); lia|].
  destruct r1 as [|c2 r2]; [simpl; lia|]. cbn [length] in *.
  destruct (is_ws2 c2 c1); [specialize (IH r2); lia|].
  destruct r2 as [|c3 r3]; [simpl; lia|]. cbn [length] in *.
  destruct (is_ws3 c3 c2 c1); [specialize (IH r3); lia|simpl; lia].
Qed.

Lemma is_ws2_slash c : is_ws2 slash c = false.
Proof. reflexivity. Qed.

Lemma is_ws3_slash_first c2 c1 : is_ws3 slash c2 c1 = false.
Proof. reflexivity. Qed.

Lemma is_ws3_slash_middle c3 c1 : is_ws3 c3 slash c1 = false.
Proof.
  unfold is_ws3. change (is_char 154 slash) with false. change (is_char 128 slash) with false.
  change (is_char 129 slash) with false. change (is_char 187 slash) with false.
  by rewrite !andb_false_r.
Qed.

(** A list the scan from the end leaves alone is left alone with a slash
    and anything else before it. *)
Lemma drop_ws_rev_stable l t :
  l ≠ [] → drop_ws_rev l = l → drop_ws_rev (l ++ slash :: t) = (l ++ slash :: t)%list.
Proof.
  intros Hne Hl. destruct l as [|c1 r1]; [done|]. clear Hne.
  rewrite <- app_comm_cons, drop_ws_rev_cons. rewrite drop_ws_rev_cons in Hl.
  destruct (is_ws1 c1) eqn:E1.
  { pose proof (drop_ws_rev_length r1) as Hlen. rewrite Hl in Hlen. simpl in Hlen. lia. }
  destruct r1 as [|c2 r2]; cbn [app].
  { rewrite is_ws2_slash. destruct t; [done|]. by rewrite is_ws3_slash_middle. }
  destruct (is_ws2 c2 c1) eqn:E2.
  { pose proof (drop_ws_rev_length r2) as Hlen. rewrite Hl in Hlen. simpl in Hlen. lia. }
  destruct r2 as [|c3 r3]; cbn [app].
  { by rewrite is_ws3_slash_first. }
  destruct (is_ws3 c3 c2 c1) eqn:E3; [|done].
  pose proof (drop_ws_rev_length r3) as Hlen. rewrite Hl in Hlen. simpl in Hlen. lia.
Qed.

Lemma clean_end_facts t :
  non_empty t = true → clean_end t = true →
  ∃ l c, list_ascii_of_string t = (l ++ [c])%list
         ∧ Whatwg.is_c0_or_space c = false
         ∧ drop_ws_rev (rev (list_ascii_of_string t)) = rev (list_ascii_of_string t).
Proof.
  intros Hne [Ht Hv]%andb_true_iff. apply String.eqb_eq in Ht.
  destruct (last_char t Hne) as (l & c & Hl & _). exists l, c. split; [done|]. split.
  - unfold ends_visible in Hv. rewrite Hl, rev_app_distr in Hv. simpl in Hv.
    by apply negb_true_iff.
  - unfold trimEnd in Ht. apply (f_equal list_ascii_of_string) in Ht.
    rewrite list_ascii_of_string_of_list_ascii in Ht.
    apply (f_equal (@rev ascii)) in Ht. by rewrite rev_involutive in Ht.
Qed.

Lemma rev_list_of_slash q t :
  rev (list_ascii_of_string (q ++ String slash t))
  = (rev (list_ascii_of_string t) ++ slash :: rev (list_ascii_of_string q))%list.
Proof.
  rewrite list_of_append. cbn [list_ascii_of_string].
  rewrite rev_app_distr. cbn [rev]. by rewrite <- app_assoc.
Qed.

Lemma trimEnd_slash q t :
  non_empty t = true → clean_end t = true →
  trimEnd (q ++ String slash t) = q ++ String slash t.
Proof.
  intros Hne Hc. destruct (clean_end_facts t Hne Hc) as (l & c & Hl & _ & Hd).
  unfold trimEnd. rewrite rev_list_of_slash.
  rewrite drop_ws_rev_stable; [|rewrite Hl, rev_app_distr; done|done].
  by rewrite <- rev_list_of_slash, rev_involutive, string_of_list_ascii_of_string.
Qed.

Lemma clean_end_slash q t :
  non_empty t = true → clean_end t = true → clean_end (q ++ String slash t) = true.
Proof.
  intros Hne Hc. apply andb_true_iff. split.
  - apply String.eqb_eq. by apply trimEnd_slash.
  - destruct (clean_end_facts t Hne Hc) as (l & c & Hl & Hv & _).
    unfold ends_visible. rewrite rev_list_of_slash, Hl, rev_app_distr. simpl.
    by rewrite Hv.
Qed.

Lemma strip_c0_space_id t c pre :
  non_empty t = true → clean_end t = true →
  Whatwg.is_c0_or_space c = false →
  Whatwg.strip_c0_space (String c (pre ++ t)) = String c (pre ++ t).
Proof.
  intros Hne Hc Hc0. destruct (clean_end_facts t Hne Hc) as (l & c' & Hl & Hsp & _).
  unfold Whatwg.strip_c0_space. simpl. rewrite Hc0.
  rewrite list_of_append, Hl, app_assoc, app_comm_cons.
  rewrite rev_drop_last.
  - rewrite <- app_comm_cons, <- app_assoc, <- Hl, <- list_of_append. simpl.
    by rewrite string_of_list_ascii_of_string.
  - intros r. simpl. by rewrite Hsp.
Qed.

Lemma remove_tab_newline_append a b :
  Whatwg.remove_tab_newline (a ++ b)
  = Whatwg.remove_tab_newline a ++ Whatwg.remove_tab_newline b.
Proof.
  induction a as [|x a IH]; simpl; [done|].
  destruct (Whatwg.is_tab_or_newline x); simpl; by rewrite IH.
Qed.

Lemma remove_tab_newline_id s :
  all_chars path_char s = true → Whatwg.remove_tab_newline s = s.
Proof.
  induction s as [|x s IH]; [done|]. rewrite all_chars_cons.
  intros [Hx Hs]%andb_true_iff. simpl.
  apply path_char_facts in Hx as (-> & _). by rewrite IH.
Qed.

(** *** What follows the host *)

Lemma name_is_path_char c : name_char c = true → path_char c = true.
Proof. unfold name_char. by intros [? _]%andb_true_iff. Qed.

Lemma url_tail_path p : url_path p = true → url_tail p.
Proof.
  unfold url_path. intros [[[? ?]%andb_true_iff ?]%andb_true_iff ?]%andb_true_iff.
  by repeat split.
Qed.

Lemma url_tail_name s t :
  url_name s = true → url_tail t → url_tail (s ++ String slash t).
Proof.
  unfold url_name.
  intros [[Hne Hall]%andb_true_iff Hdot]%andb_true_iff (Hnt & Hat & Hdt & Hct).
  repeat split.
  - by apply non_empty_append_l.
  - rewrite all_chars_append, all_chars_cons, Hat.
    by rewrite (all_chars_weaken name_char path_char s name_is_path_char Hall).
  - rewrite url_encode_append, url_encode_slash.
    rewrite split_slash_name by (by apply url_encode_no_slash).
    simpl. by rewrite Hdot, Hdt.
  - by apply clean_end_slash.
Qed.

Lemma pathname_encodes t :
  url_tail t →
  Whatwg.serialize (Whatwg.path_state [] EmptyString t) = String slash (url_encode t).
Proof.
  intros (_ & Hall & Hdots & _). rewrite path_state_encodes; [done|done|].
  destruct (split_slash (url_encode t)) as [|seg rest] eqn:Hsp;
    [by apply split_slash_nonempty in Hsp|].
  done.
Qed.

Lemma trim_github t :
  url_tail t → trim ("https://github.com/" ++ t) = "https://github.com/" ++ t.
Proof.
  intros (Hne & _ & _ & Hc). unfold trim.
  change (trimStart ("https://github.com/" ++ t)) with ("https://github.com" ++ String slash t).
  by apply trimEnd_slash.
Qed.

Lemma trim_raw t :
  url_tail t →
  trim ("https://raw.githubusercontent.com/" ++ t)
  = "https://raw.githubusercontent.com/" ++ t.
Proof.
  intros (Hne & _ & _ & Hc). unfold trim.
  change (trimStart ("https://raw.githubusercontent.com/" ++ t))
    with ("https://raw.githubusercontent.com" ++ String slash t).
  by apply trimEnd_slash.
Qed.

Lemma newURL_github t :
  url_tail t →
  Whatwg.newURL ("https://github.com/" ++ t)
  = Some {| Whatwg.origin := "https://github.com";
            Whatwg.pathname := String slash (url_encode t) |}.
Proof.
  intros Ht. pose proof Ht as (Hne & Hall & _ & Hc). unfold Whatwg.newURL.
  change ("https://github.com/" ++ t) with (String "h" ("ttps://github.com/" ++ t)).
  rewrite strip_c0_space_id by done.
  change (String "h" ("ttps://github.com/" ++ t)) with ("https://github.com/" ++ t).
  rewrite remove_tab_newline_append, (remove_tab_newline_id t) by done.
  change (Whatwg.remove_tab_newline "https://github.com/") with "https://github.com/".
  simpl. by rewrite pathname_encodes.
Qed.

Lemma newURL_raw t :
  url_tail t →
  Whatwg.newURL ("https://raw.githubusercontent.com/" ++ t)
  = Some {| Whatwg.origin := "https://raw.githubusercontent.com";
            Whatwg.pathname := String slash (url_encode t) |}.
Proof.
  intros Ht. pose proof Ht as (Hne & Hall & _ & Hc). unfold Whatwg.newURL.
  change ("https://raw.githubusercontent.com/" ++ t)
    with (String "h" ("ttps://raw.githubusercontent.com/" ++ t)).
  rewrite strip_c0_space_id by done.
  change (String "h" ("ttps://raw.githubusercontent.com/" ++ t))
    with ("https://raw.githubusercontent.com/" ++ t).
  rewrite remove_tab_newline_append, (remove_tab_newline_id t) by done.
  change (Whatwg.remove_tab_newline "https://raw.githubusercontent.com/")
    with "https://raw.githubusercontent.com/".
  simpl. by rewrite pathname_encodes.
Qed.

(** *** The groups of the two patterns *)

Lemma until_slash_name a rest :
  no_slash a = true → until_slash (a ++ String slash rest) = (a, String slash rest).
Proof.
  induction a as [|c a IH]; [done|]. rewrite no_slash_cons.
  intros [Hc%negb_true_iff Ha]%andb_true_iff. simpl. by rewrite Hc, IH.
Qed.

Lemma segment_name a rest :
  non_empty a = true → no_slash a = true →
  segment (a ++ String slash rest) = Some (a, rest).
Proof.
  intros Hne Ha. unfold segment. rewrite until_slash_name by done. by destruct a.
Qed.

Lemma dot_plus_end_rest p :
  non_empty p = true → all_chars line_safe p = true → dot_plus_end p = Some p.
Proof.
  intros Hne Hp. destruct p; [done|]. unfold dot_plus_end. by rewrite no_line_terminator.
Qed.

Lemma blobMatch_blob_form o r b p :
  shaped (o, r, b, p) → all_chars line_safe p = true →
  blobMatch (blob_form o r b p) = Some (o, r, b, p).
Proof.
  intros ([? ?] & [? ?] & [? ?] & ?) Hp. unfold blob_form, blobMatch.
  change ("https://github.com/" ++ o ++ "/" ++ r ++ "/blob/" ++ b ++ "/" ++ p)
    with ("https://github.com/"
            ++ (o ++ String slash (r ++ String slash
                  ("blob" ++ String slash (b ++ String slash p))))).
  simpl. unfold optional_ci. simpl.
  rewrite (segment_name o) by done. simpl.
  rewrite (segment_name r) by done. simpl.
  rewrite (segment_name b) by done. simpl.
  by rewrite dot_plus_end_rest.
Qed.

Lemma rawMatch_raw_form o r b p :
  shaped (o, r, b, p) → all_chars line_safe p = true →
  rawMatch (raw_form o r b p) = Some (o, r, b, p).
Proof.
  intros ([? ?] & [? ?] & [? ?] & ?) Hp. unfold raw_form, rawMatch.
  change ("https://raw.githubusercontent.com/" ++ o ++ "/" ++ r ++ "/" ++ b ++ "/" ++ p)
    with ("https://raw.githubusercontent.com/"
            ++ (o ++ String slash (r ++ String slash (b ++ String slash p)))).
  simpl. unfold optional_ci. simpl.
  rewrite (segment_name o) by done. simpl.
  rewrite (segment_name r) by done. simpl.
  rewrite (segment_name b) by done. simpl.
  by rewrite dot_plus_end_rest.
Qed.

Lemma parse_trimmed newURL s u g :
  non_empty s = true →
  newURL (trim s) = Some u →
  match rawMatch (Whatwg.origin u ++ Whatwg.pathname u) with
  | Some g' => g' = g
  | None => blobMatch (Whatwg.origin u ++ Whatwg.pathname u) = Some g
  end →
  parseGitHubUrl newURL (JStr s) = Some (normalized_of g).
Proof.
  intros Hne Hu Hm. destruct s as [|c s]; [done|].
  unfold parseGitHubUrl, strip_query_and_hash. rewrite Hu.
  destruct (rawMatch _); [by subst|]. by rewrite Hm.
Qed.

Lemma blob_form_tail o r b p :
  blob_form o r b p
  = "https://github.com/"
      ++ (o ++ String slash (r ++ String slash
            ("blob" ++ String slash (b ++ String slash p)))).
Proof. reflexivity. Qed.

Lemma raw_form_tail o r b p :
  raw_form o r b p
  = "https://raw.githubusercontent.com/"
      ++ (o ++ String slash (r ++ String slash (b ++ String slash p))).
Proof. reflexivity. Qed.

Lemma url_name_shape s :
  url_name s = true → non_empty (url_encode s) = true ∧ no_slash (url_encode s) = true.
Proof.
  unfold url_name. intros [[Hne Hall]%andb_true_iff _]%andb_true_iff.
  split; [by apply url_encode_non_empty | by apply url_encode_no_slash].
Qed.

(** *** The end of a URL: white space, controls and the path state *)

Lemma is_ws2_slash_last c : is_ws2 c slash = false.
Proof. unfold is_ws2. by rewrite andb_false_r. Qed.

Lemma is_ws3_slash_last c3 c2 : is_ws3 c3 c2 slash = false.
Proof.
  unfold is_ws3. change (is_char 128 slash) with false. change (is_char 159 slash) with false.
  change (is_char 191 slash) with false. change (in_range 128 138 slash) with false.
  change (in_range 168 169 slash) with false. change (is_char 175 slash) with false.
  by rewrite !andb_false_r.
Qed.

(** The scan for white space from the end stops at a slash. *)
Lemma drop_ws_rev_slash l t :
  drop_ws_rev (l ++ slash :: t) = (drop_ws_rev l ++ slash :: t)%list.
Proof.
  assert (∀ n l, (length l ≤ n)%nat →
            drop_ws_rev (l ++ slash :: t) = (drop_ws_rev l ++ slash :: t)%list) as H;
    [|by apply (H (length l))].
  clear l. induction n as [|n IH]; intros l Hn.
  { destruct l; [|simpl in Hn; lia]. cbn [app]. rewrite drop_ws_rev_cons.
    change (is_ws1 slash) with false. cbn iota.
    destruct t as [|c2 [|c3 r3]]; by rewrite ?is_ws2_slash_last, ?is_ws3_slash_last. }
  destruct l as [|x1 l]; [apply (IH []); simpl; lia|]. cbn [length] in Hn.
  cbn [app]. rewrite !drop_ws_rev_cons.
  destruct (is_ws1 x1); [apply IH; lia|].
  destruct l as [|x2 l]; cbn [app].
  { rewrite is_ws2_slash. destruct t as [|c3 r3]; [done|]. by rewrite is_ws3_slash_middle. }
  cbn [length] in Hn.
  destruct (is_ws2 x2 x1); [apply IH; lia|].
  destruct l as [|x3 l]; cbn [app].
  { by rewrite is_ws3_slash_first. }
  cbn [length] in Hn.
  destruct (is_ws3 x3 x2 x1); [apply IH; lia|done].
Qed.

Lemma drop_c0_space_slash l t :
  Whatwg.drop_c0_space (l ++ slash :: t) = (Whatwg.drop_c0_space l ++ slash :: t)%list.
Proof.
  induction l as [|x l IH]; [done|]. cbn [app Whatwg.drop_c0_space].
  by destruct (Whatwg.is_c0_or_space x).
Qed.

Lemma string_of_list_app l1 l2 :
  string_of_list_ascii (l1 ++ l2) = string_of_list_ascii l1 ++ string_of_list_ascii l2.
Proof. induction l1 as [|x l1 IH]; simpl; [done|]. by rewrite IH. Qed.

Lemma trimEnd_after_slash q t :
  trimEnd (q ++ String slash t) = q ++ String slash (trimEnd t).
Proof.
  unfold trimEnd. rewrite rev_list_of_slash, drop_ws_rev_slash, rev_app_distr.
  cbn [rev]. rewrite rev_involutive, <- app_assoc. cbn [app].
  rewrite string_of_list_app. cbn [string_of_list_ascii].
  by rewrite string_of_list_ascii_of_string.
Qed.

Lemma strip_c0_after_slash h q t :
  Whatwg.is_c0_or_space h = false →
  Whatwg.strip_c0_space (String h (q ++ String slash (trimEnd t)))
  = String h (q ++ String slash (drop_end t)).
Proof.
  intros Hh. unfold Whatwg.strip_c0_space, drop_end.
  cbn [list_ascii_of_string Whatwg.drop_c0_space]. rewrite Hh.
  cbn [rev]. rewrite rev_list_of_slash, <- app_assoc. cbn [app].
  rewrite drop_c0_space_slash, rev_app_distr. cbn [rev].
  rewrite rev_app_distr, rev_involutive. cbn [rev app]. rewrite <- app_assoc. cbn [app].
  cbn [string_of_list_ascii]. rewrite string_of_list_app. cbn [string_of_list_ascii].
  by rewrite string_of_list_ascii_of_string.
Qed.

(** *** The path state, segment by segment *)

Lemma name_char_facts c :
  name_char c = true →
  (is_slash c || is_char 92 c) = false ∧ (is_char 63 c || is_char 35 c) = false
  ∧ is_slash c = false.
Proof.
  unfold name_char. intros [Hp Hs%negb_true_iff]%andb_true_iff.
  destruct (path_char_facts c Hp) as (_ & -> & -> & ->). by rewrite Hs.
Qed.

Lemma path_state_name a : ∀ path buf rest,
  all_chars name_char a = true →
  Whatwg.path_state path buf (a ++ rest)
  = Whatwg.path_state path (buf ++ url_encode a) rest.
Proof.
  induction a as [|c a IH]; intros path buf rest Ha.
  - by rewrite append_nil_r.
  - rewrite all_chars_cons in Ha. apply andb_true_iff in Ha as [Hc Ha].
    destruct (name_char_facts c Hc) as (H1 & H2 & H3).
    cbn [String.append Whatwg.path_state url_encode]. rewrite H1, H2, H3.
    by rewrite IH, append_assoc.
Qed.

Lemma path_state_plain a path rest :
  url_name a = true →
  Whatwg.path_state path EmptyString (a ++ String slash rest)
  = Whatwg.path_state (url_encode a :: path) EmptyString rest.
Proof.
  unfold url_name. intros [[_ Hall]%andb_true_iff Hdot]%andb_true_iff.
  rewrite path_state_name by done. cbn [Whatwg.path_state String.append].
  change (is_slash slash) with true. cbn [orb]. by rewrite close_segment_kept.
Qed.

Lemma step_below_sound sf path buf segs pre :
  step_below sf path buf = Some segs →
  Whatwg.close_segment sf (path ++ pre) buf = (segs ++ pre)%list.
Proof.
  unfold step_below, Whatwg.close_segment.
  destruct path as [|x path].
  - destruct (Whatwg.is_double_dot buf); [done|]. intros [= <-].
    by destruct (Whatwg.is_single_dot buf), sf.
  - intros [= <-].
    by destruct (Whatwg.is_double_dot buf), (Whatwg.is_single_dot buf), sf.
Qed.

Lemma read_below_sound t : ∀ path buf segs pre,
  read_below path buf t = Some segs →
  Whatwg.path_state (path ++ pre) buf t = (segs ++ pre)%list.
Proof.
  induction t as [|c t IH]; intros path buf segs pre; cbn [read_below Whatwg.path_state].
  - apply step_below_sound.
  - destruct (is_slash c || is_char 92 c).
    + intros (path' & Hstep & Hrest)%bind_Some.
      rewrite (step_below_sound _ _ _ _ pre Hstep). by apply IH.
    + destruct (is_char 63 c || is_char 35 c); [apply step_below_sound|apply IH].
Qed.

Lemma read_below_after t segs pre :
  read_below [] EmptyString t = Some segs →
  Whatwg.path_state pre EmptyString t = (segs ++ pre)%list.
Proof. apply (read_below_sound t [] EmptyString segs pre). Qed.

Lemma step_below_ok sf path buf segs :
  Forall seg_ok path → seg_ok buf →
  step_below sf path buf = Some segs → Forall seg_ok segs ∧ (sf = false → segs ≠ []).
Proof.
  intros Hpath Hbuf. unfold step_below, Whatwg.close_segment.
  assert (seg_ok EmptyString) as Hnil by done.
  assert (Forall seg_ok (Whatwg.shorten path)) as Hshort.
  { destruct Hpath; [constructor|done]. }
  destruct path as [|x path].
  - destruct (Whatwg.is_double_dot buf); [done|]. intros [= <-].
    destruct (Whatwg.is_single_dot buf), sf; split; try done; by constructor.
  - intros [= <-].
    destruct (Whatwg.is_double_dot buf), (Whatwg.is_single_dot buf), sf;
      split; try done; by constructor.
Qed.

Lemma read_below_ok t : ∀ path buf segs,
  Forall seg_ok path → seg_ok buf →
  read_below path buf t = Some segs → Forall seg_ok segs ∧ segs ≠ [].
Proof.
  induction t as [|c t IH]; intros path buf segs Hpath Hbuf; cbn [read_below].
  - intros H. destruct (step_below_ok _ _ _ _ Hpath Hbuf H) as [? Hne]. split; [done|].
    by apply Hne.
  - destruct (is_slash c || is_char 92 c) eqn:Hsl.
    + intros (path' & Hstep & Hrest)%bind_Some.
      destruct (step_below_ok _ _ _ _ Hpath Hbuf Hstep) as [Hp' _].
      by apply (IH path' EmptyString).
    + destruct (is_char 63 c || is_char 35 c).
      * intros H. destruct (step_below_ok _ _ _ _ Hpath Hbuf H) as [? Hne].
        split; [done|]. by apply Hne.
      * apply IH; [done|]. apply orb_false_iff in Hsl as [Hsl _].
        destruct (path_encode_facts c Hsl) as (_ & H1 & H2). destruct Hbuf as [Hb1 Hb2].
        split; [by rewrite no_slash_append, Hb1, H1|by rewrite all_chars_append, Hb2, H2].
Qed.

(** *** The path serializer *)

Lemma serialize_app segs pre :
  Whatwg.serialize (segs ++ pre) = Whatwg.serialize pre ++ Whatwg.serialize segs.
Proof.
  induction segs as [|x segs IH]; cbn [app Whatwg.serialize].
  - by rewrite append_nil_r.
  - by rewrite IH, append_assoc.
Qed.

Lemma join_slash_snoc l x :
  l ≠ [] → join_slash (l ++ [x]) = join_slash l ++ String slash x.
Proof.
  induction l as [|y l IH]; [done|]. intros _. destruct l as [|z l]; [done|].
  cbn [app join_slash] in *. rewrite IH by done. by rewrite append_assoc.
Qed.

Lemma serialize_join l :
  l ≠ [] → Whatwg.serialize l = String slash (join_slash (rev l)).
Proof.
  induction l as [|x l IH]; [done|]. intros _. cbn [Whatwg.serialize rev].
  destruct l as [|y l]; [done|]. rewrite IH by done.
  rewrite join_slash_snoc; [done|]. cbn [rev]. by destruct (rev l).
Qed.

(** *** What the constructor makes of the two forms *)

Lemma remove_tab_newline_slash x :
  Whatwg.remove_tab_newline (String slash x) = String slash (Whatwg.remove_tab_newline x).
Proof. reflexivity. Qed.

Lemma prepare_github X Q :
  Whatwg.remove_tab_newline
    (Whatwg.strip_c0_space (trim ("https://github.com/" ++ X ++ String slash Q)))
  = "https://github.com/" ++ Whatwg.remove_tab_newline X
      ++ String slash (Whatwg.remove_tab_newline (drop_end Q)).
Proof.
  unfold trim.
  change (trimStart ("https://github.com/" ++ X ++ String slash Q))
    with (("https://github.com/" ++ X) ++ String slash Q).
  rewrite trimEnd_after_slash.
  change (("https://github.com/" ++ X) ++ String slash (trimEnd Q))
    with (String "h" (("ttps://github.com/" ++ X) ++ String slash (trimEnd Q))).
  rewrite strip_c0_after_slash by done.
  change (String "h" (("ttps://github.com/" ++ X) ++ String slash (drop_end Q)))
    with ("https://github.com/" ++ (X ++ String slash (drop_end Q))).
  rewrite !remove_tab_newline_append. reflexivity.
Qed.

Lemma prepare_raw X Q :
  Whatwg.remove_tab_newline
    (Whatwg.strip_c0_space (trim ("https://raw.githubusercontent.com/" ++ X ++ String slash Q)))
  = "https://raw.githubusercontent.com/" ++ Whatwg.remove_tab_newline X
      ++ String slash (Whatwg.remove_tab_newline (drop_end Q)).
Proof.
  unfold trim.
  change (trimStart ("https://raw.githubusercontent.com/" ++ X ++ String slash Q))
    with (("https://raw.githubusercontent.com/" ++ X) ++ String slash Q).
  rewrite trimEnd_after_slash.
  change (("https://raw.githubusercontent.com/" ++ X) ++ String slash (trimEnd Q))
    with (String "h" (("ttps://raw.githubusercontent.com/" ++ X) ++ String slash (trimEnd Q))).
  rewrite strip_c0_after_slash by done.
  change (String "h" (("ttps://raw.githubusercontent.com/" ++ X) ++ String slash (drop_end Q)))
    with ("https://raw.githubusercontent.com/" ++ (X ++ String slash (drop_end Q))).
  rewrite !remove_tab_newline_append. reflexivity.
Qed.

(** The blob form, read by the constructor: the two names, [blob], and
    what is left of branch and path. *)
Lemma read_blob_form o r q path :
  plain_name o = true → plain_name r = true →
  read_below [] EmptyString (Whatwg.remove_tab_newline (drop_end q)) = Some path →
  strip_query_and_hash Whatwg.newURL
    (trim ("https://github.com/" ++ (o ++ String slash (r ++ "/blob")) ++ String slash q))
  = "https://github.com/"
      ++ (url_encode (Whatwg.remove_tab_newline o)
            ++ String slash (url_encode (Whatwg.remove_tab_newline r)
                 ++ String slash ("blob" ++ Whatwg.serialize path))).
Proof.
  intros Ho Hr Hq. unfold strip_query_and_hash, Whatwg.newURL.
  rewrite prepare_github.
  repeat first [rewrite remove_tab_newline_append | rewrite remove_tab_newline_slash].
  change (Whatwg.remove_tab_newline "/blob") with (String slash "blob").
  simpl.
  repeat (rewrite append_assoc; cbn [String.append]).
  rewrite (path_state_plain _ _ _ Ho).
  rewrite (path_state_plain _ _ _ Hr).
  change (Whatwg.path_state ?p EmptyString (String "b" (String "l" (String "o" (String "b"
            (String slash ?rest))))))
    with (Whatwg.path_state ("blob" :: p) EmptyString rest).
  rewrite (read_below_after _ _ _ Hq).
  rewrite serialize_app. cbn [Whatwg.serialize]. simpl.
  by rewrite !append_assoc.
Qed.

(** The raw form, read by the constructor. *)
Lemma read_raw_form o r q path :
  plain_name o = true → plain_name r = true →
  read_below [] EmptyString (Whatwg.remove_tab_newline (drop_end q)) = Some path →
  strip_query_and_hash Whatwg.newURL
    (trim ("https://raw.githubusercontent.com/" ++ (o ++ String slash r) ++ String slash q))
  = "https://raw.githubusercontent.com/"
      ++ (url_encode (Whatwg.remove_tab_newline o)
            ++ String slash (url_encode (Whatwg.remove_tab_newline r)
                 ++ Whatwg.serialize path)).
Proof.
  intros Ho Hr Hq. unfold strip_query_and_hash, Whatwg.newURL.
  rewrite prepare_raw.
  repeat first [rewrite remove_tab_newline_append | rewrite remove_tab_newline_slash].
  simpl.
  repeat (rewrite append_assoc; cbn [String.append]).
  rewrite (path_state_plain _ _ _ Ho).
  rewrite (path_state_plain _ _ _ Hr).
  rewrite (read_below_after _ _ _ Hq).
  rewrite serialize_app. cbn [Whatwg.serialize]. simpl.
  by rewrite !append_assoc.
Qed.

(** *** The two patterns on what the constructor wrote *)

Lemma blobMatch_tail o r t :
  non_empty o = true → no_slash o = true → non_empty r = true → no_slash r = true →
  rawMatch ("https://github.com/"
              ++ (o ++ String slash (r ++ String slash ("blob" ++ String slash t)))) = None
  ∧ blobMatch ("https://github.com/"
                 ++ (o ++ String slash (r ++ String slash ("blob" ++ String slash t))))
    = last_groups o r t.
Proof.
  intros Ho1 Ho2 Hr1 Hr2. split; [reflexivity|].
  unfold blobMatch, last_groups. simpl. unfold optional_ci. simpl.
  rewrite (segment_name o) by done. simpl.
  rewrite (segment_name r) by done. simpl.
  by destruct (segment t ≫= _).
Qed.

Lemma rawMatch_tail o r t :
  non_empty o = true → no_slash o = true → non_empty r = true → no_slash r = true →
  rawMatch ("https://raw.githubusercontent.com/"
              ++ (o ++ String slash (r ++ String slash t)))
  = last_groups o r t.
Proof.
  intros Ho1 Ho2 Hr1 Hr2.
  unfold rawMatch, last_groups. simpl. unfold optional_ci. simpl.
  rewrite (segment_name o) by done. simpl.
  rewrite (segment_name r) by done. simpl.
  by destruct (segment t ≫= _).
Qed.

Lemma until_slash_whole a : no_slash a = true → until_slash a = (a, EmptyString).
Proof.
  induction a as [|c a IH]; [done|]. rewrite no_slash_cons.
  intros [Hc%negb_true_iff Ha]%andb_true_iff. simpl. by rewrite Hc, IH.
Qed.

Lemma join_slash_line_safe l :
  Forall seg_ok l → all_chars line_safe (join_slash l) = true.
Proof.
  induction 1 as [|x l [_ Hx] Hl IH]; [done|]. destruct l as [|y l]; [done|].
  cbn [join_slash] in *. by rewrite all_chars_append, Hx, all_chars_cons, IH.
Qed.

(** The groups read off the segments that are left. *)
Lemma last_groups_join o r segs :
  Forall seg_ok segs →
  last_groups o r (join_slash segs)
  = match segs with
    | b :: f :: rest =>
        if names_a_file segs then Some (o, r, b, join_slash (f :: rest)) else None
    | _ => None
    end.
Proof.
  intros Hok. unfold last_groups, names_a_file.
  destruct Hok as [|b segs [Hb _] Hok]; [done|].
  destruct Hok as [|f rest Hf Hok].
  { cbn [join_slash]. unfold segment. rewrite until_slash_whole by done. by destruct b. }
  assert (Forall seg_ok (f :: rest)) as Hrest by (by constructor).
  change (join_slash (b :: f :: rest)) with (b ++ String slash (join_slash (f :: rest))).
  unfold segment. rewrite until_slash_name by done.
  destruct b as [|c b]; [done|]. cbn [non_empty andb mbind option_bind].
  pose proof (join_slash_line_safe _ Hrest) as Hsafe.
  destruct (join_slash (f :: rest)) as [|x t] eqn:E; [done|].
  unfold dot_plus_end. by rewrite no_line_terminator.
Qed.

Lemma parse_by_groups s t :
  non_empty s = true →
  strip_query_and_hash Whatwg.newURL (trim s) = t →
  parseGitHubUrl Whatwg.newURL (JStr s)
  = match rawMatch t with
    | Some g => Some (normalized_of g)
    | None => normalized_of <$> blobMatch t
    end.
Proof.
  destruct s as [|c s]; [done|]. intros _ <-. unfold parseGitHubUrl.
  destruct (rawMatch _); [done|]. by destruct (blobMatch _).
Qed.

Lemma blob_form_split o r b p :
  blob_form o r b p
  = "https://github.com/" ++ (o ++ String slash (r ++ "/blob"))
      ++ String slash (b ++ String slash p).
Proof.
  unfold blob_form. repeat (rewrite append_assoc; cbn [String.append]). reflexivity.
Qed.

Lemma raw_form_split o r b p :
  raw_form o r b p
  = "https://raw.githubusercontent.com/" ++ (o ++ String slash r)
      ++ String slash (b ++ String slash p).
Proof.
  unfold raw_form. repeat (rewrite append_assoc; cbn [String.append]). reflexivity.
Qed.

Lemma rev_ok l : Forall seg_ok l → Forall seg_ok (rev l).
Proof.
  intros H. apply Forall_forall. intros x Hx%list_elem_of_In%in_rev.
  rewrite Forall_forall in H. by apply H, list_elem_of_In.
Qed.

(** C2 (as amended).  For an owner and a repo that, with their tabs and
    line breaks dropped, are not empty, hold no slash, backslash, [?] or
    [#] and are not a dot segment, and for any branch and path: when none
    of the double-dot segments of branch/path, read as the URL constructor
    reads the end of a URL, lacks a segment of branch/path to remove, the
    blob URL and the raw URL parse to the same result; and that result is
    a tuple, not [null], exactly when the segments the constructor leaves
    of branch/path are a non-empty first segment followed by a non-empty
    text. *)
Theorem blob_and_raw_agree o r b p segs :
  plain_name o = true → plain_name r = true →
  remainder (b ++ "/" ++ p) = Some segs →
  parseGitHubUrl Whatwg.newURL (JStr (raw_form o r b p))
  = parseGitHubUrl Whatwg.newURL (JStr (blob_form o r b p))
  ∧ ((∃ n, parseGitHubUrl Whatwg.newURL (JStr (blob_form o r b p)) = Some n)
     ↔ names_a_file segs = true).
Proof.
  intros Ho Hr. unfold remainder.
  destruct (read_below [] EmptyString _) as [path|] eqn:Hq; [|done]. intros [= <-].
  assert (seg_ok EmptyString) as Hnil by done.
  destruct (read_below_ok _ _ _ _ (Forall_nil_2 _) Hnil Hq) as [Hok Hne].
  destruct (url_name_shape _ Ho) as [Ho1 Ho2], (url_name_shape _ Hr) as [Hr1 Hr2].
  assert (parseGitHubUrl Whatwg.newURL (JStr (blob_form o r b p))
          = normalized_of <$> last_groups (url_encode (Whatwg.remove_tab_newline o))
                                (url_encode (Whatwg.remove_tab_newline r))
                                (join_slash (rev path))) as Eblob.
  { erewrite parse_by_groups;
      [|reflexivity|rewrite blob_form_split; apply (read_blob_form o r _ path Ho Hr Hq)].
    rewrite serialize_join by done.
    by destruct (blobMatch_tail _ _ (join_slash (rev path)) Ho1 Ho2 Hr1 Hr2) as [-> ->]. }
  assert (parseGitHubUrl Whatwg.newURL (JStr (raw_form o r b p))
          = normalized_of <$> last_groups (url_encode (Whatwg.remove_tab_newline o))
                                (url_encode (Whatwg.remove_tab_newline r))
                                (join_slash (rev path))) as Eraw.
  { erewrite parse_by_groups;
      [|reflexivity|rewrite raw_form_split; apply (read_raw_form o r _ path Ho Hr Hq)].
    rewrite serialize_join by done.
    rewrite (rawMatch_tail _ _ (join_slash (rev path)) Ho1 Ho2 Hr1 Hr2).
    by destruct (last_groups _ _ _). }
  split; [by rewrite Eraw, Eblob|].
  rewrite Eblob, last_groups_join by (by apply rev_ok).
  destruct (rev path) as [|b' [|f rest]]; simpl.
  - split; [by intros [? ?]|done].
  - split; [by intros [? ?]|done].
  - destruct (non_empty b' && non_empty _); simpl.
    + split; [done|]. intros _. by eexists.
    + split; [by intros [? ?]|done].
Qed.

Lemma blob_and_raw_agree_witness :
  parseGitHubUrl Whatwg.newURL
    (JStr (raw_form "octo" "specs" "main" "docs/../v1/./pet store.yaml?raw=1 "))
  = parseGitHubUrl Whatwg.newURL
      (JStr (blob_form "octo" "specs" "main" "docs/../v1/./pet store.yaml?raw=1 "))
  ∧ ((∃ n, parseGitHubUrl Whatwg.newURL
             (JStr (blob_form "octo" "specs" "main" "docs/../v1/./pet store.yaml?raw=1 "))
           = Some n)
     ↔ names_a_file ["main"; "v1"; "pet%20store.yaml"] = true).
Proof.
  apply (blob_and_raw_agree "octo" "specs" "main" "docs/../v1/./pet store.yaml?raw=1 "
           ["main"; "v1"; "pet%20store.yaml"]); reflexivity.
Defined.

(** C2 (as stated) fails: the branch [..] holds no slash and the path is
    not empty, yet the URL constructor removes the segment before it, so
    the blob URL no longer has [blob] in third place and is refused, while
    the raw URL is read with its names shifted. *)
Lemma dot_dot_branch_disagrees :
  no_slash "octo" = true ∧ no_slash "specs" = true ∧ no_slash ".." = true
  ∧ non_empty "main/docs/api.yaml" = true
  ∧ parseGitHubUrl Whatwg.newURL
      (JStr (blob_form "octo" "specs" ".." "main/docs/api.yaml")) = None
  ∧ parseGitHubUrl Whatwg.newURL
      (JStr (raw_form "octo" "specs" ".." "main/docs/api.yaml"))
    = Some {| owner := "octo"; repo := "main"; branch := "docs"; path := "api.yaml";
              key := "octo/main/docs/api.yaml" |}.
Proof. repeat split; vm_compute; reflexivity. Qed.

(** *** What the parser returns, in general *)

Lemma collapse_cons c s :
  collapse_slashes (String c s)
  = if is_slash c && head_is_slash s then collapse_slashes s
    else String c (collapse_slashes s).
Proof.
  simpl. destruct (is_slash c); [|done]. destruct s as [|c' s]; [done|]. simpl.
  by destruct (is_slash c').
Qed.

Lemma collapse_cong a x y :
  collapse_slashes x = collapse_slashes y → head_is_slash x = head_is_slash y →
  collapse_slashes (a ++ x) = collapse_slashes (a ++ y)
  ∧ head_is_slash (a ++ x) = head_is_slash (a ++ y).
Proof.
  intros Hc Hh. induction a as [|c a [IHc IHh]]; [done|]. split; [|done].
  change (String c a ++ x) with (String c (a ++ x)).
  change (String c a ++ y) with (String c (a ++ y)).
  by rewrite !collapse_cons, IHc, IHh.
Qed.

Lemma collapse_strip cap :
  collapse_slashes (String slash cap)
  = collapse_slashes (String slash (strip_leading_slash cap)).
Proof.
  destruct cap as [|c cap]; [done|].
  destruct (is_slash c) eqn:Hc.
  - apply is_slash_eq in Hc as ->. reflexivity.
  - unfold strip_leading_slash. by rewrite Hc.
Qed.

Lemma key_of_groups o r b cap :
  collapse_slashes (o ++ String slash (r ++ String slash (b ++ String slash cap)))
  = collapse_slashes
      (o ++ String slash (r ++ String slash (b ++ String slash (strip_leading_slash cap)))).
Proof.
  apply collapse_cong; [|done].
  apply (collapse_cong (String slash r)); [|done].
  apply (collapse_cong (String slash b)); [|done].
  apply collapse_strip.
Qed.

Lemma until_slash_no_slash s : no_slash (until_slash s).1 = true.
Proof.
  induction s as [|c s IH]; [done|]. simpl. destruct (is_slash c) eqn:Hc; [done|].
  destruct (until_slash s) as [a b]. simpl in *. unfold no_slash in *.
  rewrite all_chars_cons. by rewrite Hc, IH.
Qed.

Lemma segment_shape s seg rest :
  segment s = Some (seg, rest) →
  non_empty seg = true ∧ no_slash seg = true.
Proof.
  unfold segment. pose proof (until_slash_no_slash s) as H.
  destruct (until_slash s) as [[|c a] [|c' b]]; try done.
  intros [= <- <-]. done.
Qed.

Lemma optional_ci_some {A} p (k : string → option A) s g :
  optional_ci p k s = Some g → ∃ s', k s' = Some g.
Proof.
  unfold optional_ci. destruct (strip_ci p s ≫= k) as [g'|] eqn:E.
  - intros [= <-]. apply bind_Some in E as (s' & _ & ?). by exists s'.
  - intros ?. by exists s.
Qed.

Lemma dot_plus_end_some s p : dot_plus_end s = Some p → non_empty p = true.
Proof.
  destruct s; [done|]. unfold dot_plus_end.
  destruct (has_line_terminator _); [done|]. by intros [= <-].
Qed.

Lemma rawMatch_shaped s g : rawMatch s = Some g → shaped g.
Proof.
  unfold rawMatch. intros (s0 & _ & H)%bind_Some.
  apply optional_ci_some in H as (s1 & H).
  apply bind_Some in H as (s2 & _ & H).
  apply bind_Some in H as ([o s3] & Ho & H).
  apply bind_Some in H as ([r s4] & Hr & H).
  apply bind_Some in H as ([b s5] & Hb & H).
  apply bind_Some in H as (p & Hp & [= <-]).
  repeat split; try (by eapply segment_shape); by eapply dot_plus_end_some.
Qed.

Lemma blobMatch_shaped s g : blobMatch s = Some g → shaped g.
Proof.
  unfold blobMatch. intros (s0 & _ & H)%bind_Some.
  apply optional_ci_some in H as (s1 & H).
  apply bind_Some in H as (s2 & _ & H).
  apply optional_ci_some in H as (s2' & H).
  apply bind_Some in H as (s3 & _ & H).
  apply bind_Some in H as ([o s4] & Ho & H).
  apply bind_Some in H as ([r s5] & Hr & H).
  apply bind_Some in H as (s6 & _ & H).
  apply bind_Some in H as ([b s7] & Hb & H).
  apply bind_Some in H as (p & Hp & [= <-]).
  repeat split; try (by eapply segment_shape); by eapply dot_plus_end_some.
Qed.

Lemma parseGitHubUrl_shape newURL v n :
  parseGitHubUrl newURL v = Some n →
  (non_empty (owner n) = true ∧ no_slash (owner n) = true)
  ∧ (non_empty (repo n) = true ∧ no_slash (repo n) = true)
  ∧ (non_empty (branch n) = true ∧ no_slash (branch n) = true)
  ∧ (∃ rest, non_empty rest = true ∧ path n = strip_leading_slash rest)
  ∧ key n = collapse_slashes
              (owner n ++ "/" ++ repo n ++ "/" ++ branch n ++ "/" ++ path n).
Proof.
  assert (∀ g, shaped g → let n := normalized_of g in
    (non_empty (owner n) = true ∧ no_slash (owner n) = true)
  ∧ (non_empty (repo n) = true ∧ no_slash (repo n) = true)
  ∧ (non_empty (branch n) = true ∧ no_slash (branch n) = true)
  ∧ (∃ rest, non_empty rest = true ∧ path n = strip_leading_slash rest)
  ∧ key n = collapse_slashes
              (owner n ++ "/" ++ repo n ++ "/" ++ branch n ++ "/" ++ path n)) as Hg.
  { intros [[[o r] b] p] (Ho & Hr & Hb & Hp). simpl.
    repeat split; try tauto; [by exists p|]. apply key_of_groups. }
  destruct v as [| | | |[|c s]| |]; try done. unfold parseGitHubUrl.
  destruct (rawMatch _) as [g|] eqn:Eraw.
  - intros [= <-]. by apply Hg, (rawMatch_shaped _ _ Eraw).
  - destruct (blobMatch _) as [g|] eqn:Eblob; [|done].
    intros [= <-]. by apply Hg, (blobMatch_shaped _ _ Eblob).
Qed.

(** C8 (the code at the failing inputs).  With three slashes after the
    branch the returned path keeps a leading slash, and with nothing but
    two slashes after it the returned path is empty: [replace(/^\//, '')]
    removes one slash only, where the key collapses every run. *)
Theorem path_keeps_slash_or_is_empty :
  parseGitHubUrl Whatwg.newURL
    (JStr "https://github.com/octo/specs/blob/main///openapi.yaml")
  = Some {| owner := "octo"; repo := "specs"; branch := "main";
            path := "/openapi.yaml"; key := "octo/specs/main/openapi.yaml" |}
  ∧ parseGitHubUrl Whatwg.newURL (JStr "https://github.com/octo/specs/blob/main//")
    = Some {| owner := "octo"; repo := "specs"; branch := "main";
              path := EmptyString; key := "octo/specs/main/" |}.
Proof. split; vm_compute; reflexivity. Qed.

End UrlFacts.

(** ** [trim] *)

Module TrimFacts.
Import Js Spec StringFacts UrlFacts.

Lemma trimStart_length s : (String.length (trimStart s) ≤ String.length s)%nat.
Proof.
  assert (∀ n s, (String.length s ≤ n)%nat →
                 (String.length (trimStart s) ≤ String.length s)%nat) as H;
    [|by apply (H (String.length s))].
  clear s. induction n as [|n IH]; intros s Hn.
  { destruct s; simpl in *; lia. }
  destruct s as [|c1 r1]; [simpl; lia|]. cbn [trimStart]. cbn [String.length] in *.
  destruct (is_ws1 c1); [specialize (IH r1); lia|].
  destruct r1 as [|c2 r2]; [simpl; lia|]. cbn [String.length] in *.
  destruct (is_ws2 c1 c2); [specialize (IH r2); lia|].
  destruct r2 as [|c3 r3]; [simpl; lia|]. cbn [String.length] in *.
  destruct (is_ws3 c1 c2 c3); [specialize (IH r3); lia|simpl; lia].
Qed.

Lemma trimStart_head s : head_ws s = false → trimStart s = s.
Proof.
  destruct s as [|c1 [|c2 [|c3 r3]]]; simpl; try done.
  - by intros [-> _]%orb_false_iff.
  - intros [-> [-> _]%orb_false_iff]%orb_false_iff. done.
  - intros [-> [-> ->]%orb_false_iff]%orb_false_iff. done.
Qed.

Lemma head_ws_trimStart s : head_ws (trimStart s) = false.
Proof.
  assert (∀ n s, (String.length s ≤ n)%nat → head_ws (trimStart s) = false) as H;
    [|by apply (H (String.length s))].
  clear s. induction n as [|n IH]; intros s Hn.
  { destruct s; [done|simpl in *; lia]. }
  destruct s as [|c1 r1]; [done|]. cbn [trimStart]. cbn [String.length] in *.
  destruct (is_ws1 c1) eqn:E1; [apply IH; lia|].
  destruct r1 as [|c2 r2]; [simpl; by rewrite E1|]. cbn [String.length] in *.
  destruct (is_ws2 c1 c2) eqn:E2; [apply IH; lia|].
  destruct r2 as [|c3 r3]; [simpl; by rewrite E1, E2|]. cbn [String.length] in *.
  destruct (is_ws3 c1 c2 c3) eqn:E3; [apply IH; lia|]. simpl. by rewrite E1, E2, E3.
Qed.

(** No white space at the head of a string: none at the head of a prefix. *)
Lemma head_ws_prefix (a b : list ascii) :
  a `prefix_of` b →
  head_ws (string_of_list_ascii b) = false → head_ws (string_of_list_ascii a) = false.
Proof.
  intros [k ->]. destruct a as [|c1 [|c2 [|c3 a]]]; simpl; try done.
  - intros [-> _]%orb_false_iff. done.
  - destruct k; simpl; [done|]. intros [-> [-> _]%orb_false_iff]%orb_false_iff. done.
Qed.

Lemma drop_ws_rev_suffix l : drop_ws_rev l `suffix_of` l.
Proof.
  assert (∀ n l, (length l ≤ n)%nat → drop_ws_rev l `suffix_of` l) as H;
    [|by apply (H (length l))].
  clear l. induction n as [|n IH]; intros l Hn.
  { destruct l; [done|simpl in *; lia]. }
  destruct l as [|c1 r1]; [done|]. rewrite drop_ws_rev_cons. cbn [length] in *.
  destruct (is_ws1 c1); [apply suffix_cons_r, IH; lia|].
  destruct r1 as [|c2 r2]; [done|]. cbn [length] in *.
  destruct (is_ws2 c2 c1); [do 2 apply suffix_cons_r; apply IH; lia|].
  destruct r2 as [|c3 r3]; [done|]. cbn [length] in *.
  destruct (is_ws3 c3 c2 c1); [do 3 apply suffix_cons_r; apply IH; lia|done].
Qed.

Lemma drop_ws_rev_fix l : drop_ws_rev (drop_ws_rev l) = drop_ws_rev l.
Proof.
  assert (∀ n l, (length l ≤ n)%nat → drop_ws_rev (drop_ws_rev l) = drop_ws_rev l) as H;
    [|by apply (H (length l))].
  clear l. induction n as [|n IH]; intros l Hn.
  { destruct l; [done|simpl in *; lia]. }
  destruct l as [|c1 r1]; [done|]. rewrite (drop_ws_rev_cons c1 r1). cbn [length] in *.
  destruct (is_ws1 c1) eqn:E1; [apply IH; lia|].
  destruct r1 as [|c2 r2]; [by rewrite drop_ws_rev_cons, E1|]. cbn [length] in *.
  destruct (is_ws2 c2 c1) eqn:E2; [apply IH; lia|].
  destruct r2 as [|c3 r3]; [by rewrite drop_ws_rev_cons, E1, E2|]. cbn [length] in *.
  destruct (is_ws3 c3 c2 c1) eqn:E3; [apply IH; lia|].
  by rewrite drop_ws_rev_cons, E1, E2, E3.
Qed.

Lemma trimEnd_fix s : trimEnd (trimEnd s) = trimEnd s.
Proof.
  unfold trimEnd. by rewrite list_ascii_of_string_of_list_ascii, rev_involutive, drop_ws_rev_fix.
Qed.

Lemma trimEnd_keeps_head s : head_ws s = false → head_ws (trimEnd s) = false.
Proof.
  intros H. unfold trimEnd. apply (head_ws_prefix _ (list_ascii_of_string s)).
  - destruct (drop_ws_rev_suffix (rev (list_ascii_of_string s))) as [k Hk].
    exists (rev k). rewrite <- rev_app_distr, <- Hk. by rewrite rev_involutive.
  - by rewrite string_of_list_ascii_of_string.
Qed.

(** [trim] is idempotent. *)
Lemma trim_trim s : trim (trim s) = trim s.
Proof.
  unfold trim.
  rewrite (trimStart_head (trimEnd (trimStart s))).
  - apply trimEnd_fix.
  - apply trimEnd_keeps_head, head_ws_trimStart.
Qed.

(** *** White space around a text *)

(** A byte of ASCII white space is no part of a longer white-space
    character. *)
Lemma ws1_facts x :
  is_ws1 x = true →
  (∀ c, is_ws2 c x = false) ∧ (∀ c y, is_ws3 c x y = false) ∧ (∀ c y, is_ws3 c y x = false).
Proof.
  intros H.
  assert (is_char 160 x = false ∧ is_char 154 x = false ∧ is_char 128 x = false
          ∧ is_char 129 x = false ∧ is_char 187 x = false ∧ is_char 159 x = false
          ∧ is_char 191 x = false ∧ is_char 175 x = false
          ∧ in_range 128 138 x = false ∧ in_range 168 169 x = false) as Hx.
  { assert (implb (is_ws1 x)
      (negb (is_char 160 x) && negb (is_char 154 x) && negb (is_char 128 x)
       && negb (is_char 129 x) && negb (is_char 187 x) && negb (is_char 159 x)
       && negb (is_char 191 x) && negb (is_char 175 x)
       && negb (in_range 128 138 x) && negb (in_range 168 169 x)) = true) as Hi.
    { revert x H. intros x _. revert x. apply all_ascii. vm_compute. reflexivity. }
    rewrite H in Hi. simpl in Hi.
    repeat (apply andb_true_iff in Hi as [Hi ?]).
    repeat split; by apply negb_true_iff. }
  destruct Hx as (H160 & H154 & H128 & H129 & H187 & H159 & H191 & H175 & Hr1 & Hr2).
  unfold is_ws2, is_ws3. repeat split; intros;
    rewrite ?H160, ?H154, ?H128, ?H129, ?H187, ?H159, ?H191, ?H175, ?Hr1, ?Hr2;
    simpl; by rewrite ?andb_false_r.
Qed.

Lemma trimStart_ws w s : all_chars is_ws1 w = true → trimStart (w ++ s) = trimStart s.
Proof.
  induction w as [|x w IH]; [done|]. rewrite all_chars_cons.
  intros [Hx Hw]%andb_true_iff. simpl. by rewrite Hx, IH.
Qed.

Lemma trimStart_all_ws w : all_chars is_ws1 w = true → trimStart w = EmptyString.
Proof.
  intros H. rewrite <- (append_nil_r w). by rewrite trimStart_ws.
Qed.

(** White space after a text does not change what [trimStart] removes. *)
Lemma trimStart_before_ws s w :
  all_chars is_ws1 w = true →
  trimStart (s ++ w)
  = match trimStart s with
    | EmptyString => EmptyString
    | t => t ++ w
    end.
Proof.
  intros Hw.
  assert (∀ n s, (String.length s ≤ n)%nat →
    trimStart (s ++ w)
    = match trimStart s with
      | EmptyString => EmptyString
      | t => t ++ w
      end) as H; [|by apply (H (String.length s))].
  clear s. induction n as [|n IH]; intros s Hn.
  { destruct s; [|simpl in Hn; lia]. simpl. by apply trimStart_all_ws. }
  destruct s as [|c1 r1]; [simpl; by apply trimStart_all_ws|].
  cbn [String.length] in Hn. cbn [String.append trimStart].
  destruct (is_ws1 c1) eqn:E1; [apply IH; lia|].
  destruct r1 as [|c2 r2].
  { cbn [String.append]. destruct w as [|x w]; [done|].
    rewrite all_chars_cons in Hw. apply andb_true_iff in Hw as [Hx Hw].
    destruct (ws1_facts x Hx) as (H2 & H3 & H3'). rewrite H2.
    destruct w as [|y w]; [done|]. by rewrite H3. }
  cbn [String.length] in Hn. cbn [String.append].
  destruct (is_ws2 c1 c2) eqn:E2; [apply IH; lia|].
  destruct r2 as [|c3 r3].
  { cbn [String.append]. destruct w as [|x w]; [done|].
    rewrite all_chars_cons in Hw. apply andb_true_iff in Hw as [Hx Hw].
    destruct (ws1_facts x Hx) as (H2 & H3 & H3'). by rewrite H3'. }
  cbn [String.length] in Hn. cbn [String.append].
  destruct (is_ws3 c1 c2 c3) eqn:E3; [apply IH; lia|done].
Qed.

Lemma drop_ws_rev_ws w l :
  Forall (λ x, is_ws1 x = true) w → drop_ws_rev (w ++ l) = drop_ws_rev l.
Proof.
  induction 1 as [|x w Hx _ IH]; [done|]. cbn [app]. by rewrite drop_ws_rev_cons, Hx.
Qed.

Lemma trimEnd_ws t w : all_chars is_ws1 w = true → trimEnd (t ++ w) = trimEnd t.
Proof.
  intros Hw. unfold trimEnd. rewrite list_of_append, rev_app_distr.
  rewrite drop_ws_rev_ws; [done|].
  apply Forall_forall. intros x Hx%list_elem_of_In%in_rev.
  unfold all_chars in Hw. rewrite forallb_forall in Hw. by apply Hw.
Qed.

Lemma trim_ws w1 s w2 :
  all_chars is_ws1 w1 = true → all_chars is_ws1 w2 = true →
  trim (w1 ++ s ++ w2) = trim s.
Proof.
  intros H1 H2. unfold trim. rewrite trimStart_ws, trimStart_before_ws by done.
  destruct (trimStart s) as [|c t] eqn:E; [done|]. by apply trimEnd_ws.
Qed.

End TrimFacts.

(** ** parseGitHubUrl: the key, the query, the origin *)

Module ParserFacts.
Import Js GitHub Spec StringFacts UrlFacts.

(** *** The key *)

Lemma head_collapse s : head_is_slash (collapse_slashes s) = head_is_slash s.
Proof.
  induction s as [|c s IH]; [done|]. rewrite collapse_cons.
  destruct (is_slash c) eqn:Hc, (head_is_slash s) eqn:Hs;
    cbn [andb head_is_slash]; by rewrite ?Hc, ?IH.
Qed.

Lemma collapse_no_double s : no_double_slash (collapse_slashes s) = true.
Proof.
  induction s as [|c s IH]; [done|]. rewrite collapse_cons.
  destruct (is_slash c && head_is_slash s) eqn:E; [done|].
  cbn [no_double_slash]. by rewrite head_collapse, E, IH.
Qed.

(** A name without a slash is copied into the key. *)
Lemma collapse_name a x :
  no_slash a = true →
  collapse_slashes (a ++ String slash x) = a ++ collapse_slashes (String slash x).
Proof.
  induction a as [|c a IH]; [done|]. rewrite no_slash_cons.
  intros [Hc%negb_true_iff Ha]%andb_true_iff.
  change (String c a ++ ?y) with (String c (a ++ y)).
  by rewrite collapse_cons, Hc, IH.
Qed.

Lemma collapse_slash_name a x :
  non_empty a = true → no_slash a = true →
  collapse_slashes (String slash (a ++ String slash x))
  = String slash (a ++ collapse_slashes (String slash x)).
Proof.
  intros Hne Ha. rewrite collapse_cons.
  destruct a as [|c a]; [done|]. pose proof Ha as Ha'. rewrite no_slash_cons in Ha'.
  apply andb_true_iff in Ha' as [Hc%negb_true_iff _]. simpl head_is_slash.
  rewrite Hc, andb_false_r. by rewrite collapse_name.
Qed.

(** The key, with the three names written out. *)
Lemma key_of_names o r b p :
  shaped (o, r, b, p) →
  key (normalized_of (o, r, b, p))
  = o ++ String slash (r ++ String slash (b ++ collapse_slashes (String slash p))).
Proof.
  intros ((_ & Ho) & (Hr1 & Hr2) & (Hb1 & Hb2) & _). cbn [normalized_of key].
  rewrite collapse_name by done. by rewrite !collapse_slash_name.
Qed.

Lemma split_at_slash a b x y :
  no_slash a = true → no_slash b = true →
  a ++ String slash x = b ++ String slash y → a = b ∧ x = y.
Proof.
  revert b. induction a as [|c a IH]; intros [|c' b]; rewrite ?no_slash_cons; simpl.
  - by intros _ _ [= ->].
  - intros _ [Hc _]%andb_true_iff [= <- _]. done.
  - intros [Hc _]%andb_true_iff _ [= -> _]. done.
  - intros [_ Ha]%andb_true_iff [_ Hb]%andb_true_iff [= -> H].
    destruct (IH _ Ha Hb H) as [-> ->]. done.
Qed.

Lemma parsed_groups newURL v n :
  parseGitHubUrl newURL v = Some n →
  ∃ g s, shaped g ∧ n = normalized_of g ∧ v = JStr s ∧ non_empty s = true.
Proof.
  destruct v as [| | | |[|c s]| |]; try done. unfold parseGitHubUrl.
  destruct (rawMatch _) as [g|] eqn:Eraw.
  - intros [= <-]. exists g, (String c s). split; [by eapply rawMatch_shaped|done].
  - destruct (blobMatch _) as [g|] eqn:Eblob; [|done].
    intros [= <-]. exists g, (String c s). split; [by eapply blobMatch_shaped|done].
Qed.

Lemma collapse_leading_slash p :
  ∃ t, collapse_slashes (String slash p) = String slash t.
Proof.
  pose proof (head_collapse (String slash p)) as H.
  destruct (collapse_slashes (String slash p)) as [|c t]; [done|].
  simpl in H. apply is_slash_eq in H as ->. by exists t.
Qed.

(** X1.  The keys of two parsed links are equal exactly when the links
    agree on owner, repo and branch, and their paths agree once a slash is
    put before them and every run of slashes is collapsed: Add takes two
    links for one doc when they differ only in repeated slashes of the
    path. *)
Theorem key_identifies_the_file newURL v1 v2 n1 n2 :
  parseGitHubUrl newURL v1 = Some n1 →
  parseGitHubUrl newURL v2 = Some n2 →
  (key n1 = key n2
   ↔ owner n1 = owner n2 ∧ repo n1 = repo n2 ∧ branch n1 = branch n2
     ∧ collapse_slashes (String slash (path n1)) = collapse_slashes (String slash (path n2))).
Proof.
  intros ([[[o1 r1] b1] p1] & s1 & Hs1 & -> & _)%parsed_groups
         ([[[o2 r2] b2] p2] & s2 & Hs2 & -> & _)%parsed_groups.
  rewrite !key_of_names by done. cbn [normalized_of owner repo branch path].
  rewrite <- !collapse_strip.
  destruct Hs1 as ((_ & Ho1) & (_ & Hr1) & (_ & Hb1) & _).
  destruct Hs2 as ((_ & Ho2) & (_ & Hr2) & (_ & Hb2) & _).
  split.
  - intros H. apply split_at_slash in H as [-> H]; [|done..].
    apply split_at_slash in H as [-> H]; [|done..].
    destruct (collapse_leading_slash p1) as [t1 E1], (collapse_leading_slash p2) as [t2 E2].
    rewrite E1, E2 in *. apply split_at_slash in H as [-> ->]; done.
  - by intros (-> & -> & -> & ->).
Qed.

(** X2.  Whatever the URL constructor does, a tuple that [parseGitHubUrl]
    returns comes from a non-empty text; its owner, repo and branch are
    not empty and hold no slash; its key is [owner/repo/branch] followed by
    the path with a slash before it and every run of slashes collapsed;
    and the key holds no two slashes in a row. *)
Theorem parsed_tuple_shape newURL v n :
  parseGitHubUrl newURL v = Some n →
  (∃ s, v = JStr s ∧ non_empty s = true)
  ∧ (non_empty (owner n) = true ∧ no_slash (owner n) = true)
  ∧ (non_empty (repo n) = true ∧ no_slash (repo n) = true)
  ∧ (non_empty (branch n) = true ∧ no_slash (branch n) = true)
  ∧ key n = owner n ++ "/" ++ repo n ++ "/" ++ branch n
              ++ collapse_slashes ("/" ++ path n)
  ∧ no_double_slash (key n) = true.
Proof.
  intros ([[[o r] b] p] & s & Hs & -> & -> & Hne)%parsed_groups.
  split; [by exists s|].
  pose proof Hs as (Ho & Hr & Hb & _). do 3 (split; [done|]). split.
  - rewrite key_of_names by done. cbn [normalized_of owner repo branch path].
    rewrite (collapse_strip p). reflexivity.
  - apply collapse_no_double.
Qed.

Lemma parsed_tuple_shape_witness :
  (∃ s, JStr "https://github.com/octo/specs/blob/main/api.yaml" = JStr s
        ∧ non_empty s = true)
  ∧ (non_empty (owner Sample.normalized0) = true
     ∧ no_slash (owner Sample.normalized0) = true)
  ∧ (non_empty (repo Sample.normalized0) = true
     ∧ no_slash (repo Sample.normalized0) = true)
  ∧ (non_empty (branch Sample.normalized0) = true
     ∧ no_slash (branch Sample.normalized0) = true)
  ∧ key Sample.normalized0
    = owner Sample.normalized0 ++ "/" ++ repo Sample.normalized0 ++ "/"
        ++ branch Sample.normalized0
        ++ collapse_slashes ("/" ++ path Sample.normalized0)
  ∧ no_double_slash (key Sample.normalized0) = true.
Proof.
  apply (parsed_tuple_shape Whatwg.newURL
           (JStr "https://github.com/octo/specs/blob/main/api.yaml")
           Sample.normalized0).
  vm_compute. reflexivity.
Defined.

Lemma key_identifies_the_file_witness :
  key Sample.normalized0
  = key {| owner := "octo"; repo := "specs"; branch := "main"; path := "/api.yaml";
           key := "octo/specs/main/api.yaml" |}
  ↔ owner Sample.normalized0 = "octo" ∧ repo Sample.normalized0 = "specs"
    ∧ branch Sample.normalized0 = "main"
    ∧ collapse_slashes (String slash (path Sample.normalized0))
      = collapse_slashes (String slash "/api.yaml").
Proof.
  apply (key_identifies_the_file Whatwg.newURL
           (JStr "https://github.com/octo/specs/blob/main/api.yaml")
           (JStr "https://raw.githubusercontent.com/octo/specs/main///api.yaml")).
  - vm_compute. reflexivity.
  - vm_compute. reflexivity.
Defined.

(** X12.  Spaces, tabs and line breaks before and after a link do not
    matter: whatever the URL constructor does, [parseGitHubUrl] gives for
    a non-empty text with such characters around it what it gives for the
    text alone. *)
Theorem space_around_the_link_is_ignored newURL w1 s w2 :
  all_chars is_ws1 w1 = true → all_chars is_ws1 w2 = true → non_empty s = true →
  parseGitHubUrl newURL (JStr (w1 ++ s ++ w2)) = parseGitHubUrl newURL (JStr s).
Proof.
  intros H1 H2 Hs.
  assert (non_empty (w1 ++ s ++ w2) = true) as Hne.
  { destruct w1; [|done]. destruct s; [done|reflexivity]. }
  destruct s as [|c s]; [done|].
  destruct (w1 ++ String c s ++ w2) as [|c' s'] eqn:E; [done|].
  unfold parseGitHubUrl. by rewrite <- E, TrimFacts.trim_ws.
Qed.

Lemma space_around_the_link_is_ignored_witness :
  parseGitHubUrl Whatwg.newURL
    (JStr ("  " ++ "https://github.com/octo/specs/blob/main/api.yaml"
             ++ String (ascii_of_nat 10) EmptyString))
  = parseGitHubUrl Whatwg.newURL
      (JStr "https://github.com/octo/specs/blob/main/api.yaml").
Proof.
  apply (space_around_the_link_is_ignored Whatwg.newURL "  "
           "https://github.com/octo/specs/blob/main/api.yaml"
           (String (ascii_of_nat 10) EmptyString)); reflexivity.
Defined.

(** *** The query string and the hash *)

Lemma ends_path_cases c : ends_path c = true → c = "?"%char ∨ c = "#"%char.
Proof.
  unfold ends_path, is_char, code. intros [H|H]%orb_true_iff; apply Nat.eqb_eq in H;
    rewrite <- (ascii_nat_embedding c), H; auto.
Qed.

Lemma ends_path_facts c :
  ends_path c = true →
  is_ws1 c = false ∧ Whatwg.is_c0_or_space c = false
  ∧ Whatwg.is_tab_or_newline c = false
  ∧ (is_slash c || is_char 92 c) = false
  ∧ (is_char 63 c || is_char 35 c) = true
  ∧ (∀ x, is_ws2 x c = false) ∧ (∀ x, is_ws2 c x = false)
  ∧ (∀ x y, is_ws3 x y c = false) ∧ (∀ x y, is_ws3 x c y = false)
  ∧ (∀ x y, is_ws3 c x y = false).
Proof.
  intros [->| ->]%ends_path_cases; repeat split; try reflexivity; intros;
    unfold is_ws2, is_ws3; simpl; by rewrite ?andb_false_r.
Qed.

(** The scan for white space from the end stops at [?] and [#]. *)
Lemma drop_ws_rev_stops lq c rest :
  ends_path c = true →
  ∃ lq', drop_ws_rev (lq ++ c :: rest) = (lq' ++ c :: rest)%list.
Proof.
  intros (H1 & _ & _ & _ & _ & H2 & H2' & H3 & H3' & H3'')%ends_path_facts.
  assert (∀ n lq, (length lq ≤ n)%nat →
            ∃ lq', drop_ws_rev (lq ++ c :: rest) = (lq' ++ c :: rest)%list) as H;
    [|by apply (H (length lq))].
  clear lq. induction n as [|n IH]; intros lq Hn.
  { destruct lq; [|simpl in Hn; lia]. exists []. cbn [app]. rewrite drop_ws_rev_cons, H1.
    destruct rest as [|c2 [|c3 r3]]; by rewrite ?H2, ?H3. }
  destruct lq as [|x1 lq]; [apply (IH []); simpl; lia|]. cbn [length] in Hn.
  cbn [app]. rewrite drop_ws_rev_cons.
  destruct (is_ws1 x1); [apply IH; lia|].
  destruct lq as [|x2 lq]; cbn [app].
  { rewrite H2'. destruct rest as [|c3 r3]; [by exists [x1]|]. rewrite H3'. by exists [x1]. }
  cbn [length] in Hn.
  destruct (is_ws2 x2 x1); [apply IH; lia|].
  destruct lq as [|x3 lq]; cbn [app].
  { rewrite H3''. by exists [x1; x2]. }
  cbn [length] in Hn.
  destruct (is_ws3 x3 x2 x1); [apply IH; lia|]. by exists (x1 :: x2 :: x3 :: lq).
Qed.

Lemma trimEnd_stops x c q :
  ends_path c = true → ∃ q', trimEnd (x ++ String c q) = x ++ String c q'.
Proof.
  intros Hc. unfold trimEnd. rewrite list_of_append. cbn [list_ascii_of_string].
  rewrite rev_app_distr. cbn [rev]. rewrite <- app_assoc. cbn [app].
  destruct (drop_ws_rev_stops (rev (list_ascii_of_string q)) c
              (rev (list_ascii_of_string x)) Hc) as [lq' ->].
  exists (string_of_list_ascii (rev lq')).
  rewrite rev_app_distr. cbn [rev]. rewrite rev_involutive, <- app_assoc. cbn [app].
  apply list_of_string_inj.
  rewrite list_ascii_of_string_of_list_ascii, list_of_append. cbn [list_ascii_of_string].
  by rewrite list_ascii_of_string_of_list_ascii.
Qed.

Lemma drop_c0_space_stops lq c rest :
  Whatwg.is_c0_or_space c = false →
  ∃ lq', Whatwg.drop_c0_space (lq ++ c :: rest) = (lq' ++ c :: rest)%list.
Proof.
  intros Hc. induction lq as [|x lq [lq' IH]]; cbn [app Whatwg.drop_c0_space].
  - exists []. by rewrite Hc.
  - destruct (Whatwg.is_c0_or_space x); [by exists lq'|by exists (x :: lq)].
Qed.

Lemma strip_c0_space_stops h x c q :
  Whatwg.is_c0_or_space h = false → ends_path c = true →
  ∃ q', Whatwg.strip_c0_space (String h (x ++ String c q)) = String h (x ++ String c q').
Proof.
  intros Hh (_ & Hc & _)%ends_path_facts. unfold Whatwg.strip_c0_space.
  cbn [list_ascii_of_string Whatwg.drop_c0_space]. rewrite Hh.
  rewrite list_of_append. cbn [list_ascii_of_string rev].
  rewrite rev_app_distr. cbn [rev]. rewrite <- !app_assoc. cbn [app].
  destruct (drop_c0_space_stops (rev (list_ascii_of_string q)) c
              (rev (list_ascii_of_string x) ++ [h]) Hc) as [lq' ->].
  exists (string_of_list_ascii (rev lq')).
  rewrite rev_app_distr. cbn [rev]. rewrite rev_app_distr, rev_involutive. cbn [rev app].
  rewrite <- app_assoc. cbn [app].
  apply list_of_string_inj.
  rewrite list_ascii_of_string_of_list_ascii. cbn [list_ascii_of_string].
  rewrite list_of_append. cbn [list_ascii_of_string].
  by rewrite list_ascii_of_string_of_list_ascii.
Qed.

(** The path state stops at [?] and [#]. *)
Lemma path_state_stops t c q : ∀ path buf,
  all_chars path_char t = true → ends_path c = true →
  Whatwg.path_state path buf (t ++ String c q) = Whatwg.path_state path buf t.
Proof.
  induction t as [|x t IH]; intros path buf Hall Hc.
  - apply ends_path_facts in Hc as (_ & _ & _ & H1 & H2 & _). simpl.
    by rewrite H1, H2.
  - rewrite all_chars_cons in Hall. apply andb_true_iff in Hall as [Hx Hall].
    pose proof (path_char_facts x Hx) as (_ & Hbs & Hq & Hh).
    cbn [String.append Whatwg.path_state]. rewrite Hq, Hh. cbn [orb].
    destruct (is_slash x || is_char 92 x); by rewrite IH.
Qed.

Lemma remove_tab_newline_stops t c q :
  all_chars path_char t = true → ends_path c = true →
  ∃ q', Whatwg.remove_tab_newline (t ++ String c q) = t ++ String c q'.
Proof.
  intros Ht (_ & _ & Hc & _)%ends_path_facts.
  rewrite remove_tab_newline_append, remove_tab_newline_id by done.
  simpl. rewrite Hc. by eexists.
Qed.

Lemma trim_github_stops t c q :
  ends_path c = true →
  ∃ q', trim ("https://github.com/" ++ t ++ String c q)
        = "https://github.com/" ++ t ++ String c q'.
Proof.
  intros Hc. unfold trim.
  change (trimStart ("https://github.com/" ++ t ++ String c q))
    with ("https://github.com/" ++ t ++ String c q).
  destruct (trimEnd_stops ("https://github.com/" ++ t) c q Hc) as [q' Hq].
  exists q'. by rewrite <- !append_assoc.
Qed.

Lemma trim_raw_stops t c q :
  ends_path c = true →
  ∃ q', trim ("https://raw.githubusercontent.com/" ++ t ++ String c q)
        = "https://raw.githubusercontent.com/" ++ t ++ String c q'.
Proof.
  intros Hc. unfold trim.
  change (trimStart ("https://raw.githubusercontent.com/" ++ t ++ String c q))
    with ("https://raw.githubusercontent.com/" ++ t ++ String c q).
  destruct (trimEnd_stops ("https://raw.githubusercontent.com/" ++ t) c q Hc) as [q' Hq].
  exists q'. by rewrite <- !append_assoc.
Qed.

Lemma newURL_github_stops t c q :
  url_tail t → ends_path c = true →
  Whatwg.newURL ("https://github.com/" ++ t ++ String c q)
  = Whatwg.newURL ("https://github.com/" ++ t).
Proof.
  intros Ht Hc. rewrite (newURL_github t Ht). destruct Ht as (Hne & Hall & Hdots & Hce).
  unfold Whatwg.newURL.
  change ("https://github.com/" ++ t ++ String c q)
    with (String "h" (("ttps://github.com/" ++ t) ++ String c q)).
  destruct (strip_c0_space_stops "h" ("ttps://github.com/" ++ t) c q eq_refl Hc) as [q1 ->].
  change (String "h" (("ttps://github.com/" ++ t) ++ String c q1))
    with ("https://github.com/" ++ (t ++ String c q1)).
  rewrite remove_tab_newline_append.
  destruct (remove_tab_newline_stops t c q1 Hall Hc) as [q2 ->].
  change (Whatwg.remove_tab_newline "https://github.com/") with "https://github.com/".
  simpl. rewrite path_state_stops by done. f_equal. f_equal.
  apply pathname_encodes. by repeat split.
Qed.

Lemma newURL_raw_stops t c q :
  url_tail t → ends_path c = true →
  Whatwg.newURL ("https://raw.githubusercontent.com/" ++ t ++ String c q)
  = Whatwg.newURL ("https://raw.githubusercontent.com/" ++ t).
Proof.
  intros Ht Hc. rewrite (newURL_raw t Ht). destruct Ht as (Hne & Hall & Hdots & Hce).
  unfold Whatwg.newURL.
  change ("https://raw.githubusercontent.com/" ++ t ++ String c q)
    with (String "h" (("ttps://raw.githubusercontent.com/" ++ t) ++ String c q)).
  destruct (strip_c0_space_stops "h" ("ttps://raw.githubusercontent.com/" ++ t) c q
              eq_refl Hc) as [q1 ->].
  change (String "h" (("ttps://raw.githubusercontent.com/" ++ t) ++ String c q1))
    with ("https://raw.githubusercontent.com/" ++ (t ++ String c q1)).
  rewrite remove_tab_newline_append.
  destruct (remove_tab_newline_stops t c q1 Hall Hc) as [q2 ->].
  change (Whatwg.remove_tab_newline "https://raw.githubusercontent.com/")
    with "https://raw.githubusercontent.com/".
  simpl. rewrite path_state_stops by done. f_equal. f_equal.
  apply pathname_encodes. by repeat split.
Qed.

(** The parser reads a text through what is left of it after [trim] and
    the [try] block. *)
Lemma parse_by_trimmed newURL s1 s2 :
  non_empty s1 = true → non_empty s2 = true →
  strip_query_and_hash newURL (trim s1) = strip_query_and_hash newURL (trim s2) →
  parseGitHubUrl newURL (JStr s1) = parseGitHubUrl newURL (JStr s2).
Proof.
  destruct s1, s2; try done. intros _ _ H. unfold parseGitHubUrl. by rewrite H.
Qed.

(** X3.  A query string or a hash after a blob or raw URL is ignored: for
    an owner, a repo and a branch that are [url_name]s and a path that is
    a [url_path], the URL followed by [?] or [#] and any text parses to
    what the URL alone parses to. *)
Theorem query_and_hash_are_ignored o r b p c q :
  url_name o = true → url_name r = true → url_name b = true → url_path p = true →
  ends_path c = true →
  parseGitHubUrl Whatwg.newURL (JStr (blob_form o r b p ++ String c q))
  = parseGitHubUrl Whatwg.newURL (JStr (blob_form o r b p))
  ∧ parseGitHubUrl Whatwg.newURL (JStr (raw_form o r b p ++ String c q))
    = parseGitHubUrl Whatwg.newURL (JStr (raw_form o r b p)).
Proof.
  intros Ho Hr Hb Hp Hc.
  assert (url_name "blob" = true) as Hblob by reflexivity.
  pose proof (url_tail_path p Hp) as Tp.
  pose proof (url_tail_name b p Hb Tp) as Tb.
  pose proof (url_tail_name r _ Hr Tb) as Trb.
  pose proof (url_tail_name o _ Ho Trb) as Traw.
  pose proof (url_tail_name "blob" _ Hblob Tb) as Tbb.
  pose proof (url_tail_name r _ Hr Tbb) as Trbb.
  pose proof (url_tail_name o _ Ho Trbb) as Tblob.
  split; apply parse_by_trimmed; try done.
  - rewrite blob_form_tail, append_assoc.
    match goal with
    | |- context [trim ("https://github.com/" ++ ?t ++ String c q)] =>
        destruct (trim_github_stops t c q Hc) as [q' ->]
    end.
    rewrite (trim_github _ Tblob). unfold strip_query_and_hash.
    by rewrite newURL_github_stops, (newURL_github _ Tblob).
  - rewrite raw_form_tail, append_assoc.
    match goal with
    | |- context [trim ("https://raw.githubusercontent.com/" ++ ?t ++ String c q)] =>
        destruct (trim_raw_stops t c q Hc) as [q' ->]
    end.
    rewrite (trim_raw _ Traw). unfold strip_query_and_hash.
    by rewrite newURL_raw_stops, (newURL_raw _ Traw).
Qed.

Lemma query_and_hash_are_ignored_witness :
  parseGitHubUrl Whatwg.newURL
    (JStr (blob_form "octo" "specs" "main" "api.yaml" ++ String "?" "raw=true "))
  = parseGitHubUrl Whatwg.newURL (JStr (blob_form "octo" "specs" "main" "api.yaml"))
  ∧ parseGitHubUrl Whatwg.newURL
      (JStr (raw_form "octo" "specs" "main" "api.yaml" ++ String "?" "raw=true "))
    = parseGitHubUrl Whatwg.newURL (JStr (raw_form "octo" "specs" "main" "api.yaml")).
Proof.
  apply (query_and_hash_are_ignored "octo" "specs" "main" "api.yaml" "?" "raw=true ");
    reflexivity.
Defined.

(** *** The scheme and [www.] *)

Ltac each_origin H :=
  unfold blob_origins, raw_origins in H; cbn [app] in H;
  repeat (apply elem_of_cons in H as [->|H]); [..|by apply elem_of_nil in H].

Lemma blobMatch_origin org o r b p :
  org ∈ blob_origins →
  shaped (o, r, b, p) → all_chars line_safe p = true →
  rawMatch (org ++ String slash (o ++ String slash (r ++ String slash
              ("blob" ++ String slash (b ++ String slash p))))) = None
  ∧ blobMatch (org ++ String slash (o ++ String slash (r ++ String slash
                ("blob" ++ String slash (b ++ String slash p))))) = Some (o, r, b, p).
Proof.
  intros Horg ([? ?] & [? ?] & [? ?] & ?) Hp.
  each_origin Horg.
  all: split; [reflexivity|].
  all: unfold blobMatch; simpl; unfold optional_ci; simpl.
  all: rewrite (segment_name o) by done; simpl.
  all: rewrite (segment_name r) by done; simpl.
  all: rewrite (segment_name b) by done; simpl.
  all: by rewrite dot_plus_end_rest.
Qed.

Lemma rawMatch_origin org o r b p :
  org ∈ raw_origins →
  shaped (o, r, b, p) → all_chars line_safe p = true →
  rawMatch (org ++ String slash (o ++ String slash (r ++ String slash (b ++ String slash p))))
  = Some (o, r, b, p).
Proof.
  intros Horg ([? ?] & [? ?] & [? ?] & ?) Hp.
  each_origin Horg.
  all: unfold rawMatch; simpl; unfold optional_ci; simpl.
  all: rewrite (segment_name o) by done; simpl.
  all: rewrite (segment_name r) by done; simpl.
  all: rewrite (segment_name b) by done; simpl.
  all: by rewrite dot_plus_end_rest.
Qed.

Lemma trim_origin org t :
  org ∈ (blob_origins ++ raw_origins)%list → url_tail t →
  trim (org ++ String slash t) = org ++ String slash t.
Proof.
  intros Horg (Hne & _ & _ & Hc). unfold trim. each_origin Horg.
  all: match goal with
       | |- trimEnd (trimStart ?s) = _ => change (trimStart s) with s
       end.
  all: by apply trimEnd_slash.
Qed.

Lemma newURL_origin org t :
  org ∈ (blob_origins ++ raw_origins)%list → url_tail t →
  Whatwg.newURL (org ++ String slash t)
  = Some {| Whatwg.origin := org; Whatwg.pathname := String slash (url_encode t) |}.
Proof.
  intros Horg Ht. pose proof Ht as (Hne & Hall & _ & Hc). unfold Whatwg.newURL.
  each_origin Horg.
  all: match goal with
       | |- context [Whatwg.strip_c0_space (String ?h ?pre ++ String slash ?x)] =>
           change (String h pre ++ String slash x) with (String h ((pre ++ "/") ++ x));
           rewrite (strip_c0_space_id x h (pre ++ "/")) by done;
           change (String h ((pre ++ "/") ++ x)) with (String h (pre ++ "/") ++ x);
           rewrite (remove_tab_newline_append (String h (pre ++ "/")) x),
             (remove_tab_newline_id x) by done
       end.
  all: simpl; by rewrite pathname_encodes.
Qed.

(** X4.  For an owner, a repo and a branch that are [url_name]s and a
    path that is a [url_path], a blob link written with [http] or [https]
    and with or without [www.] parses to what the [https://github.com]
    link parses to, and a raw link written with [http] parses to what the
    [https] one parses to: the tuple and its key do not depend on the
    scheme or on [www.]. *)
Theorem scheme_and_www_do_not_matter org o r b p :
  url_name o = true → url_name r = true → url_name b = true → url_path p = true →
  (org ∈ blob_origins →
   parseGitHubUrl Whatwg.newURL
     (JStr (org ++ "/" ++ o ++ "/" ++ r ++ "/blob/" ++ b ++ "/" ++ p))
   = parseGitHubUrl Whatwg.newURL (JStr (blob_form o r b p)))
  ∧ (org ∈ raw_origins →
     parseGitHubUrl Whatwg.newURL
       (JStr (org ++ "/" ++ o ++ "/" ++ r ++ "/" ++ b ++ "/" ++ p))
     = parseGitHubUrl Whatwg.newURL (JStr (raw_form o r b p))).
Proof.
  intros Ho Hr Hb Hp.
  assert (url_name "blob" = true) as Hblob by reflexivity.
  pose proof (url_tail_path p Hp) as Tp.
  pose proof (url_tail_name b p Hb Tp) as Tb.
  pose proof (url_tail_name r _ Hr Tb) as Trb.
  pose proof (url_tail_name o _ Ho Trb) as Traw.
  pose proof (url_tail_name "blob" _ Hblob Tb) as Tbb.
  pose proof (url_tail_name r _ Hr Tbb) as Trbb.
  pose proof (url_tail_name o _ Ho Trbb) as Tblob.
  assert (shaped (url_encode o, url_encode r, url_encode b, url_encode p)) as Hsh.
  { repeat split; try (by apply url_name_shape).
    apply url_encode_non_empty. by destruct Tp. }
  assert (∀ org, org ∈ blob_origins →
     parseGitHubUrl Whatwg.newURL
       (JStr (org ++ String slash (o ++ String slash (r ++ String slash
                ("blob" ++ String slash (b ++ String slash p))))))
     = Some (normalized_of (url_encode o, url_encode r, url_encode b, url_encode p)))
    as Hblobs.
  { intros org' Horg.
    assert (org' ∈ (blob_origins ++ raw_origins)%list) as Hall
      by (apply elem_of_app; by left).
    eapply parse_trimmed.
    - each_origin Horg; reflexivity.
    - rewrite (trim_origin _ _ Hall Tblob). apply (newURL_origin _ _ Hall Tblob).
    - cbn [Whatwg.origin Whatwg.pathname].
      repeat first [rewrite url_encode_append | rewrite url_encode_slash].
      change (url_encode "blob") with "blob".
      destruct (blobMatch_origin org' (url_encode o) (url_encode r) (url_encode b)
                  (url_encode p) Horg Hsh (url_encode_line_safe p)) as [-> ->]. done. }
  assert (∀ org, org ∈ raw_origins →
     parseGitHubUrl Whatwg.newURL
       (JStr (org ++ String slash (o ++ String slash (r ++ String slash
                (b ++ String slash p)))))
     = Some (normalized_of (url_encode o, url_encode r, url_encode b, url_encode p)))
    as Hraws.
  { intros org' Horg.
    assert (org' ∈ (blob_origins ++ raw_origins)%list) as Hall
      by (apply elem_of_app; by right).
    eapply parse_trimmed.
    - each_origin Horg; reflexivity.
    - rewrite (trim_origin _ _ Hall Traw). apply (newURL_origin _ _ Hall Traw).
    - cbn [Whatwg.origin Whatwg.pathname].
      repeat first [rewrite url_encode_append | rewrite url_encode_slash].
      by rewrite (rawMatch_origin org' _ _ _ _ Horg Hsh (url_encode_line_safe p)). }
  split; intros Horg.
  - rewrite blob_form_tail.
    change ("https://github.com/" ++ ?t) with ("https://github.com" ++ String slash t).
    rewrite (Hblobs "https://github.com") by apply list_elem_of_here.
    exact (Hblobs org Horg).
  - rewrite raw_form_tail.
    change ("https://raw.githubusercontent.com/" ++ ?t)
      with ("https://raw.githubusercontent.com" ++ String slash t).
    rewrite (Hraws "https://raw.githubusercontent.com") by apply list_elem_of_here.
    exact (Hraws org Horg).
Qed.

Lemma scheme_and_www_do_not_matter_witness :
  parseGitHubUrl Whatwg.newURL
    (JStr ("http://www.github.com" ++ "/" ++ "octo" ++ "/" ++ "specs" ++ "/blob/"
             ++ "main" ++ "/" ++ "api.yaml"))
  = parseGitHubUrl Whatwg.newURL (JStr (blob_form "octo" "specs" "main" "api.yaml")).
Proof.
  apply (proj1 (scheme_and_www_do_not_matter "http://www.github.com"
                  "octo" "specs" "main" "api.yaml" eq_refl eq_refl eq_refl eq_refl)).
  unfold blob_origins. do 3 apply list_elem_of_further. apply list_elem_of_here.
Defined.

(** *** Pages that are no blob *)

Lemma char_eq_ci_slash p : char_eq_ci p slash = true → p = slash.
Proof.
  intros H. assert (implb (char_eq_ci p slash) (Ascii.eqb p slash) = true) as Hi.
  { revert p H. intros p _. revert p. apply all_ascii. vm_compute. reflexivity. }
  rewrite H in Hi. by apply Ascii.eqb_eq.
Qed.

(** A literal that holds no slash matches, before a slash, a whole name
    only. *)
Lemma strip_ci_name lit x rest rest' :
  no_slash lit = true → no_slash x = true →
  strip_ci (lit ++ "/") (x ++ String slash rest) = Some rest' →
  Whatwg.eq_ci lit x = true.
Proof.
  unfold Whatwg.eq_ci. revert x. induction lit as [|pc lit IH]; intros x Hl Hx.
  - destruct x as [|c x]; [done|]. rewrite no_slash_cons in Hx.
    apply andb_true_iff in Hx as [Hc%negb_true_iff _]. simpl.
    destruct (char_eq_ci "/" c) eqn:E; [|done].
    unfold char_eq_ci in E. apply Ascii.eqb_eq in E.
    assert (char_eq_ci c slash = true) as ->%char_eq_ci_slash.
    { unfold char_eq_ci. apply Ascii.eqb_eq. by rewrite <- E. }
    done.
  - rewrite no_slash_cons in Hl. apply andb_true_iff in Hl as [Hp%negb_true_iff Hl].
    destruct x as [|c x]; simpl.
    + destruct (char_eq_ci pc slash) eqn:E; [|by intros ?].
      apply char_eq_ci_slash in E. subst pc. discriminate Hp.
    + rewrite no_slash_cons in Hx. apply andb_true_iff in Hx as [_ Hx].
      destruct (char_eq_ci pc c); [|done]. by apply IH.
Qed.

Lemma parse_refused newURL s u :
  non_empty s = true →
  newURL (trim s) = Some u →
  rawMatch (Whatwg.origin u ++ Whatwg.pathname u) = None →
  blobMatch (Whatwg.origin u ++ Whatwg.pathname u) = None →
  parseGitHubUrl newURL (JStr s) = None.
Proof.
  intros Hne Hu Hr Hb. destruct s as [|c s]; [done|].
  unfold parseGitHubUrl, strip_query_and_hash. by rewrite Hu, Hr, Hb.
Qed.

(** X5.  A [github.com] link, written with [http] or [https] and with or
    without [www.], whose third segment is not [blob] (in any letter
    case), such as a [tree], [raw], [blame] or [edit] page, is refused:
    [parseGitHubUrl] returns [null] for it. *)
Theorem other_pages_are_refused org o r x b p :
  org ∈ blob_origins →
  url_name o = true → url_name r = true → url_name x = true → url_name b = true →
  url_path p = true →
  Whatwg.eq_ci "blob" (url_encode x) = false →
  parseGitHubUrl Whatwg.newURL
    (JStr (org ++ "/" ++ o ++ "/" ++ r ++ "/" ++ x ++ "/" ++ b ++ "/" ++ p))
  = None.
Proof.
  intros Horg Ho Hr Hx Hb Hp Hnot.
  pose proof (url_tail_path p Hp) as Tp.
  pose proof (url_tail_name b p Hb Tp) as Tb.
  pose proof (url_tail_name x _ Hx Tb) as Tx.
  pose proof (url_tail_name r _ Hr Tx) as Tr.
  pose proof (url_tail_name o _ Ho Tr) as To.
  change (org ++ "/" ++ o ++ "/" ++ r ++ "/" ++ x ++ "/" ++ b ++ "/" ++ p)
    with (org ++ String slash (o ++ String slash (r ++ String slash
            (x ++ String slash (b ++ String slash p))))).
  destruct (url_name_shape o Ho) as [Ho1 Ho2], (url_name_shape r Hr) as [Hr1 Hr2],
    (url_name_shape x Hx) as [Hx1 Hx2].
  assert (org ∈ (blob_origins ++ raw_origins)%list) as Hall
    by (apply elem_of_app; by left).
  eapply parse_refused.
  - each_origin Horg; reflexivity.
  - rewrite (trim_origin _ _ Hall To). apply (newURL_origin _ _ Hall To).
  - each_origin Horg; reflexivity.
  - cbn [Whatwg.origin Whatwg.pathname].
    repeat first [rewrite url_encode_append | rewrite url_encode_slash].
    unfold blobMatch. set (blob_literal := strip_ci "blob/").
    each_origin Horg.
    all: simpl; unfold optional_ci; simpl.
    all: rewrite (segment_name (url_encode o)) by done; simpl.
    all: rewrite (segment_name (url_encode r)) by done; simpl.
    all: destruct (blob_literal _) as [rest'|] eqn:E; [|done].
    all: apply (strip_ci_name "blob") in E; [congruence|done|done].
Qed.

Lemma other_pages_are_refused_witness :
  parseGitHubUrl Whatwg.newURL
    (JStr ("http://www.github.com" ++ "/" ++ "octo" ++ "/" ++ "specs" ++ "/" ++ "tree"
             ++ "/" ++ "main" ++ "/" ++ "docs"))
  = None.
Proof.
  apply (other_pages_are_refused "http://www.github.com" "octo" "specs" "tree" "main"
           "docs"); try reflexivity.
  unfold blob_origins. do 3 apply list_elem_of_further. apply list_elem_of_here.
Defined.

End ParserFacts.

(** ** buildContentsUrl *)

Module EncodeFacts.
Import Js GitHub Spec StringFacts UrlFacts.

Lemma encode_char_facts c :
  decode_percent (encode_char c) = String c EmptyString
  ∧ non_empty (encode_char c) = true
  ∧ no_slash (encode_char c) = true
  ∧ no_char 63 (encode_char c) = true
  ∧ (uri_unreserved c = true → is_char 37 c = false).
Proof.
  assert ((String.eqb (decode_percent (encode_char c)) (String c EmptyString)
           && non_empty (encode_char c) && no_slash (encode_char c)
           && no_char 63 (encode_char c)
           && implb (uri_unreserved c) (negb (is_char 37 c))) = true) as H.
  { revert c. apply all_ascii. vm_compute. reflexivity. }
  apply andb_true_iff in H as [[[[H1%String.eqb_eq H2]%andb_true_iff H3]%andb_true_iff
    H4]%andb_true_iff H5].
  repeat split; try done. intros Hu. rewrite Hu in H5. by apply negb_true_iff.
Qed.

Lemma decode_encode_char c r :
  decode_percent (encode_char c ++ r) = String c (decode_percent r).
Proof.
  destruct (encode_char_facts c) as (Hd & _ & _ & _ & Hu).
  unfold encode_char in *. destruct (uri_unreserved c) eqn:E.
  - simpl. by rewrite Hu.
  - unfold percent_byte in *. simpl in *. by injection Hd as ->.
Qed.

Lemma decode_encode s : decode_percent (encodeURIComponent s) = s.
Proof.
  induction s as [|c s IH]; [done|]. cbn [encodeURIComponent].
  fold (encode_char c). by rewrite decode_encode_char, IH.
Qed.

Lemma encode_no_slash s : no_slash (encodeURIComponent s) = true.
Proof.
  induction s as [|c s IH]; [done|]. cbn [encodeURIComponent]. fold (encode_char c).
  rewrite no_slash_append, IH. by destruct (encode_char_facts c) as (_ & _ & -> & _).
Qed.

Lemma encode_no_question s : no_char 63 (encodeURIComponent s) = true.
Proof.
  induction s as [|c s IH]; [done|]. cbn [encodeURIComponent]. fold (encode_char c).
  destruct (encode_char_facts c) as (_ & _ & _ & H & _).
  unfold no_char in *. by rewrite all_chars_append, IH, H.
Qed.

Lemma join_slash_cons x l :
  join_slash (x :: l)
  = match l with
    | [] => x
    | _ :: _ => x ++ String slash (join_slash l)
    end.
Proof. by destruct l. Qed.

(** [path.split('/').map(encodeURIComponent).join('/')] *)
Lemma encoded_path p :
  join_slash (map encodeURIComponent (split_slash p)) = encode_keeping_slash p.
Proof.
  induction p as [|c p IH]; [done|]. cbn [split_slash encode_keeping_slash].
  pose proof (split_slash_nonempty p) as Hne.
  destruct (is_slash c) eqn:Hc.
  - apply is_slash_eq in Hc as ->. cbn [map]. rewrite join_slash_cons.
    destruct (split_slash p) as [|seg segs]; [done|]. cbn [map] in *. by rewrite IH.
  - destruct (split_slash p) as [|seg segs]; [done|]. cbn [map] in *.
    rewrite join_slash_cons in *. cbn [encodeURIComponent]. fold (encode_char c).
    destruct segs; cbn [map] in *; rewrite <- IH; [done|]. by rewrite append_assoc.
Qed.

(** The round trip of [split] and [join]. *)
Lemma join_split p : join_slash (split_slash p) = p.
Proof.
  induction p as [|c p IH]; [done|]. cbn [split_slash].
  pose proof (split_slash_nonempty p) as Hne.
  destruct (is_slash c) eqn:Hc.
  - apply is_slash_eq in Hc as ->. rewrite join_slash_cons.
    destruct (split_slash p); [done|]. by rewrite IH.
  - destruct (split_slash p) as [|seg segs]; [done|].
    rewrite join_slash_cons in *. destruct segs; by rewrite <- IH.
Qed.

Lemma decode_keeping_slash p : decode_percent (encode_keeping_slash p) = p.
Proof.
  induction p as [|c p IH]; [done|]. cbn [encode_keeping_slash].
  destruct (is_slash c) eqn:Hc.
  - apply is_slash_eq in Hc as ->. simpl. by rewrite IH.
  - by rewrite decode_encode_char, IH.
Qed.

Lemma keeping_slash_no_question p : no_char 63 (encode_keeping_slash p) = true.
Proof.
  induction p as [|c p IH]; [done|]. cbn [encode_keeping_slash].
  destruct (encode_char_facts c) as (_ & _ & _ & H & _).
  unfold no_char in *. rewrite all_chars_append, IH, andb_true_r.
  destruct (is_slash c) eqn:Hc; [|done].
  apply is_slash_eq in Hc as ->. reflexivity.
Qed.

Lemma append_inj_l (a x y : string) : a ++ x = a ++ y → x = y.
Proof. induction a as [|c a IH]; simpl; [done|]. intros [= H]. by apply IH. Qed.

(** Two texts without [?], each followed by [?] and more: the [?] is found
    at one place. *)
Lemma split_at_question a b x y :
  no_char 63 a = true → no_char 63 b = true →
  a ++ String "?" x = b ++ String "?" y → a = b ∧ x = y.
Proof.
  unfold no_char. revert b. induction a as [|c a IH]; intros [|c' b]; simpl.
  - by intros _ _ [= ->].
  - intros _ [Hc _]%andb_true_iff [= <- _]. done.
  - intros [Hc _]%andb_true_iff _ [= -> _]. done.
  - intros [_ Ha]%andb_true_iff [_ Hb]%andb_true_iff [= -> H].
    destruct (IH _ Ha Hb H) as [-> ->]. done.
Qed.

Lemma buildContentsUrl_inj n1 n2 :
  owner n1 = owner n2 → repo n1 = repo n2 →
  buildContentsUrl n1 = buildContentsUrl n2 →
  path n1 = path n2 ∧ branch n1 = branch n2.
Proof.
  intros Ho Hr. unfold buildContentsUrl, repo_url. rewrite Ho, Hr, !encoded_path.
  rewrite !append_assoc.
  intros H. do 6 apply append_inj_l in H.
  change ("?ref=" ++ ?x) with (String "?" ("ref=" ++ x)) in H.
  apply split_at_question in H as [Hp Hb]; [|apply keeping_slash_no_question..].
  apply append_inj_l in Hb. split.
  - by rewrite <- (decode_keeping_slash (path n1)), Hp, decode_keeping_slash.
  - by rewrite <- (decode_encode (branch n1)), Hb, decode_encode.
Qed.

Lemma encode_unreserved s :
  all_chars uri_unreserved s = true → encodeURIComponent s = s.
Proof.
  induction s as [|c s IH]; [done|]. rewrite all_chars_cons.
  intros [Hc Hs]%andb_true_iff. simpl. by rewrite Hc, IH.
Qed.

Lemma keeping_slash_unreserved p :
  all_chars unreserved_or_slash p = true → encode_keeping_slash p = p.
Proof.
  induction p as [|c p IH]; [done|]. rewrite all_chars_cons.
  intros [Hc Hs]%andb_true_iff. simpl. rewrite IH by done.
  destruct (is_slash c) eqn:E; [done|]. unfold encode_char.
  unfold unreserved_or_slash in Hc. rewrite E, orb_false_r in Hc. by rewrite Hc.
Qed.

Lemma hex_is_unreserved c : is_hex c = true → uri_unreserved c = true.
Proof.
  intros H. assert (implb (is_hex c) (uri_unreserved c) = true) as Hi.
  { revert c H. intros c _. revert c. apply all_ascii. vm_compute. reflexivity. }
  by rewrite H in Hi.
Qed.

Lemma sha_is_unreserved ref : isCommitSha ref = true → all_chars uri_unreserved ref = true.
Proof.
  unfold isCommitSha, all_chars. intros [_ H]%andb_true_iff.
  rewrite forallb_forall in *. intros c Hc. by apply hex_is_unreserved, H.
Qed.

(** X6.  When the path holds only letters, digits, [- _ . ! ~ * ' ( )]
    and slashes, and the branch only such characters without the slash (a
    commit SHA is such a branch), [buildContentsUrl] writes them into the
    URL as they are:
    [https://api.github.com/repos/owner/repo/contents/path?ref=branch]. *)
Theorem plain_names_are_not_rewritten n :
  all_chars unreserved_or_slash (path n) = true →
  (all_chars uri_unreserved (branch n) = true ∨ isCommitSha (branch n) = true) →
  buildContentsUrl n
  = "https://api.github.com/repos/" ++ owner n ++ "/" ++ repo n ++ "/contents/"
      ++ path n ++ "?ref=" ++ branch n.
Proof.
  intros Hp Hb. unfold buildContentsUrl, repo_url, GITHUB_API_BASE.
  rewrite encoded_path, keeping_slash_unreserved by done.
  rewrite (encode_unreserved (branch n)).
  - by rewrite !append_assoc.
  - destruct Hb as [?|?]; [done|by apply sha_is_unreserved].
Qed.


Lemma contents_url_same_repo n1 n2 :
  owner n1 = owner n2 → repo n1 = repo n2 →
  (buildContentsUrl n1 = buildContentsUrl n2
   ↔ path n1 = path n2 ∧ branch n1 = branch n2).
Proof.
  intros Ho Hr. split; [by apply buildContentsUrl_inj|].
  intros [Hp Hb]. unfold buildContentsUrl, repo_url. by rewrite Ho, Hr, Hp, Hb.
Qed.

(** X7.  For one owner and repo, [buildContentsUrl] gives two tuples the
    same URL exactly when they have the same path and the same branch: no
    two files, and no two refs, share a contents URL. *)
Theorem contents_url_names_one_file n1 n2 :
  owner n1 = owner n2 → repo n1 = repo n2 →
  (buildContentsUrl n1 = buildContentsUrl n2
   ↔ path n1 = path n2 ∧ branch n1 = branch n2).
Proof.
  intros Ho Hr. split; [by apply buildContentsUrl_inj|].
  intros [Hp Hb]. unfold buildContentsUrl, repo_url. by rewrite Ho, Hr, Hp, Hb.
Qed.

Lemma url_encode_fixed s : url_encode s = s ↔ all_chars copied s = true.
Proof.
  induction s as [|c s IH]; [done|]. rewrite all_chars_cons. cbn [url_encode].
  unfold copied at 1. destruct (is_slash c) eqn:Hc.
  - simpl. rewrite <- IH. split; [by intros [= ?]|by intros ->].
  - unfold Whatwg.path_encode.
    destruct (Whatwg.in_path_percent_encode_set c) eqn:Hs; simpl.
    + split; [|done]. intros [= <- _]. done.
    + rewrite <- IH. split; [by intros [= ?]|by intros ->].
Qed.

Lemma parse_blob_form o r b p :
  url_name o = true → url_name r = true → url_name b = true → url_path p = true →
  parseGitHubUrl Whatwg.newURL (JStr (blob_form o r b p))
  = Some (normalized_of (url_encode o, url_encode r, url_encode b, url_encode p)).
Proof.
  intros Ho Hr Hb Hp.
  assert (url_name "blob" = true) as Hblob by reflexivity.
  pose proof (url_tail_path p Hp) as Tp.
  pose proof (url_tail_name b p Hb Tp) as Tb.
  pose proof (url_tail_name "blob" _ Hblob Tb) as Tbb.
  pose proof (url_tail_name r _ Hr Tbb) as Trbb.
  pose proof (url_tail_name o _ Ho Trbb) as Tblob.
  assert (shaped (url_encode o, url_encode r, url_encode b, url_encode p)) as Hsh.
  { repeat split; try (by apply url_name_shape).
    apply url_encode_non_empty. by destruct Tp. }
  eapply parse_trimmed.
  - reflexivity.
  - rewrite blob_form_tail, (trim_github _ Tblob). apply (newURL_github _ Tblob).
  - cbn [Whatwg.origin Whatwg.pathname].
    repeat first [rewrite url_encode_append | rewrite url_encode_slash].
    change (url_encode "blob") with "blob".
    change ("https://github.com" ++ String slash ?t) with ("https://github.com/" ++ t).
    rewrite <- blob_form_tail.
    change (rawMatch (blob_form _ _ _ _)) with (@None Groups).
    apply blobMatch_blob_form; [done|apply url_encode_line_safe].
Qed.

Lemma url_encode_head p :
  head_is_slash p = false → strip_leading_slash (url_encode p) = url_encode p.
Proof.
  destruct p as [|c p]; [done|]. simpl. intros Hc. rewrite Hc.
  destruct (path_encode_facts c Hc) as (Hne & Hns & _).
  destruct (Whatwg.path_encode c) as [|x e]; [done|]. simpl.
  rewrite no_slash_cons in Hns. apply andb_true_iff in Hns as [Hx%negb_true_iff _].
  by rewrite Hx.
Qed.

(** X8.  For a blob link of an owner, a repo and a branch that are
    [url_name]s and a path that is a [url_path] and does not start with a
    slash, the tuple holds the branch and the path as the
    URL constructor percent-encoded them, and [buildContentsUrl] encodes
    them once more.  The URL requested is the contents URL of the branch
    and path the link was written with exactly when neither holds a
    character that the URL constructor percent-encodes (a space, a
    quotation mark, [<], [>], a grave accent, a brace, a control
    character, a character outside ASCII): with such a character the
    request names another file.  Any other character, the circumflex
    among them, the constructor leaves as it is. *)
Theorem encoded_link_is_encoded_again o r b p n :
  url_name o = true → url_name r = true → url_name b = true → url_path p = true →
  head_is_slash p = false →
  parseGitHubUrl Whatwg.newURL (JStr (blob_form o r b p)) = Some n →
  branch n = url_encode b ∧ path n = url_encode p
  ∧ (buildContentsUrl n
     = buildContentsUrl {| owner := owner n; repo := repo n; branch := b; path := p;
                           key := key n |}
     ↔ all_chars copied b = true ∧ all_chars copied p = true).
Proof.
  intros Ho Hr Hb Hp Hh. rewrite parse_blob_form by done. intros [= <-].
  cbn [normalized_of branch path owner repo]. rewrite url_encode_head by done.
  split; [done|]. split; [done|].
  etrans; [apply contents_url_same_repo; reflexivity|]. cbn [branch path].
  rewrite <- !url_encode_fixed. by split; intros [? ?].
Qed.

Lemma contents_url_names_one_file_witness :
  buildContentsUrl Sample.normalized0 = buildContentsUrl Sample.pinned
  ↔ path Sample.normalized0 = path Sample.pinned
    ∧ branch Sample.normalized0 = branch Sample.pinned.
Proof.
  apply (contents_url_names_one_file Sample.normalized0 Sample.pinned); reflexivity.
Defined.

Lemma plain_names_are_not_rewritten_witness :
  buildContentsUrl Sample.pinned
  = "https://api.github.com/repos/" ++ owner Sample.pinned ++ "/" ++ repo Sample.pinned
      ++ "/contents/" ++ path Sample.pinned ++ "?ref=" ++ branch Sample.pinned.
Proof.
  apply (plain_names_are_not_rewritten Sample.pinned); [reflexivity|].
  right. reflexivity.
Defined.

Lemma encoded_link_is_encoded_again_witness :
  branch (normalized_of ("octo", "specs", "main", "docs/pet%20store.yaml"))
  = url_encode "main"
  ∧ path (normalized_of ("octo", "specs", "main", "docs/pet%20store.yaml"))
    = url_encode "docs/pet store.yaml"
  ∧ (buildContentsUrl (normalized_of ("octo", "specs", "main", "docs/pet%20store.yaml"))
     = buildContentsUrl
         {| owner := "octo"; repo := "specs"; branch := "main";
            path := "docs/pet store.yaml";
            key := key (normalized_of ("octo", "specs", "main", "docs/pet%20store.yaml")) |}
     ↔ all_chars copied "main" = true ∧ all_chars copied "docs/pet store.yaml" = true).
Proof.
  apply (encoded_link_is_encoded_again "octo" "specs" "main" "docs/pet store.yaml"
           (normalized_of ("octo", "specs", "main", "docs/pet%20store.yaml")));
    reflexivity.
Defined.

End EncodeFacts.

(** ** fetchYamlFromGitHub *)

Module FetchFacts.
Import Js Http GitHub Fetching Spec StringFacts.

Lemma api_of_contents n h :
  api_of n {| url := buildContentsUrl n; headers := h |} = ContentsApi.
Proof. unfold api_of, buildContentsUrl. cbn [url]. by rewrite strip_prefix_app. Qed.

Lemma api_of_commit n h x :
  api_of n {| url := commit_url n x; headers := h |} = GitCommits.
Proof. unfold api_of, commit_url. cbn [url]. by rewrite strip_prefix_app. Qed.

Lemma api_of_tree n h x :
  api_of n {| url := tree_url n x; headers := h |} = GitTrees.
Proof. unfold api_of, tree_url. cbn [url]. by rewrite strip_prefix_app. Qed.

Lemma api_of_blob n h x :
  api_of n {| url := blob_url n x; headers := h |} = GitBlobs.
Proof. unfold api_of, blob_url. cbn [url]. by rewrite strip_prefix_app. Qed.

(** No Git Data call is the Contents call again. *)
Lemma prefix_no_contents (n : Normalized) (l : list Request) (q : Request) :
  map (api_of n) l `prefix_of` [GitCommits; GitTrees; GitBlobs] →
  api_of n q = ContentsApi → q ∉ l.
Proof.
  intros Hp Hq Hin.
  assert (ContentsApi ∈ [GitCommits; GitTrees; GitBlobs]) as Hbad.
  { eapply elem_of_prefix; [|exact Hp]. rewrite <- Hq. by apply list_elem_of_fmap_2. }
  apply list_elem_of_In in Hbad. simpl in Hbad. intuition discriminate.
Qed.

Lemma status_404_not_ok r : status r = 404%N → ok r = false.
Proof. unfold ok. by intros ->. Qed.

Section Logic.

Variable server : Request → FetchOutcome.
Variable typeError : string → Thrown.

(** *** Rules for [performs], one per construct of the routine *)

Lemma performs_throw {A} e (Q : list Request → Result A → Prop) :
  Q [] (Throw e) → performs (throw e) Q.
Proof. intros H log. exists [], (Throw e). by rewrite app_nil_r. Qed.

Lemma performs_ret {A} (a : A) Q : Q [] (Ok a) → performs (ret a) Q.
Proof. intros H log. exists [], (Ok a). by rewrite app_nil_r. Qed.

Lemma performs_await {A} (r : Result A) Q : Q [] r → performs (await r) Q.
Proof. intros H log. exists [], r. by rewrite app_nil_r. Qed.

Lemma performs_fetch u h Q :
  match server {| url := u; headers := h |} with
  | Rejected e => Q [{| url := u; headers := h |}] (Throw e)
  | Responded r => Q [{| url := u; headers := h |}] (Ok r)
  end →
  performs (fetch server u h) Q.
Proof. intros H log. unfold fetch. destruct (server _); by eexists _, _. Qed.

Lemma performs_bind {A B} (m : Fetch A) (k : A → Fetch B) Q :
  performs m (λ c1 r1,
    match r1 with
    | Ok a => performs (k a) (λ c2 r2, Q (c1 ++ c2)%list r2)
    | Throw e => Q c1 (Throw e)
    end) →
  performs (m ≫= k) Q.
Proof.
  intros H log. destruct (H log) as (c1 & r1 & Hm & Hk).
  unfold mbind, fetch_bind, Http.bind. rewrite Hm.
  destruct r1 as [a|e].
  - destruct (Hk (log ++ c1)%list) as (c2 & r2 & Hk2 & HQ).
    exists (c1 ++ c2)%list, r2. by rewrite app_assoc.
  - by exists c1, (Throw e).
Qed.

Lemma performs_get what v k Q :
  match Value.prop v k with
  | Some x => Q [] (Ok x)
  | None => Q [] (Throw (typeError what))
  end →
  performs (get typeError what v k) Q.
Proof.
  unfold get. destruct (Value.prop v k); [apply performs_ret | apply performs_throw].
Qed.

Lemma performs_find_entry p v Q :
  (∀ e, Q [] (Ok e)) → (∀ what, Q [] (Throw (typeError what))) →
  performs (find_entry typeError p v) Q.
Proof.
  intros H1 H2. unfold find_entry.
  destruct v; try (apply performs_throw, H2); try (apply performs_ret, H1).
  destruct (find_blob p items); [apply performs_ret, H1 | apply performs_throw, H2].
Qed.

(** Walks through the routine with the rules above, splitting on every
    test and on every answer of the server. *)
Ltac walk :=
  repeat first
    [ apply performs_bind
    | apply performs_fetch
    | apply performs_throw
    | apply performs_await
    | apply performs_get
    | apply performs_find_entry; intros
    | match goal with
      | |- performs (if ?b then _ else _) _ => destruct b eqn:?
      | |- match ?x with _ => _ end => destruct x eqn:?
      end ]; simpl.

(** What the platform throws in the fallback, by the assumption on it. *)
Ltac platform_error HT HS :=
  first
    [ apply HT
    | match goal with
      | H : server ?r = Rejected ?e |- _ ?e =>
          generalize (HS r); rewrite H; by intros ?
      | H : server ?r = Responded ?a, H2 : text ?a = Throw ?e |- _ ?e =>
          generalize (HS r); rewrite H; intros [Ht _]; by apply Ht
      | H : server ?r = Responded ?a, H2 : json ?a = Throw ?e |- _ ?e =>
          generalize (HS r); rewrite H; intros [_ Hj]; by apply Hj
      end ].

(** The fallback issues a non-empty start of the three Git Data calls, in
    order, and throws nothing but what the platform throws or an [Error]
    with a message. *)
Lemma fallback_performs G n sha token :
  platform_errors server typeError G →
  (∀ m, m ≠ EmptyString → G (Error m)) →
  performs (fetchBlobByCommit server typeError n sha token) (fallback_post n G).
Proof.
  intros [HT HS] HE. unfold fetchBlobByCommit, fallback_post.
  walk.
  all: split;
    [simpl; rewrite ?api_of_commit, ?api_of_tree, ?api_of_blob; by eexists|].
  all: split; [done|].
  all: try match goal with
       | |- match ?x with _ => _ end => destruct x eqn:?
       end.
  all: try done.
  all: try (apply HE; unfold dquote; simpl; discriminate).
  all: platform_error HT HS.
Qed.

(** *** The calls of the fallback *)

Lemma ok_status r :
  ok r = true →
  N.eqb (status r) 401 = false ∧ N.eqb (status r) 403 = false
  ∧ N.eqb (status r) 404 = false.
Proof.
  unfold ok. intros [H1%N.leb_le H2%N.leb_le]%andb_true_iff.
  repeat split; apply N.eqb_neq; lia.
Qed.

Ltac run_fetch :=
  unfold mbind, fetch_bind, Http.bind, fetch, await, get, ret, throw.

(** [find] returns the first entry its callback accepts. *)
Lemma find_blob_first p before entry after :
  Forall (λ e, is_blob_at p e = Some false) before →
  is_blob_at p entry = Some true →
  find_blob p (before ++ entry :: after) = Some entry.
Proof.
  intros Hall He. induction Hall as [|e before Hno _ IH]; simpl.
  - by rewrite He.
  - by rewrite Hno.
Qed.

(** The commit is the first thing the fallback asks for. *)
Lemma fallback_first_call n sha token :
  performs (fetchBlobByCommit server typeError n sha token)
    (λ calls _, ∃ rest, calls = commit_request n sha token :: rest).
Proof.
  unfold fetchBlobByCommit.
  walk.
  all: by eexists.
Qed.

(** Without a 2xx answer to the commit request, the commit request is the
    only one. *)
Lemma fallback_one_call n sha token log :
  match server (commit_request n sha token) with
  | Responded rc => ok rc = false
  | Rejected _ => True
  end →
  fst (fetchBlobByCommit server typeError n sha token log)
  = (log ++ [commit_request n sha token])%list.
Proof.
  unfold fetchBlobByCommit. run_fetch. fold (commit_request n sha token).
  destruct (server (commit_request n sha token)) as [e|rc]; [done|].
  intros ->. cbn [negb].
  by destruct (N.eqb (status rc) 401), (N.eqb (status rc) 403), (N.eqb (status rc) 404).
Qed.

(** After a commit that names its tree, without a 2xx answer to the tree
    request, nothing is asked for after the tree. *)
Lemma fallback_two_calls n sha token rc commit treeSha log :
  server (commit_request n sha token) = Responded rc →
  ok rc = true → json rc = Ok commit → names_tree commit treeSha →
  match server (tree_request n treeSha token) with
  | Responded rt => ok rt = false
  | Rejected _ => True
  end →
  fst (fetchBlobByCommit server typeError n sha token log)
  = (log ++ [commit_request n sha token; tree_request n treeSha token])%list.
Proof.
  intros Hc Hcok Hcj ([cf ->] & Hsha & Hne).
  unfold fetchBlobByCommit. run_fetch. fold (commit_request n sha token).
  rewrite Hc. destruct (ok_status _ Hcok) as (-> & -> & ->). rewrite Hcok. cbn [negb].
  rewrite Hcj. cbn [Value.prop]. simpl in Hsha. rewrite Hsha.
  destruct treeSha as [|c0 treeSha]; [done|]. cbn [Value.truthy negb].
  fold (tree_request n (String c0 treeSha) token).
  rewrite <- !app_assoc. cbn [app].
  destruct (server (tree_request n (String c0 treeSha) token)) as [e|rt]; [done|].
  intros ->. cbn [negb]. by destruct (N.eqb (status rt) 404).
Qed.

(** After a commit that names its tree and a tree that lists the path as a
    blob, the blob is asked for, whatever is then answered. *)
Lemma fallback_three_calls n sha token rc commit treeSha rt tree blobSha log :
  server (commit_request n sha token) = Responded rc →
  ok rc = true → json rc = Ok commit → names_tree commit treeSha →
  server (tree_request n treeSha token) = Responded rt →
  ok rt = true → json rt = Ok tree → lists_blob tree (path n) blobSha →
  fst (fetchBlobByCommit server typeError n sha token log)
  = (log ++ [commit_request n sha token; tree_request n treeSha token;
             blob_request n blobSha token])%list.
Proof.
  intros Hc Hcok Hcj ([cf ->] & Hsha & Hne) Ht Htok Htj
    (tf & before & entry & after & -> & Htr & Hitems & Hall & Hentry & Hbsha & Hbne).
  pose proof (find_blob_first _ _ _ after Hall Hentry) as Hfind.
  unfold fetchBlobByCommit. run_fetch. fold (commit_request n sha token).
  rewrite Hc. destruct (ok_status _ Hcok) as (-> & -> & ->). rewrite Hcok. cbn [negb].
  rewrite Hcj. cbn [Value.prop]. simpl in Hsha. rewrite Hsha.
  destruct treeSha as [|c0 treeSha]; [done|]. cbn [Value.truthy negb].
  fold (tree_request n (String c0 treeSha) token). rewrite Ht.
  destruct (ok_status _ Htok) as (_ & _ & ->). rewrite Htok. cbn [negb].
  rewrite Htj. cbn [Value.prop]. rewrite Htr, Hitems. unfold find_entry. rewrite Hfind.
  unfold ret. rewrite Hbsha. destruct blobSha as [|c1 blobSha]; [done|].
  cbn [Value.truthy negb]. fold (blob_request n (String c1 blobSha) token).
  rewrite <- !app_assoc. cbn [app].
  destruct (server (blob_request n (String c1 blobSha) token)) as [e|rb]; [done|].
  by destruct (ok rb).
Qed.

(** C1.  [fetchYamlFromGitHub] first issues one request, to the Contents
    API, and every later request is a Git Data request.  There are later
    requests exactly when the Contents API answered 404 and the ref is
    forty hexadecimal digits: on any other answer, and on a rejected
    fetch, the Git Data API is not called.  The later requests are the
    fallback's, one after the other: the commit of the ref is requested
    first; the commit request is the only one when it is not answered 2xx;
    after a commit that names its tree the tree is requested, and nothing
    after it when the tree request is not answered 2xx; after a tree that
    lists the path as a blob the blob is requested, which makes the three
    calls commit, tree, blob. *)
Theorem contents_then_fallback n token :
  ∃ fallback,
    fst (fetchYamlFromGitHub server typeError n token [])
    = contents_request n token :: fallback
    ∧ api_of n (contents_request n token) = ContentsApi
    ∧ map (api_of n) fallback `prefix_of` [GitCommits; GitTrees; GitBlobs]
    ∧ (fallback ≠ [] ↔
       ∃ r, server (contents_request n token) = Responded r
            ∧ status r = 404%N ∧ isCommitSha (branch n) = true)
    ∧ (fallback ≠ [] →
       (∃ rest, fallback = commit_request n (branch n) token :: rest)
       ∧ (match server (commit_request n (branch n) token) with
          | Responded rc => ok rc = false
          | Rejected _ => True
          end →
          fallback = [commit_request n (branch n) token])
       ∧ ∀ rc commit treeSha,
           server (commit_request n (branch n) token) = Responded rc →
           ok rc = true → json rc = Ok commit → names_tree commit treeSha →
           (match server (tree_request n treeSha token) with
            | Responded rt => ok rt = false
            | Rejected _ => True
            end →
            fallback = [commit_request n (branch n) token;
                        tree_request n treeSha token])
           ∧ ∀ rt tree blobSha,
               server (tree_request n treeSha token) = Responded rt →
               ok rt = true → json rt = Ok tree → lists_blob tree (path n) blobSha →
               fallback = [commit_request n (branch n) token;
                           tree_request n treeSha token;
                           blob_request n blobSha token]).
Proof.
  assert (∀ P : Prop, ¬ P → ∃ fallback,
    [contents_request n token] = contents_request n token :: fallback
    ∧ api_of n (contents_request n token) = ContentsApi
    ∧ map (api_of n) fallback `prefix_of` [GitCommits; GitTrees; GitBlobs]
    ∧ (fallback ≠ [] ↔ P)
    ∧ (fallback ≠ [] →
       (∃ rest, fallback = commit_request n (branch n) token :: rest)
       ∧ (match server (commit_request n (branch n) token) with
          | Responded rc => ok rc = false
          | Rejected _ => True
          end →
          fallback = [commit_request n (branch n) token])
       ∧ ∀ rc commit treeSha,
           server (commit_request n (branch n) token) = Responded rc →
           ok rc = true → json rc = Ok commit → names_tree commit treeSha →
           (match server (tree_request n treeSha token) with
            | Responded rt => ok rt = false
            | Rejected _ => True
            end →
            fallback = [commit_request n (branch n) token;
                        tree_request n treeSha token])
           ∧ ∀ rt tree blobSha,
               server (tree_request n treeSha token) = Responded rt →
               ok rt = true → json rt = Ok tree → lists_blob tree (path n) blobSha →
               fallback = [commit_request n (branch n) token;
                           tree_request n treeSha token;
                           blob_request n blobSha token])) as Hnone.
  { intros P HP. exists []. split; [done|]. split; [apply api_of_contents|].
    split; [by eexists|]. split; [done|]. done. }
  unfold fetchYamlFromGitHub, mbind, fetch_bind, Http.bind, fetch, throw, await. simpl.
  fold (contents_request n token).
  destruct (server (contents_request n token)) as [e|r] eqn:Hs; simpl.
  { apply Hnone. by intros (r & ? & _). }
  destruct (ok r) eqn:Hok; simpl.
  { apply Hnone. intros (r' & Hr & H404 & _).
    injection Hr as <-. apply status_404_not_ok in H404. congruence. }
  destruct (N.eqb (status r) 404) eqn:H404; simpl.
  - apply N.eqb_eq in H404. destruct (isCommitSha (branch n)) eqn:Hsha; simpl.
    + destruct (fallback_performs (λ _, True) n (branch n) token)
        with (log := [contents_request n token])
        as (calls & res & Heq & Hpre & Hne & _).
      { split; [done|]. intros req. by destruct (server req). }
      { done. }
      assert (∀ l, fst (fetchBlobByCommit server typeError n (branch n) token
                          [contents_request n token])
                   = ([contents_request n token] ++ l)%list → calls = l) as Hsame.
      { intros l Hl. rewrite Heq in Hl. by apply app_inv_head in Hl. }
      rewrite Heq. exists calls. split; [done|]. split; [apply api_of_contents|].
      split; [done|]. split; [split; [intros _; by exists r|done]|].
      intros _. split; [|split].
      * destruct (fallback_first_call n (branch n) token [contents_request n token])
          as (calls' & res' & Heq' & rest & ->).
        exists rest. apply Hsame. by rewrite Heq'.
      * intros Hrc. by apply Hsame, fallback_one_call.
      * intros rc commit treeSha Hc Hcok Hcj Hnames. split.
        -- intros Hrt. apply Hsame. by eapply fallback_two_calls.
        -- intros rt tree blobSha Ht Htok Htj Hlists. apply Hsame.
           by eapply fallback_three_calls.
    + apply Hnone. by intros (r' & _ & _ & ?).
  - assert (¬ ∃ r0, Responded r = Responded r0 ∧ status r0 = 404%N
                    ∧ isCommitSha (branch n) = true) as Hno.
    { intros (r' & Hr & ? & _). injection Hr as <-. by apply N.eqb_neq in H404. }
    destruct (N.eqb (status r) 403); simpl.
    + unfold get, ret, throw. destruct (Value.prop _ _); simpl;
        [destruct (mentions_rate_limit _)|]; simpl; by apply Hnone.
    + destruct (N.eqb (status r) 401); simpl; by apply Hnone.
Qed.

(** C6.  When the platform's own failures are [Error]s with a message and
    the Contents API answers with a status that is no success, the routine
    throws an [Error] with a non-empty message, unless the status is 404,
    the ref is forty hexadecimal digits and the fallback returns the
    content, which is then returned; the Contents request is in the log
    once and is not made again; and a 403 whose body carries a message
    that mentions a rate limit gives the rate-limit message. *)
Theorem non_success_throws_message n token r :
  platform_errors server typeError has_message →
  server (contents_request n token) = Responded r →
  ok r = false →
  match snd (fetchYamlFromGitHub server typeError n token []) with
  | Throw e => has_message e
  | Ok content =>
      status r = 404%N ∧ isCommitSha (branch n) = true
      ∧ snd (fetchBlobByCommit server typeError n (branch n) token
               [contents_request n token]) = Ok content
  end
  ∧ (∃ rest, fst (fetchYamlFromGitHub server typeError n token [])
               = contents_request n token :: rest
             ∧ contents_request n token ∉ rest)
  ∧ (status r = 403%N →
     ∀ data m, json r = Ok data → Value.prop data "message" = Some (JStr m) →
       contains_ci "rate limit" m = true →
       snd (fetchYamlFromGitHub server typeError n token [])
       = Throw (Error "GitHub rate limit exceeded. Try again later or add a token.")).
Proof.
  intros Hplat Hs Hok.
  assert (∀ m, m ≠ EmptyString → has_message (Error m)) as HE by done.
  unfold fetchYamlFromGitHub, mbind, fetch_bind, Http.bind, fetch, throw, await. simpl.
  fold (contents_request n token). rewrite Hs. simpl. rewrite Hok. simpl.
  destruct (N.eqb (status r) 404) eqn:H404; simpl.
  - apply N.eqb_eq in H404. destruct (isCommitSha (branch n)) eqn:Hsha; simpl.
    + destruct (fallback_performs has_message n (branch n) token Hplat HE
                  [contents_request n token])
        as (calls & res & Heq & Hpre & Hne & Hres).
      rewrite Heq. simpl. split; [by destruct res|]. split.
      * exists calls. split; [done|].
        eapply prefix_no_contents; [done|apply api_of_contents].
      * intros H403. congruence.
    + split; [done|]. split; [exists []; split; [done|apply not_elem_of_nil]|].
      intros H403. congruence.
  - destruct (N.eqb (status r) 403) eqn:H403; simpl.
    + unfold get, ret, throw.
      destruct (Value.prop (catch_with (json r) (JObj [])) "message")
        as [msg|] eqn:Hmsg; simpl.
      * split; [by destruct (mentions_rate_limit msg), (has_token token)|].
        split; [destruct (mentions_rate_limit msg); exists [];
                (split; [done|apply not_elem_of_nil])|].
        intros _ data m Hj Hp Hc. rewrite Hj in Hmsg. simpl in Hmsg.
        rewrite Hp in Hmsg. injection Hmsg as <-.
        unfold mentions_rate_limit. simpl. destruct m; [done|]. by rewrite Hc.
      * split; [apply Hplat|]. split; [exists []; split; [done|apply not_elem_of_nil]|].
        intros _ data m Hj Hp Hc. rewrite Hj in Hmsg. simpl in Hmsg. congruence.
    + split; [by destruct (N.eqb (status r) 401), (has_token token)|].
      split; [destruct (N.eqb (status r) 401); exists [];
              (split; [done|apply not_elem_of_nil])|].
      intros H. rewrite H in H403. done.
Qed.

(** *** Every request of a run *)

Lemma starts_with_app p x : starts_with p (p ++ x) = true.
Proof. unfold starts_with. by rewrite strip_prefix_app. Qed.

Lemma fallback_well_addressed n sha token :
  performs (fetchBlobByCommit server typeError n sha token)
    (λ calls _, Forall (well_addressed n token) calls).
Proof.
  unfold fetchBlobByCommit.
  walk.
  all: repeat (apply Forall_cons_2; [|]).
  all: try apply Forall_nil_2.
  all: split; [apply starts_with_app|split; [by destruct token as [[|??]|]|auto]].
Qed.

Lemma routine_well_addressed n token :
  performs (fetchYamlFromGitHub server typeError n token)
    (λ calls _, Forall (well_addressed n token) calls).
Proof.
  unfold fetchYamlFromGitHub.
  apply performs_bind, performs_fetch.
  assert (well_addressed n token
            {| url := buildContentsUrl n;
               headers := make_headers "application/vnd.github.raw" token |}) as H1.
  { split; [apply starts_with_app|split; [by destruct token as [[|??]|]|auto]]. }
  destruct (server _) as [e|r]; [by apply Forall_singleton|].
  destruct (ok r); [apply performs_await; by apply Forall_singleton|].
  destruct (N.eqb (status r) 404 && isCommitSha (branch n)).
  { intros log. destruct (fallback_well_addressed n (branch n) token log)
      as (calls & res & -> & H).
    exists calls, res. split; [done|]. by apply Forall_cons. }
  walk. all: by apply Forall_singleton.
Qed.

(** X9.  Whatever the server answers, every request [fetchYamlFromGitHub]
    makes, the fallback's included, is addressed to the repository's URL
    at [https://api.github.com/repos/owner/repo], asks for the raw or the
    v3 JSON media type, and carries [Authorization: Bearer token] when a
    non-empty token was given and no [Authorization] header otherwise. *)
Theorem every_request_is_authorized n token :
  Forall (well_addressed n token)
    (fst (fetchYamlFromGitHub server typeError n token [])).
Proof.
  destruct (routine_well_addressed n token []) as (calls & res & -> & H). done.
Qed.

(** *** The fallback, step by step *)

(** X10.  When the commit request is answered 2xx with a commit that names
    its tree, the tree request (with [?recursive=1]) is answered 2xx with
    a tree that is not truncated and lists the path as a blob, and the
    blob request is answered 2xx, [fetchBlobByCommit] makes exactly these
    three requests, in this order, the first two for JSON and the third
    for the raw media type, and returns the text of the blob response.
    The blob requested is the one of the first entry of the tree that has
    the path and the type [blob]. *)
Theorem fallback_reads_commit_tree_blob
  n sha token rc commit treeSha rt tree blobSha rb log :
  server (commit_request n sha token) = Responded rc →
  ok rc = true → json rc = Ok commit → names_tree commit treeSha →
  server (tree_request n treeSha token) = Responded rt →
  ok rt = true → json rt = Ok tree → lists_blob tree (path n) blobSha →
  server (blob_request n blobSha token) = Responded rb →
  ok rb = true →
  fetchBlobByCommit server typeError n sha token log
  = ((log ++ [commit_request n sha token; tree_request n treeSha token;
              blob_request n blobSha token])%list,
     text rb).
Proof.
  intros Hc Hcok Hcj ([cf ->] & Hsha & Hne) Ht Htok Htj
    (tf & before & entry & after & -> & Htr & Hitems & Hall & Hentry & Hbsha & Hbne)
    Hb Hbok.
  pose proof (find_blob_first _ _ _ after Hall Hentry) as Hfind.
  unfold fetchBlobByCommit. run_fetch. fold (commit_request n sha token).
  rewrite Hc. destruct (ok_status _ Hcok) as (-> & -> & ->). rewrite Hcok. cbn [negb].
  rewrite Hcj. cbn [Value.prop]. simpl in Hsha. rewrite Hsha.
  destruct treeSha as [|c0 treeSha]; [done|]. cbn [Value.truthy negb].
  fold (tree_request n (String c0 treeSha) token). rewrite Ht.
  destruct (ok_status _ Htok) as (_ & _ & ->). rewrite Htok. cbn [negb].
  rewrite Htj. cbn [Value.prop]. rewrite Htr, Hitems. unfold find_entry. rewrite Hfind.
  unfold ret. rewrite Hbsha. destruct blobSha as [|c1 blobSha]; [done|].
  cbn [Value.truthy negb]. fold (blob_request n (String c1 blobSha) token).
  rewrite Hb, Hbok. cbn [negb]. by rewrite <- !app_assoc.
Qed.

(** X11.  [fetchBlobByCommit] stops at the first step that fails, with an
    [Error] whose message is not empty.  When the commit request is
    answered with a status outside 200-299 it makes no other request, and
    the message is [GitHub API error: status] unless the status is 401,
    403 or 404.  After a commit that names its tree, the blob is not
    requested when the tree request is answered with a status outside
    200-299, when the tree is truncated, or when no entry of the tree is
    a blob at the path: it then stops after two requests. *)
Theorem fallback_stops_at_first_failure n sha token rc log :
  server (commit_request n sha token) = Responded rc →
  (ok rc = false →
   ∃ m, fetchBlobByCommit server typeError n sha token log
        = ((log ++ [commit_request n sha token])%list, Throw (Error m))
      ∧ m ≠ EmptyString
      ∧ (status rc ≠ 401%N → status rc ≠ 403%N → status rc ≠ 404%N →
         m = "GitHub API error: " ++ number_to_string (status rc)))
  ∧ (∀ commit treeSha rt,
       ok rc = true → json rc = Ok commit → names_tree commit treeSha →
       server (tree_request n treeSha token) = Responded rt →
       (ok rt = false
        ∨ ok rt = true
          ∧ ∃ fields, json rt = Ok (JObj fields)
              ∧ (Value.truthy (Value.assoc "truncated" fields) = true
                 ∨ ∃ items, Value.assoc "tree" fields = JArr items
                     ∧ Forall (λ e, is_blob_at (path n) e = Some false) items)) →
       ∃ m, fetchBlobByCommit server typeError n sha token log
            = ((log ++ [commit_request n sha token;
                        tree_request n treeSha token])%list,
               Throw (Error m))
          ∧ m ≠ EmptyString).
Proof.
  intros Hc. split.
  - intros Hok. unfold fetchBlobByCommit. run_fetch. fold (commit_request n sha token).
    rewrite Hc, Hok. cbn [negb].
    destruct (N.eqb_spec (status rc) 401); [eexists; split; [done|]; split; [done|done]|].
    destruct (N.eqb_spec (status rc) 403); [eexists; split; [done|]; split; [done|done]|].
    destruct (N.eqb_spec (status rc) 404); [eexists; split; [done|]; split; [done|done]|].
    eexists; split; [done|]. split; [done|]. done.
  - intros commit treeSha rt Hcok Hcj ([cf ->] & Hsha & Hne) Ht Hcases.
    unfold fetchBlobByCommit. run_fetch. fold (commit_request n sha token).
    rewrite Hc. destruct (ok_status _ Hcok) as (-> & -> & ->). rewrite Hcok. cbn [negb].
    rewrite Hcj. cbn [Value.prop]. simpl in Hsha. rewrite Hsha.
    destruct treeSha as [|c0 treeSha]; [done|]. cbn [Value.truthy negb].
    fold (tree_request n (String c0 treeSha) token). rewrite Ht.
    rewrite <- !app_assoc. cbn [app].
    destruct Hcases as [Hno|(Htok & tf & Htj & Hcases)].
    + rewrite Hno. cbn [negb]. destruct (N.eqb (status rt) 404); by eexists.
    + destruct (ok_status _ Htok) as (_ & _ & ->). rewrite Htok. cbn [negb].
      rewrite Htj. cbn [Value.prop].
      destruct Hcases as [->|(items & -> & Hall)]; [by eexists|].
      destruct (Value.truthy _); [by eexists|].
      unfold find_entry.
      assert (find_blob (path n) items = Some JUndefined) as ->.
      { induction Hall as [|e items He _ IH]; [done|]. simpl. by rewrite He. }
      unfold ret. cbn [Value.opt_prop Value.truthy negb]. eexists. split; [done|].
      unfold dquote. simpl. discriminate.
Qed.

(** X13.  When the Contents API answers 2xx, [fetchYamlFromGitHub] makes
    that one request and returns what [text()] of the response settles
    to.  When it answers 404 and the ref is forty hexadecimal digits, the
    outcome is the fallback's, whether it returns or throws: the
    [File not found] message is not produced for such a ref. *)
Theorem body_or_fallback n token r :
  server (contents_request n token) = Responded r →
  (ok r = true →
   fetchYamlFromGitHub server typeError n token []
   = ([contents_request n token], text r))
  ∧ (status r = 404%N → isCommitSha (branch n) = true →
     fetchYamlFromGitHub server typeError n token []
     = fetchBlobByCommit server typeError n (branch n) token
         [contents_request n token]).
Proof.
  intros Hs. unfold fetchYamlFromGitHub. run_fetch. fold (contents_request n token).
  rewrite Hs. split.
  - by intros ->.
  - intros H404 Hsha. rewrite (status_404_not_ok _ H404), H404, Hsha. done.
Qed.

(** X14.  A 403 whose body cannot be read as JSON, or is JSON other than
    [null] without a message that mentions a rate limit, gives the
    access-denied message (the one for a run with a token, or the one for
    a run without): the failure to parse the body is swallowed.  A 403
    whose body is the JSON [null] makes the routine throw the engine's
    [TypeError] for [data.message] instead. *)
Theorem forbidden_without_rate_limit n token r :
  server (contents_request n token) = Responded r →
  status r = 403%N →
  ((∃ e, json r = Throw e)
   ∨ (∃ data, json r = Ok data ∧ data ≠ JNull ∧ data ≠ JUndefined
        ∧ mentions_rate_limit (Value.opt_prop data "message") = false) →
   fetchYamlFromGitHub server typeError n token []
   = ([contents_request n token], Throw (access_denied token)))
  ∧ (json r = Ok JNull →
     fetchYamlFromGitHub server typeError n token []
     = ([contents_request n token], Throw (typeError "data.message"))).
Proof.
  intros Hs H403.
  assert (ok r = false) as Hok by (unfold ok; by rewrite H403).
  unfold fetchYamlFromGitHub. run_fetch. fold (contents_request n token).
  rewrite Hs, Hok, H403. cbn [N.eqb Pos.eqb andb]. split.
  - intros [[e ->]|(data & -> & Hn & Hu & Hm)]; [done|].
    cbn [catch_with].
    destruct data; try done; cbn [Value.prop]; simpl in Hm; by rewrite ?Hm.
  - by intros ->.
Qed.

End Logic.

Lemma non_success_throws_message_witness :
  snd (fetchYamlFromGitHub Sample.server0 Sample.typeError0 Sample.normalized0 None [])
  = Throw (Error "GitHub rate limit exceeded. Try again later or add a token.").
Proof.
  refine (proj2 (proj2 (non_success_throws_message Sample.server0 Sample.typeError0
            Sample.normalized0 None Sample.rate_limited _ eq_refl eq_refl))
            eq_refl _ "API rate limit exceeded for 203.0.113.7." eq_refl eq_refl eq_refl).
  split; [intros what; simpl; discriminate|]. intros req. simpl. split; discriminate.
Defined.

Lemma fallback_reads_commit_tree_blob_witness :
  fetchBlobByCommit Sample.git_server Sample.typeError0 Sample.pinned Sample.sha0 None []
  = ([commit_request Sample.pinned Sample.sha0 None;
      tree_request Sample.pinned "7ee" None;
      blob_request Sample.pinned "b1" None],
     Ok "openapi: 3.0.0").
Proof.
  apply (fallback_reads_commit_tree_blob Sample.git_server Sample.typeError0
           Sample.pinned Sample.sha0 None
           (Sample.answer 200 "{}" (Ok Sample.commit0)) Sample.commit0 "7ee"
           (Sample.answer 200 "{}" (Ok Sample.tree0)) Sample.tree0 "b1"
           (Sample.answer 200 "openapi: 3.0.0" Sample.not_json) []).
  - vm_compute. reflexivity.
  - reflexivity.
  - reflexivity.
  - split; [by eexists|]. split; [reflexivity|discriminate].
  - vm_compute. reflexivity.
  - reflexivity.
  - reflexivity.
  - exists [("truncated", JBool false); ("tree", JArr Sample.entries0)],
      [Sample.readme_entry], Sample.api_entry, [].
    split; [reflexivity|]. split; [reflexivity|]. split; [reflexivity|].
    split; [by apply Forall_singleton|]. split; [reflexivity|].
    split; [reflexivity|discriminate].
  - vm_compute. reflexivity.
  - reflexivity.
Defined.

Lemma fallback_stops_at_first_failure_witness :
  ∃ m, fetchBlobByCommit Sample.orphan_server Sample.typeError0 Sample.pinned
         Sample.sha0 None []
       = ([commit_request Sample.pinned Sample.sha0 None;
           tree_request Sample.pinned "7ee" None],
          Throw (Error m))
     ∧ m ≠ EmptyString.
Proof.
  apply (proj2 (fallback_stops_at_first_failure Sample.orphan_server Sample.typeError0
                  Sample.pinned Sample.sha0 None
                  (Sample.answer 200 "{}" (Ok Sample.commit0)) [] eq_refl)
           Sample.commit0 "7ee" Sample.not_found).
  - reflexivity.
  - reflexivity.
  - split; [by eexists|]. split; [reflexivity|discriminate].
  - vm_compute. reflexivity.
  - left. reflexivity.
Defined.

Lemma body_or_fallback_witness :
  (ok Sample.not_found = true →
   fetchYamlFromGitHub Sample.git_server Sample.typeError0 Sample.pinned None []
   = ([contents_request Sample.pinned None], text Sample.not_found))
  ∧ (status Sample.not_found = 404%N → isCommitSha (branch Sample.pinned) = true →
     fetchYamlFromGitHub Sample.git_server Sample.typeError0 Sample.pinned None []
     = fetchBlobByCommit Sample.git_server Sample.typeError0 Sample.pinned
         (branch Sample.pinned) None [contents_request Sample.pinned None]).
Proof.
  apply (body_or_fallback Sample.git_server Sample.typeError0 Sample.pinned None
           Sample.not_found).
  vm_compute. reflexivity.
Defined.

Lemma forbidden_without_rate_limit_witness :
  fetchYamlFromGitHub Sample.gateway Sample.typeError0 Sample.normalized0 None []
  = ([contents_request Sample.normalized0 None],
     Throw (Error "Access denied. Add a GitHub token in Settings.")).
Proof.
  apply (proj1 (forbidden_without_rate_limit Sample.gateway Sample.typeError0
                  Sample.normalized0 None Sample.forbidden eq_refl eq_refl)).
  left. by eexists.
Defined.

End FetchFacts.

(** ** The stored list: Add, Rename, Remove *)

Module DocListFacts.
Import Js Hooks Spec.

Section Handlers.

Variable newURL : string → option Whatwg.URL.
Variable JSON_stringify : JsValue → string.

Lemma has_key_elem k l : DocList.has_key k l = true ↔ k ∈ keys l.
Proof.
  unfold DocList.has_key, keys. rewrite existsb_exists, list_elem_of_fmap. split.
  - intros (d & Hd & He). apply String.eqb_eq in He. exists d.
    split; [done|]. by apply list_elem_of_In.
  - intros (d & -> & Hd). exists d.
    split; [by apply list_elem_of_In|]. apply String.eqb_refl.
Qed.

Lemma has_key_false k l : DocList.has_key k l = false → k ∉ keys l.
Proof. intros H Hin. apply has_key_elem in Hin. congruence. Qed.

Lemma keys_renamed t nn l : keys (DocList.renamed t nn l) = keys l.
Proof.
  unfold keys, DocList.renamed. rewrite <- list_fmap_compose.
  apply list_fmap_ext. intros i d _. simpl. by destruct (String.eqb (id d) t).
Qed.

Lemma keys_removed t l : keys (DocList.removed t l) `sublist_of` keys l.
Proof. unfold keys, DocList.removed. apply fmap_sublist, sublist_filter. Qed.

(** What Add leaves in the list: the list itself, or the list with one
    entry for the parsed URL appended, whose key was not in it. *)
Lemma docs_handleAdd newId s :
  docs (DocList.handleAdd newURL JSON_stringify newId s) = docs s
  ∨ ∃ n d, GitHub.parseGitHubUrl newURL (JStr (inputUrl s)) = Some n
         ∧ DocList.has_key (key n) (docs s) = false
         ∧ normalized d = n ∧ id d = newId
         ∧ docs (DocList.handleAdd newURL JSON_stringify newId s)
           = (docs s ++ [d])%list.
Proof.
  unfold DocList.handleAdd.
  destruct (GitHub.parseGitHubUrl _ _) as [n|]; [|by left].
  destruct (DocList.has_key _ _) eqn:Hk; [by left|].
  right. eexists n, _. repeat split; [done|..]; reflexivity.
Qed.

Lemma docs_handleRename t nn s :
  docs (DocList.handleRename JSON_stringify t nn s) = DocList.renamed t nn (docs s).
Proof. reflexivity. Qed.

Lemma docs_handleRemove t s :
  docs (DocList.handleRemove JSON_stringify t s) = DocList.removed t (docs s).
Proof. unfold DocList.handleRemove. by case_bool_decide. Qed.

(** C3.  When the URL in the form parses to a tuple whose key is the key of
    a record already in the list, Add changes nothing but the error
    message of the form, which it sets: the list and the storage are as
    before. *)
Theorem add_rejects_duplicate newId s n d :
  GitHub.parseGitHubUrl newURL (JStr (inputUrl s)) = Some n →
  d ∈ docs s →
  key (normalized d) = key n →
  DocList.handleAdd newURL JSON_stringify newId s
  = setAddError "This doc is already in the list." s
  ∧ docs (DocList.handleAdd newURL JSON_stringify newId s) = docs s
  ∧ storage (DocList.handleAdd newURL JSON_stringify newId s) = storage s
  ∧ addError (DocList.handleAdd newURL JSON_stringify newId s)
    = "This doc is already in the list.".
Proof.
  intros Hp Hd Hk.
  assert (DocList.has_key (key n) (docs s) = true) as Hhas.
  { apply has_key_elem. unfold keys. rewrite <- Hk.
    by apply (list_elem_of_fmap_2 (λ d, key (normalized d))). }
  unfold DocList.handleAdd. rewrite Hp, Hhas. by repeat split.
Qed.

(** C4.  If the keys of the list are pairwise distinct, they are so after
    Add, after Rename and after Remove. *)
Theorem key_uniqueness_preserved newId target newName s :
  NoDup (keys (docs s)) →
  NoDup (keys (docs (DocList.handleAdd newURL JSON_stringify newId s)))
  ∧ NoDup (keys (docs (DocList.handleRename JSON_stringify target newName s)))
  ∧ NoDup (keys (docs (DocList.handleRemove JSON_stringify target s))).
Proof.
  intros Hnd. split; [|split].
  - destruct (docs_handleAdd newId s) as [->|(n & d & _ & Hk & Hn & _ & ->)]; [done|].
    unfold keys. rewrite fmap_app. apply NoDup_app. split; [done|]. split.
    + intros k Hin Hin'. apply list_elem_of_singleton in Hin'. subst k.
      simpl in Hin. rewrite Hn in Hin. by apply has_key_false in Hk.
    + apply NoDup_singleton.
  - by rewrite docs_handleRename, keys_renamed.
  - rewrite docs_handleRemove. eapply sublist_NoDup; [exact Hnd|]. apply keys_removed.
Qed.

(** C5.  Rename keeps the length and the order of the list; the record at
    each position keeps its id, label, URL and normalized tuple, is the
    same record when its id is not the target, and has the trimmed new
    name (or none, when that is empty) when it is.  Remove leaves a
    sublist, in order, that holds exactly the records whose id is not the
    target. *)
Theorem rename_remove_touch_target_only target newName s :
  length (docs (DocList.handleRename JSON_stringify target newName s))
  = length (docs s)
  ∧ (∀ i d, docs s !! i = Some d →
       ∃ d', docs (DocList.handleRename JSON_stringify target newName s) !! i = Some d'
             ∧ id d' = id d ∧ label d' = label d ∧ githubUrl d' = githubUrl d
             ∧ normalized d' = normalized d
             ∧ (id d ≠ target → d' = d)
             ∧ (id d = target → name d' = or_undefined (trim newName)))
  ∧ docs (DocList.handleRemove JSON_stringify target s) `sublist_of` docs s
  ∧ (∀ d, d ∈ docs (DocList.handleRemove JSON_stringify target s)
          ↔ d ∈ docs s ∧ id d ≠ target).
Proof using JSON_stringify.
  rewrite docs_handleRename, docs_handleRemove. unfold DocList.renamed, DocList.removed.
  split; [by rewrite length_fmap|]. split; [|split].
  - intros i d Hi. rewrite list_lookup_fmap, Hi. simpl.
    destruct (String.eqb (id d) target) eqn:E.
    + apply String.eqb_eq in E. eexists. split; [done|]. by repeat split.
    + apply String.eqb_neq in E. exists d. by repeat split.
  - apply sublist_filter.
  - intros d. rewrite list_elem_of_filter. by split; intros [? ?].
Qed.

(** C10.  Remove leaves the records of the list whose id is not the
    target, in their order.  Remove of the selected id selects the first
    of these records, or nothing when there is none; Remove of another id
    leaves the selection as it is. *)
Theorem remove_moves_selection target s :
  docs (DocList.handleRemove JSON_stringify target s)
  = filter (λ d, id d ≠ target) (docs s)
  ∧ (selectedId s = Some target →
     selectedId (DocList.handleRemove JSON_stringify target s)
     = match filter (λ d, id d ≠ target) (docs s) with
       | d :: _ => Some (id d)
       | [] => None
       end)
  ∧ (selectedId s ≠ Some target →
     selectedId (DocList.handleRemove JSON_stringify target s) = selectedId s).
Proof.
  unfold DocList.handleRemove.
  split; [by case_bool_decide|]. split; intros H; by case_bool_decide.
Qed.

End Handlers.

Lemma add_rejects_duplicate_witness :
  DocList.handleAdd Whatwg.newURL Sample.stringify0 "doc-2" Sample.state0
  = setAddError "This doc is already in the list." Sample.state0
  ∧ docs (DocList.handleAdd Whatwg.newURL Sample.stringify0 "doc-2" Sample.state0)
    = docs Sample.state0
  ∧ storage (DocList.handleAdd Whatwg.newURL Sample.stringify0 "doc-2" Sample.state0)
    = storage Sample.state0
  ∧ addError (DocList.handleAdd Whatwg.newURL Sample.stringify0 "doc-2" Sample.state0)
    = "This doc is already in the list.".
Proof.
  apply (add_rejects_duplicate Whatwg.newURL Sample.stringify0 "doc-2" Sample.state0
           Sample.normalized0 Sample.doc0).
  - vm_compute. reflexivity.
  - apply list_elem_of_here.
  - reflexivity.
Defined.

Lemma key_uniqueness_preserved_witness :
  NoDup (keys (docs (DocList.handleAdd Whatwg.newURL Sample.stringify0 "doc-2"
                       Sample.state0)))
  ∧ NoDup (keys (docs (DocList.handleRename Sample.stringify0 "doc-1" "Specs"
                         Sample.state0)))
  ∧ NoDup (keys (docs (DocList.handleRemove Sample.stringify0 "doc-1" Sample.state0))).
Proof.
  apply (key_uniqueness_preserved Whatwg.newURL Sample.stringify0 "doc-2" "doc-1"
           "Specs" Sample.state0).
  apply NoDup_singleton.
Defined.

Lemma rename_remove_touch_target_only_witness :
  docs (DocList.handleRemove Sample.stringify0 "doc-7" Sample.state0)
  `sublist_of` docs Sample.state0.
Proof.
  exact (proj1 (proj2 (proj2
    (rename_remove_touch_target_only Sample.stringify0 "doc-7" "Specs" Sample.state0)))).
Defined.

Lemma remove_moves_selection_witness :
  selectedId (DocList.handleRemove Sample.stringify0 "doc-1" Sample.state1)
  = Some "doc-2".
Proof.
  exact (proj1 (proj2 (remove_moves_selection Sample.stringify0 "doc-1" Sample.state1))
           eq_refl).
Defined.

End DocListFacts.

(** ** The list: what Add, Rename and Remove do beyond the keys *)

Module ListFacts.
Import Js Hooks Spec StringFacts TrimFacts DocListFacts.

Section Handlers.

Variable newURL : string → option Whatwg.URL.
Variable JSON_stringify : JsValue → string.

Lemma or_else_non_empty x d : d ≠ EmptyString → or_else x d ≠ EmptyString.
Proof. by destruct x as [[|??]|]. Qed.

Lemma or_else_or_undefined x d : or_else (or_undefined x) d = or_else (Some x) d.
Proof. by destruct x. Qed.

(** X15.  Add does one of two things.  Either it appends one doc to the
    list, selects it, and leaves the form empty with no error message; or
    it changes nothing in the state but the error message of the form,
    which it sets to a non-empty text.  The second happens exactly when
    the URL does not parse or its key is in the list already. *)
Theorem add_appends_or_only_reports newId s :
  (∃ d, docs (DocList.handleAdd newURL JSON_stringify newId s) = (docs s ++ [d])%list
        ∧ selectedId (DocList.handleAdd newURL JSON_stringify newId s) = Some newId
        ∧ addError (DocList.handleAdd newURL JSON_stringify newId s) = EmptyString
        ∧ ∃ n, GitHub.parseGitHubUrl newURL (JStr (inputUrl s)) = Some n
               ∧ DocList.has_key (key n) (docs s) = false)
  ∨ (DocList.handleAdd newURL JSON_stringify newId s
     = setAddError (addError (DocList.handleAdd newURL JSON_stringify newId s)) s
     ∧ addError (DocList.handleAdd newURL JSON_stringify newId s) ≠ EmptyString
     ∧ (GitHub.parseGitHubUrl newURL (JStr (inputUrl s)) = None
        ∨ ∃ n, GitHub.parseGitHubUrl newURL (JStr (inputUrl s)) = Some n
               ∧ DocList.has_key (key n) (docs s) = true)).
Proof.
  unfold DocList.handleAdd.
  destruct (GitHub.parseGitHubUrl _ _) as [n|]; [|right; split; [done|]; split; [done|by left]].
  destruct (DocList.has_key _ _) eqn:Hk.
  - right. split; [done|]. split; [done|]. right. by exists n.
  - left. eexists. split; [reflexivity|]. split; [done|]. split; [done|]. by exists n.
Qed.

(** The name shown for an entry whose name was set from a typed text. *)
Lemma displayName_named d x :
  name d = or_undefined (trim x) →
  DocList.displayName d
  = or_else (Some (trim x))
      (or_else (label d) (or_else (pop (split_slash (path (normalized d)))) (id d))).
Proof.
  intros H. unfold DocList.displayName. rewrite H.
  destruct (trim x) as [|c t] eqn:E; [done|].
  cbn [or_undefined fmap option_fmap option_map]. by rewrite <- E, trim_trim, E.
Qed.

(** X16.  When the URL parses and its key is new, the doc Add appends has
    the id generated for it, the parsed tuple and the trimmed URL; the
    name shown for it is the trimmed name typed into the form or, when
    that is empty, the last segment of the path or, when that is empty
    too, [API Doc]; it is never empty.  The new doc is selected and the
    form is cleared. *)
Theorem add_appends_and_selects newId s n :
  GitHub.parseGitHubUrl newURL (JStr (inputUrl s)) = Some n →
  DocList.has_key (key n) (docs s) = false →
  ∃ d, docs (DocList.handleAdd newURL JSON_stringify newId s) = (docs s ++ [d])%list
     ∧ id d = newId ∧ normalized d = n ∧ githubUrl d = trim (inputUrl s)
     ∧ DocList.displayName d
       = or_else (Some (trim (inputName s)))
           (or_else (pop (split_slash (path n))) "API Doc")
     ∧ DocList.displayName d ≠ EmptyString
     ∧ selectedId (DocList.handleAdd newURL JSON_stringify newId s) = Some newId
     ∧ inputUrl (DocList.handleAdd newURL JSON_stringify newId s) = EmptyString
     ∧ inputName (DocList.handleAdd newURL JSON_stringify newId s) = EmptyString
     ∧ addError (DocList.handleAdd newURL JSON_stringify newId s) = EmptyString.
Proof.
  intros Hp Hk. unfold DocList.handleAdd. rewrite Hp, Hk.
  eexists. split; [reflexivity|]. cbn [id normalized githubUrl].
  rewrite (displayName_named _ (inputName s)) by reflexivity.
  cbn [label normalized id].
  assert (or_else (pop (split_slash (path n))) "API Doc" ≠ EmptyString) as Hl
    by by apply or_else_non_empty.
  destruct (or_else (pop (split_slash (path n))) "API Doc") as [|c l] eqn:El; [done|].
  cbn [or_else]. repeat split; try done. by destruct (trim (inputName s)).
Qed.

Lemma ids_renamed t nn l : ids (DocList.renamed t nn l) = ids l.
Proof.
  unfold ids, DocList.renamed. rewrite <- list_fmap_compose.
  apply list_fmap_ext. intros i d _. simpl. by destruct (String.eqb (id d) t).
Qed.

Lemma removed_absent t l : t ∉ ids l → DocList.removed t l = l.
Proof.
  unfold DocList.removed, ids. induction l as [|d l IH]; [done|].
  rewrite fmap_cons, not_elem_of_cons. intros [Hd Hl].
  rewrite filter_cons_True by done. by rewrite IH.
Qed.

Lemma removed_fresh t l d : t ∉ ids l → id d = t → DocList.removed t (l ++ [d]) = l.
Proof.
  intros Hl Hd. unfold DocList.removed. rewrite filter_app.
  fold (DocList.removed t l). rewrite removed_absent by done.
  rewrite filter_cons_False, filter_nil by (by intros ?). apply app_nil_r.
Qed.

Lemma removed_present t l :
  NoDup (ids l) → t ∈ ids l → S (length (DocList.removed t l)) = length l.
Proof.
  unfold ids. induction l as [|d l IH]; [by intros _ ?%elem_of_nil|].
  rewrite fmap_cons, NoDup_cons. intros [Hd Hnd] Hin.
  unfold DocList.removed. destruct (decide (id d = t)) as [E|E].
  - rewrite filter_cons_False by (by intros ?). fold (DocList.removed t l).
    rewrite removed_absent; [done|]. by rewrite <- E.
  - rewrite filter_cons_True by done. cbn [length]. f_equal. apply IH; [done|].
    apply elem_of_cons in Hin as [?|?]; [congruence|done].
Qed.

(** X17.  If the ids of the list are pairwise distinct, they are so after
    Rename and after Remove, and after Add when the generated id is not in
    the list; Remove of an id in the list then removes exactly one doc,
    and Remove of an id not in the list leaves the list as it is. *)
Theorem id_uniqueness_preserved newId target newName s :
  NoDup (ids (docs s)) →
  (newId ∉ ids (docs s) → NoDup (ids (docs (DocList.handleAdd newURL JSON_stringify newId s))))
  ∧ NoDup (ids (docs (DocList.handleRename JSON_stringify target newName s)))
  ∧ NoDup (ids (docs (DocList.handleRemove JSON_stringify target s)))
  ∧ (target ∈ ids (docs s) →
     S (length (docs (DocList.handleRemove JSON_stringify target s))) = length (docs s))
  ∧ (target ∉ ids (docs s) → docs (DocList.handleRemove JSON_stringify target s) = docs s).
Proof.
  intros Hnd.
  rewrite docs_handleRename, docs_handleRemove, ids_renamed.
  split; [|split; [done|split; [|split]]].
  - intros Hfresh.
    destruct (docs_handleAdd newURL JSON_stringify newId s)
      as [->|(n & d & _ & _ & _ & Hid & ->)]; [done|].
    unfold ids. rewrite fmap_app. apply NoDup_app. split; [done|]. split.
    + intros k Hin Hin'. apply list_elem_of_singleton in Hin'. simpl in Hin'.
      subst k. rewrite Hid in Hin. by apply Hfresh.
    + apply NoDup_singleton.
  - eapply sublist_NoDup; [exact Hnd|]. apply fmap_sublist, sublist_filter.
  - by apply removed_present.
  - by apply removed_absent.
Qed.

(** X18.  Add followed by Remove of the doc just added, its id not being
    in the list before, gives the list back; but the selection does not
    come back: when the doc was added, the first doc of the list is
    selected afterwards (or none, when the list is empty). *)
Theorem add_then_remove_restores_list newId s :
  newId ∉ ids (docs s) →
  docs (DocList.handleRemove JSON_stringify newId (DocList.handleAdd newURL JSON_stringify newId s)) = docs s
  ∧ (docs (DocList.handleAdd newURL JSON_stringify newId s) ≠ docs s →
     selectedId (DocList.handleRemove JSON_stringify newId (DocList.handleAdd newURL JSON_stringify newId s))
     = head (ids (docs s))).
Proof.
  intros Hfresh. rewrite docs_handleRemove.
  unfold DocList.handleRemove.
  destruct (docs_handleAdd newURL JSON_stringify newId s)
    as [E|(n & d & Hp & Hk & Hn & Hid & E)].
  - rewrite E. split; [by apply removed_absent|done].
  - rewrite E. rewrite removed_fresh by done. split; [done|]. intros _.
    assert (selectedId (DocList.handleAdd newURL JSON_stringify newId s) = Some newId)
      as ->.
    { unfold DocList.handleAdd. by rewrite Hp, Hk. }
    rewrite bool_decide_eq_true_2 by done. simpl. by destruct (docs s).
Qed.


Lemma saveDocs_writable l ls :
  writable ls →
  Storage.saveDocs JSON_stringify l ls
  = {| Storage.items :=
         <[Storage.STORAGE_KEY := JSON_stringify (JArr (map Storage.doc_value l))]>
           (Storage.items ls);
       Storage.denied := false; Storage.full := false |}.
Proof.
  intros [Hd Hf]. unfold Storage.saveDocs, Storage.setItem. by rewrite Hd, Hf.
Qed.

Lemma saveDocs_blocked l ls : ¬ writable ls → Storage.saveDocs JSON_stringify l ls = ls.
Proof.
  intros H. unfold Storage.saveDocs, Storage.setItem.
  destruct (Storage.denied ls) eqn:Hd; [done|].
  destruct (Storage.full ls) eqn:Hf; [done|]. by destruct H.
Qed.

(** Written twice, the list is stored as written once. *)
Lemma saveDocs_twice l ls :
  Storage.saveDocs JSON_stringify l (Storage.saveDocs JSON_stringify l ls)
  = Storage.saveDocs JSON_stringify l ls.
Proof.
  unfold Storage.saveDocs, Storage.setItem.
  destruct (Storage.denied ls) eqn:Hd; simpl; [by rewrite Hd|].
  destruct (Storage.full ls) eqn:Hf; simpl; [by rewrite Hd, Hf|].
  by rewrite insert_insert_eq.
Qed.

(** What the handlers leave in storage: the list saved (Rename, Remove, an
    Add that was accepted) or the storage as it was (an Add that was
    refused). *)
Lemma storage_after_handler newId target newName s s' :
  s' ∈ [DocList.handleAdd newURL JSON_stringify newId s;
        DocList.handleRename JSON_stringify target newName s;
        DocList.handleRemove JSON_stringify target s] →
  storage s' = Storage.saveDocs JSON_stringify (docs s') (storage s)
  ∨ storage s' = storage s ∧ docs s' = docs s.
Proof.
  rewrite !elem_of_cons, elem_of_nil. intros [->|[->|[->|[]]]].
  - unfold DocList.handleAdd. destruct (GitHub.parseGitHubUrl _ _) as [n|]; [|by right].
    destruct (DocList.has_key _ _); [by right|]. left. simpl. apply saveDocs_twice.
  - left. simpl. apply saveDocs_twice.
  - left. unfold DocList.handleRemove. case_bool_decide; simpl; apply saveDocs_twice.
Qed.

(** What the handlers make of the list does not depend on the storage. *)
Lemma docs_whatever_storage newId target newName h ls s :
  h ∈ [DocList.handleAdd newURL JSON_stringify newId;
       DocList.handleRename JSON_stringify target newName;
       DocList.handleRemove JSON_stringify target] →
  docs (h (setStorage ls s)) = docs (h s).
Proof.
  rewrite !elem_of_cons, elem_of_nil. intros [->|[->|[->|[]]]].
  - unfold DocList.handleAdd. cbn [inputUrl docs setStorage].
    destruct (GitHub.parseGitHubUrl _ _) as [n|]; [|done].
    by destruct (DocList.has_key _ _).
  - done.
  - unfold DocList.handleRemove. cbn [selectedId docs setStorage].
    by case_bool_decide.
Qed.

Lemma accepts_writable ls l : accepts JSON_stringify ls l ↔ writable ls.
Proof.
  unfold accepts, writable, Storage.setItem.
  destruct (Storage.denied ls), (Storage.full ls); simpl; split;
    try (by intros [? ?]); by intros.
Qed.

(** X19.  After Add, Rename and Remove alike: when the browser accepts
    the write of the handler's list and storage held the serialized list
    before, storage holds the serialized list of the new state; when the
    browser refuses that write, storage is left as it was; the list in
    memory is the same in both cases, whatever the storage; and the stored
    token is never touched. *)
Theorem handlers_keep_storage_in_sync newId target newName h s :
  h ∈ [DocList.handleAdd newURL JSON_stringify newId;
       DocList.handleRename JSON_stringify target newName;
       DocList.handleRemove JSON_stringify target] →
  (accepts JSON_stringify (storage s) (docs (h s)) →
   in_sync JSON_stringify s → in_sync JSON_stringify (h s))
  ∧ (¬ accepts JSON_stringify (storage s) (docs (h s)) → storage (h s) = storage s)
  ∧ (∀ ls, docs (h (setStorage ls s)) = docs (h s))
  ∧ Storage.loadToken (storage (h s)) = Storage.loadToken (storage s).
Proof.
  intros Hin. rewrite accepts_writable.
  assert (h s ∈ [DocList.handleAdd newURL JSON_stringify newId s;
                 DocList.handleRename JSON_stringify target newName s;
                 DocList.handleRemove JSON_stringify target s]) as Hin'.
  { revert Hin. rewrite !elem_of_cons, !elem_of_nil. intros [->|[->|[->|[]]]]; auto. }
  split; [|split; [|split]].
  - intros Hw Hs. destruct (storage_after_handler _ _ _ _ _ Hin') as [E|[E1 E2]].
    + unfold in_sync. rewrite E, saveDocs_writable by done. simpl. apply lookup_insert_eq.
    + unfold in_sync. by rewrite E1, E2.
  - intros Hw. destruct (storage_after_handler _ _ _ _ _ Hin') as [E|[E1 E2]]; [|done].
    by rewrite E, saveDocs_blocked.
  - intros ls. by eapply docs_whatever_storage.
  - destruct (storage_after_handler _ _ _ _ _ Hin') as [E|[E1 E2]]; [|by rewrite E1].
    rewrite E. destruct (decide (Storage.denied (storage s) = false
                                 ∧ Storage.full (storage s) = false)) as [Hw|Hw].
    + rewrite saveDocs_writable by done.
      unfold Storage.loadToken, Storage.getItem. destruct Hw as [-> _]. simpl.
      by rewrite lookup_insert_ne.
    + by rewrite saveDocs_blocked.
Qed.

(** X20.  Rename of a doc of the list puts the doc with its new name in
    the list; the name shown for it is the trimmed new name or, when that
    is empty, what is shown for a doc without a name (the label, else the
    last segment of the path, else the id).  Rename closes the edit field
    and leaves the selection alone. *)
Theorem rename_shows_new_name d newName s :
  d ∈ docs s →
  DocList.with_name d newName ∈ docs (DocList.handleRename JSON_stringify (id d) newName s)
  ∧ DocList.displayName (DocList.with_name d newName)
    = or_else (Some (trim newName))
        (or_else (label d) (or_else (pop (split_slash (path (normalized d)))) (id d)))
  ∧ editingId (DocList.handleRename JSON_stringify (id d) newName s) = None
  ∧ editingName (DocList.handleRename JSON_stringify (id d) newName s) = EmptyString
  ∧ selectedId (DocList.handleRename JSON_stringify (id d) newName s) = selectedId s.
Proof.
  intros Hd. split; [|split; [|done]].
  - rewrite docs_handleRename. unfold DocList.renamed. apply list_elem_of_fmap.
    exists d. by rewrite String.eqb_refl.
  - by rewrite (displayName_named _ newName).
Qed.

Lemma with_name_trimmed d x : well_named (DocList.with_name d x).
Proof.
  unfold well_named. simpl. destruct (trim x) as [|c t] eqn:E; [done|].
  simpl. split; [|done]. by rewrite <- E, trim_trim.
Qed.

Lemma with_own_name d :
  well_named d → DocList.with_name d (default EmptyString (name d)) = d.
Proof.
  unfold well_named, DocList.with_name. destruct d as [i [x|] l u n]; simpl.
  - intros [-> Hx]. by destruct x.
  - done.
Qed.

(** X21.  Opening the rename field of a doc and saving what it shows
    leaves the list as it is, when the ids of the list are pairwise
    distinct and the doc's name is absent or a trimmed, non-empty text. *)
Theorem saving_unchanged_name_changes_nothing d s :
  NoDup (ids (docs s)) → d ∈ docs s → well_named d →
  docs (DocList.handleRename JSON_stringify (id d)
          (editingName (DocList.startRename d s)) (DocList.startRename d s))
  = docs s.
Proof.
  intros Hnd Hd Hw. rewrite docs_handleRename. cbn [DocList.startRename editingName docs setEditingName setEditingId].
  unfold DocList.renamed.
  rewrite <- (list_fmap_id (docs s)) at 2. apply list_fmap_ext.
  intros i d' Hi. destruct (String.eqb_spec (id d') (id d)) as [E|E]; [|done].
  assert (d' = d) as ->.
  { apply list_elem_of_lookup in Hd as [j Hj].
    assert (i = j) as ->; [|congruence].
    eapply NoDup_lookup; [exact Hnd| |].
    - unfold ids. by rewrite list_lookup_fmap, Hi.
    - unfold ids. rewrite list_lookup_fmap, Hj. simpl. by rewrite E. }
  by apply with_own_name.
Qed.

(** X22.  If every name in the list is absent or a trimmed, non-empty
    text, this is so after Add, after Rename and after Remove: the
    handlers never store an empty name or one with white space around
    it. *)
Theorem names_stay_trimmed newId target newName s :
  Forall well_named (docs s) →
  Forall well_named (docs (DocList.handleAdd newURL JSON_stringify newId s))
  ∧ Forall well_named (docs (DocList.handleRename JSON_stringify target newName s))
  ∧ Forall well_named (docs (DocList.handleRemove JSON_stringify target s)).
Proof.
  intros H. split; [|split].
  - destruct (docs_handleAdd newURL JSON_stringify newId s) as [->|(n & d & Hp & Hk & _ & _ & E)];
      [done|].
    rewrite E. apply Forall_app. split; [done|]. apply Forall_singleton.
    revert E. unfold DocList.handleAdd. rewrite Hp, Hk. simpl.
    intros [= <-]%app_inv_head. apply (with_name_trimmed
      {| id := newId; name := None; label := None; githubUrl := EmptyString; normalized := n |}).
  - rewrite docs_handleRename. unfold DocList.renamed. apply Forall_fmap.
    eapply Forall_impl; [exact H|]. intros d Hd. simpl.
    destruct (String.eqb (id d) target); [apply with_name_trimmed|done].
  - rewrite docs_handleRemove. unfold DocList.removed. rewrite Forall_forall in *.
    intros d [_ Hd]%list_elem_of_filter. by apply H.
Qed.

End Handlers.

Lemma add_appends_and_selects_witness :
  ∃ d, docs (DocList.handleAdd Whatwg.newURL Sample.stringify0 "doc-3" Sample.state1)
       = (docs Sample.state1 ++ [d])%list
     ∧ id d = "doc-3"
     ∧ normalized d
       = {| owner := "octo"; repo := "specs"; branch := "main"; path := "store.yaml";
            key := "octo/specs/main/store.yaml" |}
     ∧ githubUrl d = trim (inputUrl Sample.state1)
     ∧ DocList.displayName d
       = or_else (Some (trim (inputName Sample.state1)))
           (or_else (pop (split_slash "store.yaml")) "API Doc")
     ∧ DocList.displayName d ≠ EmptyString
     ∧ selectedId (DocList.handleAdd Whatwg.newURL Sample.stringify0 "doc-3" Sample.state1)
       = Some "doc-3"
     ∧ inputUrl (DocList.handleAdd Whatwg.newURL Sample.stringify0 "doc-3" Sample.state1)
       = EmptyString
     ∧ inputName (DocList.handleAdd Whatwg.newURL Sample.stringify0 "doc-3" Sample.state1)
       = EmptyString
     ∧ addError (DocList.handleAdd Whatwg.newURL Sample.stringify0 "doc-3" Sample.state1)
       = EmptyString.
Proof.
  apply (add_appends_and_selects Whatwg.newURL Sample.stringify0 "doc-3" Sample.state1
           {| owner := "octo"; repo := "specs"; branch := "main"; path := "store.yaml";
              key := "octo/specs/main/store.yaml" |}).
  - vm_compute. reflexivity.
  - reflexivity.
Defined.

Lemma sample_ids_distinct : NoDup (ids (docs Sample.state1)).
Proof.
  apply NoDup_cons. split.
  - intros [=]%list_elem_of_singleton.
  - apply NoDup_singleton.
Defined.

Lemma id_uniqueness_preserved_witness :
  ("doc-3" ∉ ids (docs Sample.state1) →
   NoDup (ids (docs (DocList.handleAdd Whatwg.newURL Sample.stringify0 "doc-3"
                       Sample.state1))))
  ∧ NoDup (ids (docs (DocList.handleRename Sample.stringify0 "doc-1" "Specs"
                         Sample.state1)))
  ∧ NoDup (ids (docs (DocList.handleRemove Sample.stringify0 "doc-1" Sample.state1)))
  ∧ ("doc-1" ∈ ids (docs Sample.state1) →
     S (length (docs (DocList.handleRemove Sample.stringify0 "doc-1" Sample.state1)))
     = length (docs Sample.state1))
  ∧ ("doc-1" ∉ ids (docs Sample.state1) →
     docs (DocList.handleRemove Sample.stringify0 "doc-1" Sample.state1)
     = docs Sample.state1).
Proof.
  apply (id_uniqueness_preserved Whatwg.newURL Sample.stringify0 "doc-3" "doc-1" "Specs"
           Sample.state1).
  exact sample_ids_distinct.
Defined.

Lemma add_then_remove_restores_list_witness :
  docs (DocList.handleRemove Sample.stringify0 "doc-3"
          (DocList.handleAdd Whatwg.newURL Sample.stringify0 "doc-3" Sample.state1))
  = docs Sample.state1
  ∧ (docs (DocList.handleAdd Whatwg.newURL Sample.stringify0 "doc-3" Sample.state1)
     ≠ docs Sample.state1 →
     selectedId (DocList.handleRemove Sample.stringify0 "doc-3"
                   (DocList.handleAdd Whatwg.newURL Sample.stringify0 "doc-3"
                      Sample.state1))
     = head (ids (docs Sample.state1))).
Proof.
  apply (add_then_remove_restores_list Whatwg.newURL Sample.stringify0 "doc-3"
           Sample.state1).
  intros [[=]|[[=]|[]%elem_of_nil]%elem_of_cons]%elem_of_cons.
Defined.

Lemma handlers_keep_storage_in_sync_witness :
  (accepts Sample.stringify0 (storage Sample.state0)
     (docs (DocList.handleRename Sample.stringify0 "doc-1" "Specs" Sample.state0)) →
   in_sync Sample.stringify0 Sample.state0 →
   in_sync Sample.stringify0
     (DocList.handleRename Sample.stringify0 "doc-1" "Specs" Sample.state0))
  ∧ (¬ accepts Sample.stringify0 (storage Sample.state0)
         (docs (DocList.handleRename Sample.stringify0 "doc-1" "Specs" Sample.state0)) →
     storage (DocList.handleRename Sample.stringify0 "doc-1" "Specs" Sample.state0)
     = storage Sample.state0)
  ∧ (∀ ls, docs (DocList.handleRename Sample.stringify0 "doc-1" "Specs"
                   (setStorage ls Sample.state0))
           = docs (DocList.handleRename Sample.stringify0 "doc-1" "Specs" Sample.state0))
  ∧ Storage.loadToken
      (storage (DocList.handleRename Sample.stringify0 "doc-1" "Specs" Sample.state0))
    = Storage.loadToken (storage Sample.state0).
Proof.
  apply (handlers_keep_storage_in_sync Whatwg.newURL Sample.stringify0 "doc-2" "doc-1"
           "Specs" (DocList.handleRename Sample.stringify0 "doc-1" "Specs") Sample.state0).
  apply list_elem_of_further, list_elem_of_here.
Defined.

Lemma rename_shows_new_name_witness :
  DocList.with_name Sample.doc0 " Specs "
    ∈ docs (DocList.handleRename Sample.stringify0 (id Sample.doc0) " Specs "
              Sample.state0)
  ∧ DocList.displayName (DocList.with_name Sample.doc0 " Specs ")
    = or_else (Some (trim " Specs "))
        (or_else (label Sample.doc0)
           (or_else (pop (split_slash (path (normalized Sample.doc0))))
              (id Sample.doc0)))
  ∧ editingId (DocList.handleRename Sample.stringify0 (id Sample.doc0) " Specs "
                 Sample.state0) = None
  ∧ editingName (DocList.handleRename Sample.stringify0 (id Sample.doc0) " Specs "
                   Sample.state0) = EmptyString
  ∧ selectedId (DocList.handleRename Sample.stringify0 (id Sample.doc0) " Specs "
                  Sample.state0) = selectedId Sample.state0.
Proof.
  apply (rename_shows_new_name Sample.stringify0 Sample.doc0 " Specs " Sample.state0).
  apply list_elem_of_here.
Defined.

Lemma saving_unchanged_name_changes_nothing_witness :
  docs (DocList.handleRename Sample.stringify0 (id Sample.doc1)
          (editingName (DocList.startRename Sample.doc1 Sample.state1))
          (DocList.startRename Sample.doc1 Sample.state1))
  = docs Sample.state1.
Proof.
  apply (saving_unchanged_name_changes_nothing Sample.stringify0 Sample.doc1
           Sample.state1).
  - exact sample_ids_distinct.
  - apply list_elem_of_further, list_elem_of_here.
  - split; [vm_compute; reflexivity|discriminate].
Defined.

Lemma names_stay_trimmed_witness :
  Forall well_named
    (docs (DocList.handleAdd Whatwg.newURL Sample.stringify0 "doc-3" Sample.state1))
  ∧ Forall well_named
      (docs (DocList.handleRename Sample.stringify0 "doc-1" " Specs " Sample.state1))
  ∧ Forall well_named
      (docs (DocList.handleRemove Sample.stringify0 "doc-1" Sample.state1)).
Proof.
  apply (names_stay_trimmed Whatwg.newURL Sample.stringify0 "doc-3" "doc-1" " Specs "
           Sample.state1).
  apply Forall_cons. split; [exact I|]. apply Forall_singleton.
  split; [vm_compute; reflexivity|discriminate].
Defined.

End ListFacts.

(** ** The stale-response guard *)

Module AppFacts.
Import Hooks.

(** C7.  When the fetch started for [target] settles, with a text or with
    an error, and the ref that mirrors the selection no longer holds
    [target], nothing of the state changes: the YAML shown, the error and
    the loading flag stay.  When it still holds [target], the YAML is the
    text (or none, with the error's message shown) and loading ends.  The
    ref holds the selected id after every render. *)
Theorem stale_response_changes_nothing target outcome s :
  (selectedIdRef s ≠ Some target → App.loadDoc_settle target outcome s = s)
  ∧ (selectedIdRef s = Some target →
     loading (App.loadDoc_settle target outcome s) = false
     ∧ match outcome with
       | Ok text =>
           fetchedYaml (App.loadDoc_settle target outcome s) = Some text
           ∧ error (App.loadDoc_settle target outcome s) = error s
       | Throw e =>
           fetchedYaml (App.loadDoc_settle target outcome s) = None
           ∧ error (App.loadDoc_settle target outcome s) = Some (App.message_of e)
       end)
  ∧ (selectedId s ≠ Some target →
     App.loadDoc_settle target outcome (App.render s) = App.render s).
Proof.
  unfold App.loadDoc_settle, App.still_selected, App.render.
  split; [|split]; intros H.
  - destruct outcome; by repeat case_bool_decide.
  - destruct outcome; simpl; repeat case_bool_decide; done.
  - destruct outcome; simpl; by repeat case_bool_decide.
Qed.

Lemma stale_response_changes_nothing_witness :
  App.loadDoc_settle "doc-9" (Ok "openapi: 3.0.0") Sample.state0 = Sample.state0.
Proof.
  apply (proj1 (stale_response_changes_nothing "doc-9" (Ok "openapi: 3.0.0")
                  Sample.state0)).
  discriminate.
Defined.

End AppFacts.

(** ** loadDocs and loadToken *)

Module StorageFacts.
Import Storage.

Section WithJSON.

Variable JSON_parse : string → option JsValue.

(** The empty text is no JSON document. *)
Hypothesis JSON_parse_empty : JSON_parse EmptyString = None.

(** C9.  [loadDocs] and [loadToken] are total (their [try] blocks catch
    everything) and return an array and a string: [loadDocs] returns the
    parsed array when the stored text parses to an array, and the empty
    array when storage cannot be read, holds nothing under the key, or
    holds a text that does not parse to an array; [loadToken] returns the
    stored text, and the empty text when storage cannot be read or holds
    nothing under the key. *)
Theorem loads_never_fail ls :
  (∀ raw parsed,
     denied ls = false → items ls !! STORAGE_KEY = Some raw →
     JSON_parse raw = Some (JArr parsed) →
     loadDocs JSON_parse ls = parsed)
  ∧ ((denied ls = true ∨ items ls !! STORAGE_KEY = None
      ∨ ∃ raw, items ls !! STORAGE_KEY = Some raw
               ∧ ∀ parsed, JSON_parse raw ≠ Some (JArr parsed)) →
     loadDocs JSON_parse ls = [])
  ∧ (∀ s, denied ls = false → items ls !! STORAGE_KEY_TOKEN = Some s →
          loadToken ls = s)
  ∧ ((denied ls = true ∨ items ls !! STORAGE_KEY_TOKEN = None) →
     loadToken ls = EmptyString).
Proof.
  unfold loadDocs, loadToken, getItem. repeat split.
  - intros raw parsed -> -> Hp. destruct raw; [congruence|]. by rewrite Hp.
  - intros [->|[H|(raw & -> & Hno)]]; [done|..].
    + destruct (denied ls); [done|]. by rewrite H.
    + destruct (denied ls); [done|]. destruct raw as [|c raw]; [done|].
      destruct (JSON_parse (String c raw)) as [[| | | | |arr|]|]; try done.
      by destruct (Hno arr).
  - by intros s -> ->.
  - intros [->|H]; [done|]. destruct (denied ls); [done|]. by rewrite H.
Qed.

End WithJSON.

Lemma loads_never_fail_witness :
  loadDocs Sample.parse0 Sample.storage0 = [].
Proof.
  apply (proj1 (loads_never_fail Sample.parse0 eq_refl Sample.storage0)
           "[]" [] eq_refl); [vm_compute; reflexivity | reflexivity].
Defined.

End StorageFacts.

(** ** storage.js: what is saved is what is loaded *)

Module PersistenceFacts.
Import Js Spec Storage StringFacts.

Lemma digits_of_uint d : all_chars is_digit (NilEmpty.string_of_uint d) = true.
Proof. induction d; simpl; try done. Qed.

Lemma number_to_string_digits n : all_chars is_digit (number_to_string n) = true.
Proof.
  unfold number_to_string, NilZero.string_of_uint.
  destruct (N.to_uint n); try done; apply (digits_of_uint (_ _)).
Qed.

Lemma number_to_string_inj a b : number_to_string a = number_to_string b → a = b.
Proof.
  unfold number_to_string. intros H. apply DecimalN.Unsigned.to_uint_inj.
  assert (∀ n, N.to_uint n ≠ Decimal.Nil) as Hnn.
  { intros [|p]; [done|]. simpl. apply DecimalPos.Unsigned.to_uint_nonnil. }
  assert (Some (N.to_uint a) = Some (N.to_uint b)) as [= E]; [|done].
  rewrite <- (NilZero.usu (N.to_uint a)), <- (NilZero.usu (N.to_uint b)) by apply Hnn.
  by rewrite H.
Qed.

(** Texts of digits followed by a hyphen: the hyphen is found at one place. *)
Lemma digits_then_hyphen a b x y :
  all_chars is_digit a = true → all_chars is_digit b = true →
  a ++ "-" ++ x = b ++ "-" ++ y → a = b ∧ x = y.
Proof.
  revert b. induction a as [|c a IH]; intros [|c' b]; simpl.
  - by intros _ _ [= ->].
  - intros _ [Hc _]%andb_true_iff [= <- _]. done.
  - intros [Hc _]%andb_true_iff _ [= -> _]. done.
  - intros [_ Ha]%andb_true_iff [_ Hb]%andb_true_iff [= -> H].
    destruct (IH _ Ha Hb H) as [-> ->]. done.
Qed.

(** X23.  Two generated ids are equal exactly when they were generated in
    the same millisecond and the seven characters kept of the two random
    texts agree: ids of different milliseconds never collide, and nothing
    else makes ids distinct. *)
Theorem ids_collide_only_within_a_millisecond now1 random1 now2 random2 :
  generateId now1 random1 = generateId now2 random2
  ↔ now1 = now2 ∧ slice 2 9 random1 = slice 2 9 random2.
Proof.
  unfold generateId. split.
  - intros [= H]. apply digits_then_hyphen in H as [Hn Hr];
      [|apply number_to_string_digits..].
    split; [by apply number_to_string_inj|done].
  - by intros [-> ->].
Qed.

Section WithJSON.

Variable JSON_parse : string → option JsValue.
Variable JSON_stringify : JsValue → string.
Hypothesis JSON_parse_empty : JSON_parse EmptyString = None.

(** X24.  When [JSON.parse] reads the text [JSON.stringify] wrote of a
    list as the array [parsed]: if storage can be written, [loadDocs]
    after [saveDocs] returns [parsed] and [loadToken] after [saveToken]
    returns the token, also when the other one is saved in between; if
    storage cannot be written, [saveDocs] and [saveToken] leave it as it
    was, throwing nothing.  [saveDocs] never changes the stored token and
    [saveToken] never changes what [loadDocs] returns. *)
Theorem what_is_saved_is_loaded l t ls parsed :
  JSON_parse (JSON_stringify (JArr (map doc_value l))) = Some (JArr parsed) →
  (writable ls →
   loadDocs JSON_parse (saveDocs JSON_stringify l ls) = parsed
   ∧ loadToken (saveToken t ls) = t
   ∧ loadDocs JSON_parse (saveToken t (saveDocs JSON_stringify l ls)) = parsed
   ∧ loadToken (saveDocs JSON_stringify l (saveToken t ls)) = t)
  ∧ (¬ writable ls → saveDocs JSON_stringify l ls = ls ∧ saveToken t ls = ls)
  ∧ loadToken (saveDocs JSON_stringify l ls) = loadToken ls
  ∧ loadDocs JSON_parse (saveToken t ls) = loadDocs JSON_parse ls.
Proof.
  intros Hp.
  assert (JSON_stringify (JArr (map doc_value l)) ≠ EmptyString) as Hne by congruence.
  unfold saveDocs, saveToken, setItem, loadDocs, loadToken, getItem, writable.
  destruct (denied ls) eqn:Hd; simpl.
  { rewrite Hd. split; [by intros [? _]|]. split; [done|]. by split. }
  destruct (full ls) eqn:Hf; simpl.
  { rewrite Hd. split; [by intros [_ ?]|]. split; [done|]. by split. }
  split; [|split; [|split]].
  - intros _. rewrite ?Hd, ?Hf. simpl.
    rewrite !lookup_insert_eq, lookup_insert_ne, !lookup_insert_eq by done.
    destruct (JSON_stringify _) as [|c raw]; [done|]. rewrite Hp.
    rewrite lookup_insert_ne, lookup_insert_eq by done. done.
  - intros H. by destruct H.
  - by rewrite lookup_insert_ne.
  - by rewrite lookup_insert_ne.
Qed.
End WithJSON.

Lemma what_is_saved_is_loaded_witness :
  loadDocs Sample.parse1 (saveDocs Sample.stringify1 [Sample.doc0] Sample.storage0)
  = [stored_value Sample.doc0]
  ∧ loadToken (saveToken "ghp_example" Sample.storage0) = "ghp_example"
  ∧ loadDocs Sample.parse1
      (saveToken "ghp_example" (saveDocs Sample.stringify1 [Sample.doc0] Sample.storage0))
    = [stored_value Sample.doc0]
  ∧ loadToken (saveDocs Sample.stringify1 [Sample.doc0]
                 (saveToken "ghp_example" Sample.storage0))
    = "ghp_example".
Proof.
  apply (proj1 (what_is_saved_is_loaded Sample.parse1 Sample.stringify1 eq_refl
                  [Sample.doc0] "ghp_example" Sample.storage0
                  [stored_value Sample.doc0] eq_refl)).
  split; reflexivity.
Defined.

End PersistenceFacts.

(** ** App: reload, token, loading flag, panes *)

Module SessionFacts.
Import Js Hooks Spec Storage StringFacts.

Lemma entry_of_stored_value d : entry_of_value (stored_value d) = Some d.
Proof. by destruct d as [i [x|] [l|] u [o r b p k]]. Qed.

Lemma entries_of_stored_values l : mapM entry_of_value (map stored_value l) = Some l.
Proof.
  apply mapM_Some. induction l as [|d l IH]; [constructor|].
  constructor; [apply entry_of_stored_value|done].
Qed.

Section Mount.

Variable JSON_parse : string → option JsValue.
Variable JSON_stringify : JsValue → string.
Variable ENV_TOKEN : string.
Hypothesis JSON_parse_empty : JSON_parse EmptyString = None.

(** X25.  When storage can be written and [JSON.parse] reads the text
    [JSON.stringify] wrote of a list as the entries without their
    undefined properties, the effect that runs on mount after the list was
    saved restores the list itself, and selects its first doc when nothing
    was selected. *)
Theorem reload_restores_list l s :
  writable (storage s) →
  JSON_parse (JSON_stringify (JArr (map doc_value l))) = Some (JArr (map stored_value l)) →
  ∃ s', App.restore_docs JSON_parse
          (setStorage (saveDocs JSON_stringify l (storage s)) s) = Some s'
      ∧ docs s' = l
      ∧ selectedId s'
        = match l with
          | d :: _ => if App.no_id (selectedId s) then Some (id d) else selectedId s
          | [] => selectedId s
          end.
Proof.
  intros [Hd Hf] Hp. unfold App.restore_docs.
  assert (loadDocs JSON_parse (storage (setStorage (saveDocs JSON_stringify l (storage s)) s))
          = map stored_value l) as ->.
  { unfold saveDocs, setItem, loadDocs, getItem. rewrite Hd, Hf. simpl. rewrite ?Hd.
    rewrite lookup_insert_eq. destruct (JSON_stringify _); [congruence|]. by rewrite Hp. }
  rewrite entries_of_stored_values. simpl. eexists. split; [done|].
  destruct l as [|d l]; simpl; [done|]. by destruct (App.no_id (selectedId s)).
Qed.

End Mount.

(** X26.  When storage can be written, the token of the state and the
    stored token agree: after the effect on mount, the state's token is
    the stored token or, when none is stored, the token of the
    environment, which is then stored; and after a change of the token
    field both are the text typed. *)
Theorem token_state_matches_storage ENV_TOKEN v s :
  writable (storage s) →
  (token s = App.initial_token ENV_TOKEN (storage s) →
   token (App.restore_token ENV_TOKEN s) = App.initial_token ENV_TOKEN (storage s)
   ∧ loadToken (storage (App.restore_token ENV_TOKEN s))
     = token (App.restore_token ENV_TOKEN s))
  ∧ token (App.handleTokenChange v s) = v
  ∧ loadToken (storage (App.handleTokenChange v s)) = v.
Proof.
  intros [Hd Hf]. split; [|split; [done|]].
  - intros Ht. unfold App.restore_token, App.initial_token in *.
    destruct ENV_TOKEN as [|c e]; [by destruct (loadToken (storage s))|].
    destruct (loadToken (storage s)) as [|c' t] eqn:El; [|by rewrite El].
    simpl. split; [done|].
    unfold saveToken, setItem, loadToken, getItem. rewrite Hd, Hf. simpl.
    by rewrite lookup_insert_eq.
  - simpl. unfold saveToken, setItem, loadToken, getItem. rewrite Hd, Hf. simpl.
    by rewrite lookup_insert_eq.
Qed.

(** X27.  A load of a doc of the list (by the effect, Retry or Refresh)
    sets the loading flag and clears the error.  If the doc is the
    selected one, the settled fetch ends loading and leaves the YAML with
    no error, or an error with no YAML.  If another doc is selected, as
    after Refresh on a doc that is not the selected one, the settled fetch
    changes nothing: the loading flag stays set and the main pane keeps
    showing the loading notice. *)
Theorem load_ends_only_if_still_selected captured target d outcome s :
  App.find_doc target (docs s) = Some d →
  let started := App.handleRefresh captured target s in
  let s1 := App.render (fst started) in
  snd started = Some (normalized d, or_undefined (trim (token s)))
  ∧ loading s1 = true ∧ error s1 = None
  ∧ (selectedId s = Some target →
     loading (App.loadDoc_settle target outcome s1) = false
     ∧ match outcome with
       | Ok text =>
           fetchedYaml (App.loadDoc_settle target outcome s1) = Some text
           ∧ error (App.loadDoc_settle target outcome s1) = None
       | Throw e =>
           fetchedYaml (App.loadDoc_settle target outcome s1) = None
           ∧ error (App.loadDoc_settle target outcome s1) = Some (App.message_of e)
       end)
  ∧ (selectedId s ≠ Some target →
     App.loadDoc_settle target outcome s1 = s1
     ∧ App.panes (App.loadDoc_settle target outcome s1) = [App.LoadingPane]).
Proof.
  intros Hf. unfold App.handleRefresh, App.loadDoc_start. rewrite Hf. simpl.
  split; [done|]. split; [done|]. split; [done|].
  unfold App.loadDoc_settle, App.still_selected, App.render. simpl. split; intros H.
  - destruct outcome; simpl; repeat case_bool_decide; done.
  - destruct outcome; simpl; repeat case_bool_decide; done.
Qed.

(** X28.  When the selected doc is removed and the list becomes empty, no
    load is started by the effect on the selection, nothing is selected,
    and a fetch of the removed doc that settles afterwards changes
    nothing; the loading flag is what it was: if the doc was loading when
    it was removed, the main pane keeps showing the loading notice over an
    empty list. *)
Theorem removing_last_doc_mid_load_sticks JSON_stringify captured target outcome s :
  selectedId s = Some target →
  DocList.removed target (docs s) = [] →
  let s1 := App.render (DocList.handleRemove JSON_stringify target s) in
  let after := App.selection_effect captured s1 in
  snd after = None
  ∧ docs (fst after) = [] ∧ selectedId (fst after) = None
  ∧ App.loadDoc_settle target outcome (fst after) = fst after
  ∧ loading (fst after) = loading s
  ∧ App.panes (fst after) = if loading s then [App.LoadingPane] else [App.AddHint].
Proof.
  intros Hsel Hrem. unfold DocList.handleRemove. rewrite Hrem.
  rewrite bool_decide_eq_true_2 by done. 
  unfold App.loadDoc_settle, App.still_selected, App.panes. simpl.
  repeat split; try done.
  - destruct outcome; simpl; repeat case_bool_decide; done.
  - by destruct (loading s).
Qed.

(** X29.  The main pane shows at most one of its five blocks (loading
    notice, error, viewer, hint to add a URL, hint to select a doc), and
    shows none of them exactly when nothing loads, there is no error text
    and no YAML text, the list is not empty and a doc is selected: so
    after a fetch that returned the empty text. *)
Theorem at_most_one_pane s :
  (length (App.panes s) ≤ 1)%nat
  ∧ (App.panes s = []
     ↔ loading s = false ∧ App.shown (error s) = false
       ∧ App.shown (fetchedYaml s) = false
       ∧ docs s ≠ [] ∧ App.no_id (selectedId s) = false).
Proof.
  unfold App.panes.
  destruct (loading s), (App.shown (error s)), (App.shown (fetchedYaml s)),
    (docs s) as [|d l], (App.no_id (selectedId s)); simpl;
    (split; [lia|]); split; try done; intros (? & ? & ? & ? & ?); done.
Qed.

Lemma reload_restores_list_witness :
  ∃ s', App.restore_docs Sample.parse1
          (setStorage (saveDocs Sample.stringify1 [Sample.doc0] (storage Sample.state0))
             Sample.state0) = Some s'
      ∧ docs s' = [Sample.doc0]
      ∧ selectedId s'
        = if App.no_id (selectedId Sample.state0) then Some (id Sample.doc0)
          else selectedId Sample.state0.
Proof.
  apply (reload_restores_list Sample.parse1 Sample.stringify1 eq_refl [Sample.doc0]
           Sample.state0).
  - split; reflexivity.
  - reflexivity.
Defined.

Lemma token_state_matches_storage_witness :
  (token Sample.state0 = App.initial_token "ghp_env" (storage Sample.state0) →
   token (App.restore_token "ghp_env" Sample.state0)
   = App.initial_token "ghp_env" (storage Sample.state0)
   ∧ loadToken (storage (App.restore_token "ghp_env" Sample.state0))
     = token (App.restore_token "ghp_env" Sample.state0))
  ∧ token (App.handleTokenChange "ghp_typed" Sample.state0) = "ghp_typed"
  ∧ loadToken (storage (App.handleTokenChange "ghp_typed" Sample.state0)) = "ghp_typed".
Proof.
  apply (token_state_matches_storage "ghp_env" "ghp_typed" Sample.state0).
  split; reflexivity.
Defined.

Lemma load_ends_only_if_still_selected_witness :
  App.loadDoc_settle "doc-2" (Ok "openapi: 3.0.0")
    (App.render (fst (App.handleRefresh (Some "doc-1") "doc-2" Sample.state1)))
  = App.render (fst (App.handleRefresh (Some "doc-1") "doc-2" Sample.state1))
  ∧ App.panes
      (App.loadDoc_settle "doc-2" (Ok "openapi: 3.0.0")
         (App.render (fst (App.handleRefresh (Some "doc-1") "doc-2" Sample.state1))))
    = [App.LoadingPane].
Proof.
  apply (load_ends_only_if_still_selected (Some "doc-1") "doc-2" Sample.doc1
           (Ok "openapi: 3.0.0") Sample.state1 eq_refl).
  discriminate.
Defined.

Lemma removing_last_doc_mid_load_sticks_witness :
  snd (App.selection_effect (Some "doc-1")
         (App.render (DocList.handleRemove Sample.stringify0 "doc-1" Sample.state0)))
  = None
  ∧ docs (fst (App.selection_effect (Some "doc-1")
                 (App.render (DocList.handleRemove Sample.stringify0 "doc-1"
                                Sample.state0)))) = []
  ∧ selectedId (fst (App.selection_effect (Some "doc-1")
                       (App.render (DocList.handleRemove Sample.stringify0 "doc-1"
                                      Sample.state0)))) = None
  ∧ App.loadDoc_settle "doc-1" (Ok "openapi: 3.0.0")
      (fst (App.selection_effect (Some "doc-1")
              (App.render (DocList.handleRemove Sample.stringify0 "doc-1"
                             Sample.state0))))
    = fst (App.selection_effect (Some "doc-1")
             (App.render (DocList.handleRemove Sample.stringify0 "doc-1" Sample.state0)))
  ∧ loading (fst (App.selection_effect (Some "doc-1")
                    (App.render (DocList.handleRemove Sample.stringify0 "doc-1"
                                   Sample.state0))))
    = loading Sample.state0
  ∧ App.panes (fst (App.selection_effect (Some "doc-1")
                      (App.render (DocList.handleRemove Sample.stringify0 "doc-1"
                                     Sample.state0))))
    = if loading Sample.state0 then [App.LoadingPane] else [App.AddHint].
Proof.
  apply (removing_last_doc_mid_load_sticks Sample.stringify0 (Some "doc-1") "doc-1"
           (Ok "openapi: 3.0.0") Sample.state0); reflexivity.
Defined.

End SessionFacts.

(** ** extractTagsFromSpec *)

Module TagFacts.
Import Tags Spec.

Lemma same_value_eq x y : same_value x y = true → x = y.
Proof.
  destruct x, y; simpl; try done.
  - by intros ->%Bool.eqb_prop.
  - by intros ->%Z.eqb_eq.
  - by intros ->%String.eqb_eq.
Qed.

Lemma same_value_sym x y : same_value x y = same_value y x.
Proof.
  destruct x, y; simpl; try done.
  - by destruct b, b0.
  - apply Z.eqb_sym.
  - apply String.eqb_sym.
Qed.

Lemma includes_elem t l : includes t l = true → t ∈ l.
Proof.
  unfold includes. rewrite existsb_exists. intros (x & Hx%list_elem_of_In & Hs).
  by apply same_value_eq in Hs as ->.
Qed.

Lemma includes_app t a b : includes t (a ++ b) = includes t a || includes t b.
Proof. apply existsb_app. Qed.

(** What a run of [add] appends. *)
Lemma fold_add ts : ∀ acc,
  ∃ rest, fold_left add ts acc = (acc ++ rest)%list
        ∧ distinct rest = true
        ∧ (∀ x, x ∈ rest → x ∈ ts ∧ includes x acc = false)
        ∧ (∀ t, t ∈ ts → t ∈ (acc ++ rest)%list).
Proof.
  induction ts as [|t ts IH]; intros acc.
  { exists []. rewrite app_nil_r. split; [done|]. split; [done|].
    split; by intros ? ?%elem_of_nil. }
  cbn [fold_left]. unfold add at 2. destruct (includes t acc) eqn:Ht.
  - destruct (IH acc) as (rest & -> & Hd & Hr & Hc). exists rest. repeat split; try done.
    + apply elem_of_cons. right. by apply Hr.
    + by apply Hr.
    + intros t' [->|Hin]%elem_of_cons; [|by apply Hc].
      apply elem_of_app. left. by apply includes_elem.
  - destruct (IH (acc ++ [t])%list) as (rest & -> & Hd & Hr & Hc).
    exists (t :: rest). rewrite <- app_assoc. split; [done|]. split; [|split].
    + cbn [distinct]. rewrite Hd, andb_true_r. apply negb_true_iff.
      unfold includes. apply not_true_is_false. rewrite existsb_exists.
      intros (x & Hx%list_elem_of_In & Hs).
      destruct (Hr x Hx) as [_ Hi]. rewrite includes_app in Hi.
      apply orb_false_iff in Hi as [_ Hi]. simpl in Hi. rewrite orb_false_r in Hi.
      rewrite same_value_sym in Hs. congruence.
    + intros x [->|Hx]%elem_of_cons.
      * split; [apply list_elem_of_here|done].
      * destruct (Hr x Hx) as [Hin Hi]. split; [by apply list_elem_of_further|].
        rewrite includes_app in Hi. by apply orb_false_iff in Hi as [? _].
    + intros t' [->|Hin]%elem_of_cons.
      * apply elem_of_app. right. apply list_elem_of_here.
      * specialize (Hc t' Hin). by rewrite <- app_assoc in Hc.
Qed.

(** X30.  [extractTagsFromSpec] returns the empty list for a document
    that is no object.  For an object it returns the names of the
    top-level tags, in their order, followed by tags of the operations:
    every tag of an operation occurs in the list; those that follow the
    top-level names are tags of operations, no two of them the same value
    and none the same value as a top-level name. *)
Theorem menu_lists_every_tag_once spec :
  if is_object spec then
    ∃ rest,
      extractTagsFromSpec spec = (fromTop spec ++ rest)%list
      ∧ distinct rest = true
      ∧ (∀ x, x ∈ rest → x ∈ visited spec ∧ includes x (fromTop spec) = false)
      ∧ (∀ t, t ∈ visited spec → t ∈ extractTagsFromSpec spec)
  else extractTagsFromSpec spec = [].
Proof.
  unfold extractTagsFromSpec. destruct (is_object spec); [|done].
  unfold fromPaths.
  destruct (fold_add (visited spec) []) as (set & Hset & Hdset & Hrset & Hcset).
  rewrite Hset. cbn [app] in *.
  destruct (fromTop spec) as [|t0 top] eqn:Htop.
  - exists set. repeat split; try done. by apply Hrset.
  - destruct (fold_add set (t0 :: top)) as (rest & -> & Hd & Hr & Hc).
    exists rest. repeat split; try done.
    + apply Hrset, Hr. done.
    + by apply Hr.
    + intros t Ht. by apply Hc, Hcset.
Qed.

End TagFacts.
